(** * OAuth consent flow of the SimBrief MCP server: a shallow embedding

    The development follows the three source modules of the Google OAuth
    front end:
    - [oauth-utils]   : signed approval cookies, approval form parsing;
    - [allowed-users] : the static allow-list and the "access denied" page;
    - [google-handler]: the [/authorize] and [/callback] routes.

    JavaScript strings are sequences of UTF-16 code units; they are modelled
    as [list N].  A computation that may raise is a [result]; the platform
    functions the source calls (TextEncoder, WebCrypto HMAC-SHA-256,
    decodeURIComponent, parseInt, String.prototype.match, atob/btoa,
    JSON.parse/JSON.stringify, Date) are modelled after their standards. *)

From Stdlib Require Import NArith ZArith Lia List String Ascii Bool.
From stdpp Require Import gmap.

Local Open Scope N_scope.

(** ** JavaScript strings and faults *)

Abbreviation jsstring := (list N).

(** A source-level string literal, one code unit per character. *)
Definition js (s : string) : jsstring :=
  map N_of_ascii (list_ascii_of_string s).

(** The double quote character, for literals that contain it. *)
Definition dq : jsstring := [34].

Inductive JsError : Type :=
| TypeError
| URIError
| SyntaxError
| DataError
| InvalidCharacterError
| Error (message : jsstring).

Inductive result (A : Type) : Type :=
| Ok (a : A)
| Throw (e : JsError).
Arguments Ok {A} a.
Arguments Throw {A} e.

Definition bind {A B} (r : result A) (k : A -> result B) : result B :=
  match r with
  | Ok a => k a
  | Throw e => Throw e
  end.

Notation "'let!' x ':=' r 'in' k" := (bind r (fun x => k))
  (at level 10, x name, r at level 100, k at level 200).

Definition jsstring_eqb (a b : jsstring) : bool := bool_decide (a = b).

(** ** SHA-256 and HMAC (FIPS 180-4, RFC 2104), on bytes held in [N] *)

Module SHA256.

Definition w32 : N := 4294967296.
Definition add32 (a b : N) : N := (a + b) mod w32.
Definition not32 (x : N) : N := N.lxor x 4294967295.
Definition rotr (n x : N) : N :=
  N.lor (N.shiftr x n) ((N.shiftl x (32 - n)) mod w32).

Definition Ch (x y z : N) : N := N.lxor (N.land x y) (N.land (not32 x) z).
Definition Maj (x y z : N) : N :=
  N.lxor (N.lxor (N.land x y) (N.land x z)) (N.land y z).
Definition bsig0 (x : N) : N := N.lxor (N.lxor (rotr 2 x) (rotr 13 x)) (rotr 22 x).
Definition bsig1 (x : N) : N := N.lxor (N.lxor (rotr 6 x) (rotr 11 x)) (rotr 25 x).
Definition ssig0 (x : N) : N := N.lxor (N.lxor (rotr 7 x) (rotr 18 x)) (N.shiftr x 3).
Definition ssig1 (x : N) : N := N.lxor (N.lxor (rotr 17 x) (rotr 19 x)) (N.shiftr x 10).

(** The sixty-four round constants, in decimal. *)
Definition K : list N :=
  [
    1116352408; 1899447441; 3049323471; 3921009573;
    961987163; 1508970993; 2453635748; 2870763221;
    3624381080; 310598401; 607225278; 1426881987;
    1925078388; 2162078206; 2614888103; 3248222580;
    3835390401; 4022224774; 264347078; 604807628;
    770255983; 1249150122; 1555081692; 1996064986;
    2554220882; 2821834349; 2952996808; 3210313671;
    3336571891; 3584528711; 113926993; 338241895;
    666307205; 773529912; 1294757372; 1396182291;
    1695183700; 1986661051; 2177026350; 2456956037;
    2730485921; 2820302411; 3259730800; 3345764771;
    3516065817; 3600352804; 4094571909; 275423344;
    430227734; 506948616; 659060556; 883997877;
    958139571; 1322822218; 1537002063; 1747873779;
    1955562222; 2024104815; 2227730452; 2361852424;
    2428436474; 2756734187; 3204031479; 3329325298 ].

Record state : Type := mkState
  { sa : N; sb : N; sc : N; sd : N; se : N; sf : N; sg : N; sh : N }.

Definition H0 : state :=
  mkState 1779033703 3144134277 1013904242 2773480762
          1359893119 2600822924 528734635 1541459225.

Definition round (st : state) (k w : N) : state :=
  let t1 := add32 (add32 (add32 (add32 (sh st) (bsig1 (se st)))
                                (Ch (se st) (sf st) (sg st))) k) w in
  let t2 := add32 (bsig0 (sa st)) (Maj (sa st) (sb st) (sc st)) in
  mkState (add32 t1 t2) (sa st) (sb st) (sc st)
          (add32 (sd st) t1) (se st) (sf st) (sg st).

(** [w] is the sliding window W[t .. t+15] of the message schedule. *)
Fixpoint rounds (ks : list N) (w : list N) (st : state) : state :=
  match ks with
  | [] => st
  | k :: ks' =>
      let wt := nth 0 w 0 in
      let next := add32 (add32 (ssig1 (nth 14 w 0)) (nth 9 w 0))
                        (add32 (ssig0 (nth 1 w 0)) wt) in
      rounds ks' (tl w ++ [next]) (round st k wt)
  end.

Fixpoint words_of_bytes (bs : list N) : list N :=
  match bs with
  | b0 :: b1 :: b2 :: b3 :: t =>
      (b0 * 16777216 + b1 * 65536 + b2 * 256 + b3) :: words_of_bytes t
  | _ => []
  end.

Definition compress (st : state) (block : list N) : state :=
  let r := rounds K (words_of_bytes block) st in
  mkState (add32 (sa st) (sa r)) (add32 (sb st) (sb r))
          (add32 (sc st) (sc r)) (add32 (sd st) (sd r))
          (add32 (se st) (se r)) (add32 (sf st) (sf r))
          (add32 (sg st) (sg r)) (add32 (sh st) (sh r)).

Definition be_bytes (n : nat) (x : N) : list N :=
  map (fun i => (x / 256 ^ N.of_nat i) mod 256) (rev (seq 0 n)).

Definition pad (msg : list N) : list N :=
  let len := N.of_nat (length msg) in
  let zeros := (119 - len mod 64) mod 64 in
  msg ++ [128] ++ repeat 0 (N.to_nat zeros) ++ be_bytes 8 (len * 8).

Fixpoint blocks (n : nat) (bs : list N) (st : state) : state :=
  match n with
  | O => st
  | S n' => blocks n' (skipn 64 bs) (compress st (firstn 64 bs))
  end.

Definition digest_bytes (st : state) : list N :=
  be_bytes 4 (sa st) ++ be_bytes 4 (sb st) ++ be_bytes 4 (sc st) ++
  be_bytes 4 (sd st) ++ be_bytes 4 (se st) ++ be_bytes 4 (sf st) ++
  be_bytes 4 (sg st) ++ be_bytes 4 (sh st).

Definition sha256 (msg : list N) : list N :=
  let p := pad msg in
  digest_bytes (blocks (length p / 64)%nat p H0).

(** HMAC with the 64-byte block of SHA-256: a key longer than the block is
    hashed first, a shorter one is filled with zero bytes. *)
Definition key_block (key : list N) : list N :=
  let k0 := if (64 <? length key)%nat then sha256 key else key in
  k0 ++ repeat 0 (64 - length k0)%nat.

Definition hmac (key msg : list N) : list N :=
  let kb := key_block key in
  sha256 (map (N.lxor 0x5c) kb ++ sha256 (map (N.lxor 0x36) kb ++ msg)).

End SHA256.

(** ** TextEncoder: UTF-8 bytes of a string of UTF-16 code units *)

Definition is_high_surrogate (c : N) : bool := (0xD800 <=? c) && (c <=? 0xDBFF).
Definition is_low_surrogate (c : N) : bool := (0xDC00 <=? c) && (c <=? 0xDFFF).

Definition utf8_of_code_point (cp : N) : list N :=
  if cp <? 0x80 then [cp]
  else if cp <? 0x800 then [0xC0 + cp / 64; 0x80 + cp mod 64]
  else if cp <? 0x10000 then
    [0xE0 + cp / 4096; 0x80 + (cp / 64) mod 64; 0x80 + cp mod 64]
  else
    [0xF0 + cp / 262144; 0x80 + (cp / 4096) mod 64;
     0x80 + (cp / 64) mod 64; 0x80 + cp mod 64].

(** Unpaired surrogates are replaced by U+FFFD, as [TextEncoder.encode] does. *)
Fixpoint enc_encode (s : jsstring) : list N :=
  match s with
  | [] => []
  | c :: t =>
      if is_high_surrogate c then
        match t with
        | d :: t' =>
            if is_low_surrogate d
            then utf8_of_code_point
                   (0x10000 + (c - 0xD800) * 0x400 + (d - 0xDC00))
                 ++ enc_encode t'
            else utf8_of_code_point 0xFFFD ++ enc_encode t
        | [] => utf8_of_code_point 0xFFFD
        end
      else if is_low_surrogate c then utf8_of_code_point 0xFFFD ++ enc_encode t
      else utf8_of_code_point c ++ enc_encode t
  end.

(** ** Character classes, [split], [trim] *)

(** WhiteSpace and LineTerminator of ECMAScript: what [trim] strips and
    [parseInt] skips. *)
Definition is_js_whitespace (c : N) : bool :=
  (c =? 9) || (c =? 10) || (c =? 11) || (c =? 12) || (c =? 13) || (c =? 32)
  || (c =? 0xA0) || (c =? 0x1680) || ((0x2000 <=? c) && (c <=? 0x200A))
  || (c =? 0x2028) || (c =? 0x2029) || (c =? 0x202F) || (c =? 0x205F)
  || (c =? 0x3000) || (c =? 0xFEFF).

(** The characters the regular expression atom [.] does not match. *)
Definition is_line_terminator (c : N) : bool :=
  (c =? 10) || (c =? 13) || (c =? 0x2028) || (c =? 0x2029).

Fixpoint drop_while (p : N -> bool) (s : jsstring) : jsstring :=
  match s with
  | c :: t => if p c then drop_while p t else s
  | [] => []
  end.

Definition String_trim (s : jsstring) : jsstring :=
  rev (drop_while is_js_whitespace (rev (drop_while is_js_whitespace s))).

(** [s.split(sep)] for a one-character separator: never an empty array. *)
Fixpoint String_split (sep : N) (s : jsstring) : list jsstring :=
  match s with
  | [] => [[]]
  | c :: t =>
      if c =? sep then [] :: String_split sep t
      else match String_split sep t with
           | h :: r => (c :: h) :: r
           | [] => [[c]]
           end
  end.

(** The string contains no semicolon. *)
Definition no_semicolon (s : jsstring) : bool :=
  forallb (fun c => negb (c =? 59)) s.

(** ** [decodeURIComponent] *)

Definition hex_digit_value (c : N) : option N :=
  if (48 <=? c) && (c <=? 57) then Some (c - 48)
  else if (97 <=? c) && (c <=? 102) then Some (c - 87)
  else if (65 <=? c) && (c <=? 70) then Some (c - 55)
  else None.

(** The lowercase hexadecimal digit of a value below 16. *)
Definition hex_digit (d : N) : N := if d <? 10 then 48 + d else 87 + d.

Inductive uri_token : Type :=
| UChar (c : N)
| UByte (b : N)
| UBad.

(** Every [%] must be followed by two hexadecimal digits. *)
Fixpoint uri_tokens (s : jsstring) : list uri_token :=
  match s with
  | [] => []
  | 37 :: t =>
      match t with
      | a :: b :: t' =>
          match hex_digit_value a, hex_digit_value b with
          | Some x, Some y => UByte (16 * x + y) :: uri_tokens t'
          | _, _ => [UBad]
          end
      | _ => [UBad]
      end
  | c :: t => UChar c :: uri_tokens t
  end.

Definition is_continuation (b : N) : bool := (0x80 <=? b) && (b <=? 0xBF).

Definition utf16_of_code_point (cp : N) : jsstring :=
  if cp <? 0x10000 then [cp]
  else [0xD800 + (cp - 0x10000) / 0x400; 0xDC00 + (cp - 0x10000) mod 0x400].

(** A code point decoded from [n] bytes is accepted when it needs [n] bytes,
    is no surrogate and lies in the Unicode range. *)
Definition valid_scalar (lo cp : N) : bool :=
  (lo <=? cp) && (cp <=? 0x10FFFF) && negb ((0xD800 <=? cp) && (cp <=? 0xDFFF)).

(** Escaped bytes are read as UTF-8; anything else is a URIError. *)
Fixpoint uri_decode (ts : list uri_token) : result jsstring :=
  match ts with
  | [] => Ok []
  | UBad :: _ => Throw URIError
  | UChar c :: t => let! r := uri_decode t in Ok (c :: r)
  | UByte b :: t =>
      if b <? 0x80 then let! r := uri_decode t in Ok (b :: r)
      else if (0xC0 <=? b) && (b <? 0xE0) then
        match t with
        | UByte b1 :: t1 =>
            let cp := (b - 0xC0) * 64 + (b1 - 0x80) in
            if is_continuation b1 && valid_scalar 0x80 cp
            then let! r := uri_decode t1 in Ok (utf16_of_code_point cp ++ r)
            else Throw URIError
        | _ => Throw URIError
        end
      else if (0xE0 <=? b) && (b <? 0xF0) then
        match t with
        | UByte b1 :: UByte b2 :: t2 =>
            let cp := (b - 0xE0) * 4096 + (b1 - 0x80) * 64 + (b2 - 0x80) in
            if is_continuation b1 && is_continuation b2
               && valid_scalar 0x800 cp
            then let! r := uri_decode t2 in Ok (utf16_of_code_point cp ++ r)
            else Throw URIError
        | _ => Throw URIError
        end
      else if (0xF0 <=? b) && (b <? 0xF8) then
        match t with
        | UByte b1 :: UByte b2 :: UByte b3 :: t3 =>
            let cp := (b - 0xF0) * 262144 + (b1 - 0x80) * 4096
                      + (b2 - 0x80) * 64 + (b3 - 0x80) in
            if is_continuation b1 && is_continuation b2 && is_continuation b3
               && valid_scalar 0x10000 cp
            then let! r := uri_decode t3 in Ok (utf16_of_code_point cp ++ r)
            else Throw URIError
        | _ => Throw URIError
        end
      else Throw URIError
  end.

Definition decodeURIComponent (s : jsstring) : result jsstring :=
  uri_decode (uri_tokens s).

(** ** [parseInt(_, 16)], [Uint8Array] conversion, [match(/.{1,2}/g)] *)

Fixpoint hex_prefix_value (acc : option N) (s : jsstring) : option N :=
  match s with
  | c :: t =>
      match hex_digit_value c with
      | Some d => hex_prefix_value (Some (16 * default 0 acc + d)) t
      | None => acc
      end
  | [] => acc
  end.

(** [None] is NaN.  Leading white space is skipped, a sign and a [0x] prefix
    are accepted, and reading stops at the first character that is no digit. *)
Definition parseInt16 (s : jsstring) : option Z :=
  let s1 := drop_while is_js_whitespace s in
  let '(neg, s2) :=
    match s1 with
    | 45 :: t => (true, t)
    | 43 :: t => (false, t)
    | _ => (false, s1)
    end in
  let s3 :=
    match s2 with
    | 48 :: x :: t => if (x =? 120) || (x =? 88) then t else s2
    | _ => s2
    end in
  match hex_prefix_value None s3 with
  | None => None
  | Some v => Some (if neg : bool then (- Z.of_N v)%Z else Z.of_N v)
  end.

(** Storing a number in a [Uint8Array]: NaN becomes 0, others wrap modulo 256. *)
Definition ToUint8 (v : option Z) : N :=
  match v with
  | None => 0
  | Some z => Z.to_N (z mod 256)
  end.

(** All matches of [/.{1,2}/g], left to right: greedy runs of one or two
    characters that are no line terminators. *)
Fixpoint match_chunks (s : jsstring) : list jsstring :=
  match s with
  | [] => []
  | a :: t =>
      if is_line_terminator a then match_chunks t
      else
        match t with
        | b :: t' =>
            if is_line_terminator b then [a] :: match_chunks t'
            else [a; b] :: match_chunks t'
        | [] => [[a]]
        end
  end.

(** [String.prototype.match] with a global pattern yields [null] when
    nothing matches. *)
Definition String_match_1_2 (s : jsstring) : option (list jsstring) :=
  match match_chunks s with
  | [] => None
  | cs => Some cs
  end.


(** ** Numbers: decimal literals, binary64 rounding, [Number::toString] *)

Module Number.

(** A JSON number literal denotes [(-1)^neg * mant * 10^exp10] exactly. *)
Record literal : Type := mkLiteral { neg : bool; mant : N; exp10 : Z }.

(** A binary64 magnitude: [frac * 2^exp2] with [frac < 2^53] and
    [-1074 <= exp2 <= 971], or an overflow. *)
Inductive magnitude : Type :=
| Finite (frac : N) (exp2 : Z)
| Infinite.

(** The quotient [a / b] rounded to the nearest integer, ties to even. *)
Definition div_half_even (a b : N) : N :=
  let q := a / b in
  let r := a mod b in
  match 2 * r ?= b with
  | Lt => q
  | Gt => q + 1
  | Eq => if N.even q then q else q + 1
  end.

(** [num / den * 2^(-k)] rounded to an integer. *)
Definition scaled (num den : N) (k : Z) : N :=
  if (k <? 0)%Z then div_half_even (num * 2 ^ Z.to_N (- k)) den
  else div_half_even num (den * 2 ^ Z.to_N k).

(** Floor of the binary logarithm of [num / den], possibly one too small. *)
Definition log2_quot (num den : N) : Z :=
  if den <=? num then Z.of_N (N.log2 (num / den))
  else (- Z.of_N (N.log2 (den / num)) - 1)%Z.

Definition round_quot (num den : N) : magnitude :=
  let k0 := Z.max (log2_quot num den - 52) (-1074) in
  let q0 := scaled num den k0 in
  let k := if 2 ^ 53 <=? q0 then (k0 + 1)%Z else k0 in
  let q := if 2 ^ 53 <=? q0 then scaled num den k else q0 in
  if (971 <? k)%Z then Infinite else Finite q k.

Definition numerator (m : N) (e : Z) : N := m * 10 ^ Z.to_N e.
Definition denominator (e : Z) : N := 10 ^ Z.to_N (- e).

(** The binary64 value nearest to [m * 10^e]. *)
Definition to_double (m : N) (e : Z) : magnitude :=
  if m =? 0 then Finite 0 (-1074) else round_quot (numerator m e) (denominator e).

Definition magnitude_eqb (a b : magnitude) : bool :=
  match a, b with
  | Finite q k, Finite q' k' => (q =? q') && (k =? k')%Z
  | Infinite, Infinite => true
  | _, _ => false
  end.

Definition is_zero (l : literal) : bool :=
  magnitude_eqb (to_double (mant l) (exp10 l)) (Finite 0 (-1074)).

(** Decimal digits of a natural number, most significant first. *)
Fixpoint digits_fuel (fuel : nat) (n : N) (acc : jsstring) : jsstring :=
  match fuel with
  | O => acc
  | S f => if n <? 10 then (48 + n) :: acc
           else digits_fuel f (n / 10) ((48 + n mod 10) :: acc)
  end.
Definition digits (n : N) : jsstring := digits_fuel (S (N.to_nat (N.log2 n))) n [].

Definition Z_digits (z : Z) : jsstring :=
  if (z <? 0)%Z then 45 :: digits (Z.to_N (- z)) else digits (Z.to_N z).

(** The [n] with [10^(n-1) <= q * 2^k < 10^n], for [q > 0]. *)
Fixpoint scale_up (fuel : nat) (num den : N) (j : Z) : Z :=
  match fuel with
  | O => j
  | S f => if den <=? num * 10 then j else scale_up f (num * 10) den (j - 1)%Z
  end.
Definition decimal_exponent (q : N) (k : Z) : Z :=
  let num := q * 2 ^ Z.to_N k in
  let den := 2 ^ Z.to_N (- k) in
  if den <=? num then Z.of_nat (length (digits (num / den)))
  else scale_up 400 num den 0.

(** [|a/b - s*10^p|] compared for two candidates [s] and [s+1]: is [s] at
    least as close?  With [x = a/b] between them this is
    [2x <= (2s+1) * 10^p]. *)
Definition lower_is_closer (a b s : N) (p : Z) : bool :=
  let lhs := 2 * a * 10 ^ Z.to_N (- p) in
  let rhs := (2 * s + 1) * 10 ^ Z.to_N p * b in
  match lhs ?= rhs with
  | Lt => true
  | Gt => false
  | Eq => N.even s
  end.

(** The shortest decimal [s * 10^(n - k)], [k] digits in [s], that rounds to
    the double [q * 2^e2]; the closest one when several do. *)
Fixpoint shortest (fuel : nat) (nd : nat) (q : N) (e2 n10 : Z) : N * Z :=
  match fuel with
  | O => (q, n10)
  | S f =>
      let p := (n10 - Z.of_nat nd)%Z in
      let a := q * 2 ^ Z.to_N e2 * 10 ^ Z.to_N (- p) in
      let b := 2 ^ Z.to_N (- e2) * 10 ^ Z.to_N p in
      let lo := a / b in
      let hi := lo + 1 in
      let ok s := magnitude_eqb (to_double s p) (Finite q e2) in
      let norm s := if s =? 10 ^ N.of_nat nd then (10 ^ N.of_nat (nd - 1), (n10 + 1)%Z)
                    else (s, n10) in
      match ok lo && (10 ^ N.of_nat (nd - 1) <=? lo), ok hi with
      | true, true =>
          if lower_is_closer (q * 2 ^ Z.to_N e2) (2 ^ Z.to_N (- e2)) lo p
          then (lo, n10) else norm hi
      | true, false => (lo, n10)
      | false, true => norm hi
      | false, false => shortest f (S nd) q e2 n10
      end
  end.

Fixpoint strip_zeros (fuel : nat) (s : N) : N :=
  match fuel with
  | O => s
  | S f => if (s mod 10 =? 0) && negb (s =? 0) then strip_zeros f (s / 10) else s
  end.

(** [Number::toString] of a positive finite double, from its digits [ds]
    and the position [n] of the decimal point. *)
Definition format (ds : jsstring) (n : Z) : jsstring :=
  let k := Z.of_nat (length ds) in
  if ((k <=? n) && (n <=? 21))%Z then ds ++ repeat 48 (Z.to_nat (n - k))
  else if ((0 <? n) && (n <=? 21))%Z then
    firstn (Z.to_nat n) ds ++ [46] ++ skipn (Z.to_nat n) ds
  else if ((-6 <? n) && (n <=? 0))%Z then
    [48; 46] ++ repeat 48 (Z.to_nat (- n)) ++ ds
  else
    let e := (n - 1)%Z in
    let es := (if (e <? 0)%Z then [45] else [43]) ++ digits (Z.to_N (Z.abs e)) in
    match ds with
    | [d] => [d; 101] ++ es
    | d :: rest => [d; 46] ++ rest ++ [101] ++ es
    | [] => []
    end.

Definition toString (l : literal) : jsstring :=
  match to_double (mant l) (exp10 l) with
  | Infinite => (if neg l then [45] else []) ++ js "Infinity"
  | Finite 0 _ => [48]
  | Finite q e2 =>
      let '(s, n) := shortest 17 1 q e2 (decimal_exponent q e2) in
      (if neg l then [45] else []) ++ format (digits (strip_zeros 20 s)) n
  end.

Definition is_finite (l : literal) : bool :=
  match to_double (mant l) (exp10 l) with
  | Infinite => false
  | Finite _ _ => true
  end.

End Number.

(** ** [btoa] and [atob] *)

Module Base64.

Definition char_of_value (v : N) : N :=
  if v <? 26 then 65 + v
  else if v <? 52 then 97 + (v - 26)
  else if v <? 62 then 48 + (v - 52)
  else if v =? 62 then 43
  else 47.

Definition value_of_char (c : N) : option N :=
  if (65 <=? c) && (c <=? 90) then Some (c - 65)
  else if (97 <=? c) && (c <=? 122) then Some (c - 97 + 26)
  else if (48 <=? c) && (c <=? 57) then Some (c - 48 + 52)
  else if c =? 43 then Some 62
  else if c =? 47 then Some 63
  else None.

Fixpoint encode (bs : list N) : jsstring :=
  match bs with
  | [] => []
  | [a] => [char_of_value (a / 4); char_of_value ((a mod 4) * 16); 61; 61]
  | [a; b] =>
      [char_of_value (a / 4); char_of_value ((a mod 4) * 16 + b / 16);
       char_of_value ((b mod 16) * 4); 61]
  | a :: b :: c :: t =>
      [char_of_value (a / 4); char_of_value ((a mod 4) * 16 + b / 16);
       char_of_value ((b mod 16) * 4 + c / 64); char_of_value (c mod 64)]
      ++ encode t
  end.

(** The six-bit groups of a byte string, the last one filled with zeros. *)
Fixpoint sextets (bs : list N) : list N :=
  match bs with
  | [] => []
  | [a] => [a / 4; (a mod 4) * 16]
  | [a; b] => [a / 4; (a mod 4) * 16 + b / 16; (b mod 16) * 4]
  | a :: b :: c :: t =>
      [a / 4; (a mod 4) * 16 + b / 16; (b mod 16) * 4 + c / 64; c mod 64]
      ++ sextets t
  end.

Fixpoint padding (bs : list N) : jsstring :=
  match bs with
  | [] => []
  | [_] => [61; 61]
  | [_; _] => [61]
  | _ :: _ :: _ :: t => padding t
  end.

Definition latin1 (s : jsstring) : bool := forallb (fun c => c <=? 255) s.

(** [btoa] accepts only code units up to 0xFF. *)
Definition btoa (s : jsstring) : result jsstring :=
  if latin1 s then Ok (encode s)
  else Throw InvalidCharacterError.

Definition is_ascii_whitespace (c : N) : bool :=
  (c =? 9) || (c =? 10) || (c =? 12) || (c =? 13) || (c =? 32).

(** One or two trailing [=] are dropped when the length is a multiple of 4. *)
Definition strip_padding (d : jsstring) : jsstring :=
  if (length d mod 4 =? 0)%nat then
    match rev d with
    | 61 :: 61 :: r => rev r
    | 61 :: r => rev r
    | _ => d
    end
  else d.

Fixpoint values (d : jsstring) : option (list N) :=
  match d with
  | [] => Some []
  | c :: t =>
      match value_of_char c, values t with
      | Some v, Some vs => Some (v :: vs)
      | _, _ => None
      end
  end.

(** Four sextets give three bytes; the bits left over at the end are dropped. *)
Fixpoint decode_values (vs : list N) : list N :=
  match vs with
  | a :: b :: c :: d :: t =>
      [a * 4 + b / 16; (b mod 16) * 16 + c / 4; (c mod 4) * 64 + d]
      ++ decode_values t
  | [a; b; c] => [a * 4 + b / 16; (b mod 16) * 16 + c / 4]
  | [a; b] => [a * 4 + b / 16]
  | _ => []
  end.

(** The forgiving-base64 decoder of the HTML standard. *)
Definition atob (s : jsstring) : result jsstring :=
  let d := strip_padding (List.filter (fun c => negb (is_ascii_whitespace c)) s) in
  if (length d mod 4 =? 1)%nat then Throw InvalidCharacterError
  else match values d with
       | Some vs => Ok (decode_values vs)
       | None => Throw InvalidCharacterError
       end.

End Base64.

(** ** JSON values, [JSON.stringify], [JSON.parse] *)

#[local] Unset Elimination Schemes.
Inductive json : Type :=
| JNull
| JBool (b : bool)
| JNum (n : Number.literal)
| JStr (s : jsstring)
| JArr (items : list json)
| JObj (fields : list (jsstring * json)).
#[local] Set Elimination Schemes.

Module JSON.

Definition hex4 (c : N) : jsstring :=
  [hex_digit (c / 4096); hex_digit ((c / 256) mod 16);
   hex_digit ((c / 16) mod 16); hex_digit (c mod 16)].

Definition escape_unit (c : N) : jsstring :=
  if c =? 8 then [92; 98]
  else if c =? 9 then [92; 116]
  else if c =? 10 then [92; 110]
  else if c =? 12 then [92; 102]
  else if c =? 13 then [92; 114]
  else if c =? 34 then [92; 34]
  else if c =? 92 then [92; 92]
  else if c <? 32 then [92; 117] ++ hex4 c
  else [c].

(** QuoteJSONString without the quotes: control characters, the quote, the
    backslash and unpaired surrogates are escaped. *)
Fixpoint escape (s : jsstring) : jsstring :=
  match s with
  | [] => []
  | c :: t =>
      if is_high_surrogate c then
        match t with
        | d :: t' =>
            if is_low_surrogate d then [c; d] ++ escape t'
            else [92; 117] ++ hex4 c ++ escape t
        | [] => [92; 117] ++ hex4 c
        end
      else if is_low_surrogate c then [92; 117] ++ hex4 c ++ escape t
      else escape_unit c ++ escape t
  end.

Definition quote (s : jsstring) : jsstring := [34] ++ escape s ++ [34].

Fixpoint join_comma (l : list jsstring) : jsstring :=
  match l with
  | [] => []
  | [x] => x
  | x :: t => x ++ [44] ++ join_comma t
  end.

(** [JSON.stringify(v)] without indentation.  A number that is not finite
    is written [null]. *)
Fixpoint stringify (v : json) : jsstring :=
  match v with
  | JNull => js "null"
  | JBool true => js "true"
  | JBool false => js "false"
  | JNum n => if Number.is_finite n then Number.toString n else js "null"
  | JStr s => quote s
  | JArr items => [91] ++ join_comma (map stringify items) ++ [93]
  | JObj fields =>
      [123]
      ++ join_comma (map (fun kv => quote (fst kv) ++ [58] ++ stringify (snd kv)) fields)
      ++ [125]
  end.

(** The text of one member of an object. *)
Definition member_text (kv : jsstring * json) : jsstring :=
  quote (fst kv) ++ [58] ++ stringify (snd kv).

(** *** Parsing *)

Definition is_json_ws (c : N) : bool :=
  (c =? 32) || (c =? 9) || (c =? 10) || (c =? 13).

Definition skip_ws (s : jsstring) : jsstring := drop_while is_json_ws s.

Definition unhex4 (a b c d : N) : option N :=
  match hex_digit_value a, hex_digit_value b, hex_digit_value c, hex_digit_value d with
  | Some x, Some y, Some z, Some w => Some (((x * 16 + y) * 16 + z) * 16 + w)
  | _, _, _, _ => None
  end.

Definition cons_string (c : N) (r : option (jsstring * jsstring))
  : option (jsstring * jsstring) :=
  match r with
  | Some (s, rest) => Some (c :: s, rest)
  | None => None
  end.

(** The characters of a string literal after its opening quote, and what
    follows the closing quote. *)
Fixpoint parse_string_body (s : jsstring) : option (jsstring * jsstring) :=
  match s with
  | [] => None
  | 34 :: r => Some ([], r)
  | 92 :: r =>
      match r with
      | 34 :: t => cons_string 34 (parse_string_body t)
      | 92 :: t => cons_string 92 (parse_string_body t)
      | 47 :: t => cons_string 47 (parse_string_body t)
      | 98 :: t => cons_string 8 (parse_string_body t)
      | 102 :: t => cons_string 12 (parse_string_body t)
      | 110 :: t => cons_string 10 (parse_string_body t)
      | 114 :: t => cons_string 13 (parse_string_body t)
      | 116 :: t => cons_string 9 (parse_string_body t)
      | 117 :: a :: b :: c :: d :: t =>
          match unhex4 a b c d with
          | Some u => cons_string u (parse_string_body t)
          | None => None
          end
      | _ => None
      end
  | c :: r => if c <? 32 then None else cons_string c (parse_string_body r)
  end.

Definition is_digit (c : N) : bool := (48 <=? c) && (c <=? 57).

(** The longest run of digits: its value, its length, and the rest. *)
Fixpoint span_digits (acc : N) (count : nat) (s : jsstring) : N * nat * jsstring :=
  match s with
  | c :: t => if is_digit c then span_digits (10 * acc + (c - 48)) (S count) t
              else (acc, count, s)
  | [] => (acc, count, [])
  end.

Definition parse_exponent (s : jsstring) : option (Z * jsstring) :=
  match s with
  | c :: t =>
      if (c =? 101) || (c =? 69) then
        let '(sign, t1) :=
          match t with
          | 45 :: t' => ((-1)%Z, t')
          | 43 :: t' => (1%Z, t')
          | _ => (1%Z, t)
          end in
        match span_digits 0 0 t1 with
        | (_, O, _) => None
        | (e, _, rest) => Some ((sign * Z.of_N e)%Z, rest)
        end
      else Some (0%Z, s)
  | [] => Some (0%Z, [])
  end.

Definition parse_fraction (int : N) (s : jsstring) : option (N * Z * jsstring) :=
  match s with
  | 46 :: t =>
      match span_digits int 0 t with
      | (_, O, _) => None
      | (m, n, rest) => Some (m, (- Z.of_nat n)%Z, rest)
      end
  | _ => Some (int, 0%Z, s)
  end.

(** The JSON number grammar: an optional minus, an integer part without
    leading zeros, an optional fraction, an optional exponent. *)
Definition parse_number (s : jsstring) : option (Number.literal * jsstring) :=
  let '(negative, s1) := match s with 45 :: t => (true, t) | _ => (false, s) end in
  let int :=
    match s1 with
    | 48 :: t => Some (0, t)
    | c :: _ => if is_digit c
                then let '(v, _, rest) := span_digits 0 0 s1 in Some (v, rest)
                else None
    | [] => None
    end in
  match int with
  | None => None
  | Some (i, s2) =>
      match parse_fraction i s2 with
      | None => None
      | Some (m, e1, s3) =>
          match parse_exponent s3 with
          | None => None
          | Some (e2, s4) => Some (Number.mkLiteral negative m (e1 + e2), s4)
          end
      end
  end.

(** The syntax tree of a JSON text, objects holding their members as written. *)
Fixpoint parse_value (fuel : nat) (s : jsstring) {struct fuel}
  : option (json * jsstring) :=
  match fuel with
  | O => None
  | S f =>
      match skip_ws s with
      | 34 :: r =>
          match parse_string_body r with
          | Some (str, r') => Some (JStr str, r')
          | None => None
          end
      | 91 :: r =>
          match skip_ws r with
          | 93 :: r' => Some (JArr [], r')
          | _ => match parse_elements f r with
                 | Some (l, r') => Some (JArr l, r')
                 | None => None
                 end
          end
      | 123 :: r =>
          match skip_ws r with
          | 125 :: r' => Some (JObj [], r')
          | _ => match parse_members f r with
                 | Some (l, r') => Some (JObj l, r')
                 | None => None
                 end
          end
      | 110 :: 117 :: 108 :: 108 :: r => Some (JNull, r)
      | 116 :: 114 :: 117 :: 101 :: r => Some (JBool true, r)
      | 102 :: 97 :: 108 :: 115 :: 101 :: r => Some (JBool false, r)
      | s' =>
          match parse_number s' with
          | Some (n, r) => Some (JNum n, r)
          | None => None
          end
      end
  end
with parse_elements (fuel : nat) (s : jsstring) {struct fuel}
  : option (list json * jsstring) :=
  match fuel with
  | O => None
  | S f =>
      match parse_value f s with
      | Some (v, r) =>
          match skip_ws r with
          | 44 :: r' =>
              match parse_elements f r' with
              | Some (l, r'') => Some (v :: l, r'')
              | None => None
              end
          | 93 :: r' => Some ([v], r')
          | _ => None
          end
      | None => None
      end
  end
with parse_members (fuel : nat) (s : jsstring) {struct fuel}
  : option (list (jsstring * json) * jsstring) :=
  match fuel with
  | O => None
  | S f =>
      match skip_ws s with
      | 34 :: r =>
          match parse_string_body r with
          | Some (k, r1) =>
              match skip_ws r1 with
              | 58 :: r2 =>
                  match parse_value f r2 with
                  | Some (v, r3) =>
                      match skip_ws r3 with
                      | 44 :: r4 =>
                          match parse_members f r4 with
                          | Some (l, r5) => Some ((k, v) :: l, r5)
                          | None => None
                          end
                      | 125 :: r4 => Some ([(k, v)], r4)
                      | _ => None
                      end
                  | None => None
                  end
              | _ => None
              end
          | None => None
          end
      | _ => None
      end
  end.

(** *** Object construction *)

(** An array index: a canonical decimal numeral below 2^32 - 1.  Such keys
    are enumerated first, in increasing order. *)
Definition array_index (k : jsstring) : option N :=
  match k with
  | [] => None
  | [48] => Some 0
  | 48 :: _ => None
  | _ =>
      if forallb is_digit k && (length k <=? 10)%nat then
        let '(v, _, _) := span_digits 0 0 k in
        if v <? 4294967295 then Some v else None
      else None
  end.

Fixpoint replace_field (k : jsstring) (v : json) (fields : list (jsstring * json))
  : option (list (jsstring * json)) :=
  match fields with
  | [] => None
  | (k', v') :: t =>
      if jsstring_eqb k' k then Some ((k, v) :: t)
      else match replace_field k v t with
           | Some t' => Some ((k', v') :: t')
           | None => None
           end
  end.

Fixpoint insert_index (i : N) (k : jsstring) (v : json)
    (fields : list (jsstring * json)) : list (jsstring * json) :=
  match fields with
  | [] => [(k, v)]
  | (k', v') :: t =>
      match array_index k' with
      | Some j => if j <? i then (k', v') :: insert_index i k v t
                  else (k, v) :: fields
      | None => (k, v) :: fields
      end
  end.

(** Defining the property [k] on an object under construction. *)
Definition define_property (fields : list (jsstring * json)) (kv : jsstring * json)
  : list (jsstring * json) :=
  match replace_field (fst kv) (snd kv) fields with
  | Some fields' => fields'
  | None =>
      match array_index (fst kv) with
      | Some i => insert_index i (fst kv) (snd kv) fields
      | None => fields ++ [kv]
      end
  end.

(** The value a syntax tree denotes: duplicate members collapse, the last
    one giving the value; index keys come first. *)
Fixpoint build (v : json) : json :=
  match v with
  | JArr items => JArr (map build items)
  | JObj fields =>
      JObj (fold_left define_property
                      (map (fun kv => (fst kv, build (snd kv))) fields) [])
  | _ => v
  end.

Definition parse (text : jsstring) : result json :=
  match parse_value (S (2 * length text)) text with
  | Some (v, rest) =>
      match skip_ws rest with
      | [] => Ok (build v)
      | _ => Throw SyntaxError
      end
  | None => Throw SyntaxError
  end.

(** *** Values that survive a round trip through text and base64 *)

(** No numbers, and only code units up to 0xFF in strings and keys. *)
Fixpoint textual (v : json) : bool :=
  match v with
  | JNull => true
  | JBool _ => true
  | JNum _ => false
  | JStr s => Base64.latin1 s
  | JArr items => forallb textual items
  | JObj fields =>
      forallb (fun kv => Base64.latin1 (fst kv) && textual (snd kv)) fields
  end.

Fixpoint distinct (ks : list jsstring) : bool :=
  match ks with
  | [] => true
  | k :: t => negb (existsb (jsstring_eqb k) t) && distinct t
  end.

Definition plain_key (k : jsstring) : bool :=
  match array_index k with
  | None => true
  | Some _ => false
  end.

(** The members of every object are listed as the object enumerates them:
    no key twice, no array index among the keys. *)
Fixpoint canonical (v : json) : bool :=
  match v with
  | JArr items => forallb canonical items
  | JObj fields =>
      distinct (map fst fields)
      && forallb (fun kv => plain_key (fst kv) && canonical (snd kv)) fields
  | _ => true
  end.

(** Fuel that suffices to parse the text of a value. *)
Fixpoint weight (v : json) : nat :=
  match v with
  | JArr items => S (fold_right (fun x n => S (weight x + n)) O items)
  | JObj fields => S (fold_right (fun kv n => S (weight (snd kv) + n)) O fields)
  | _ => 1
  end.

End JSON.

(** ** Property access, truthiness and string conversion of JSON values *)

(** [None] stands for [undefined]. *)
Fixpoint lookup_field (k : jsstring) (fields : list (jsstring * json)) : option json :=
  match fields with
  | [] => None
  | (k', v) :: t => if jsstring_eqb k' k then Some v else lookup_field k t
  end.

(** [v.k] for a key [k] that no built-in prototype defines (all the keys
    the source reads are such): a TypeError on [null], the own property of
    an object, [undefined] otherwise. *)
Definition js_get (v : json) (k : jsstring) : result (option json) :=
  match v with
  | JNull => Throw TypeError
  | JObj fields => Ok (lookup_field k fields)
  | _ => Ok None
  end.

Definition truthy (v : option json) : bool :=
  match v with
  | None => false
  | Some JNull => false
  | Some (JBool b) => b
  | Some (JNum n) => negb (Number.is_zero n)
  | Some (JStr s) => match s with [] => false | _ => true end
  | Some (JArr _) => true
  | Some (JObj _) => true
  end.

Fixpoint join_results (l : list (result jsstring)) : result jsstring :=
  match l with
  | [] => Ok []
  | [x] => x
  | x :: t => let! a := x in let! b := join_results t in Ok (a ++ [44] ++ b)
  end.

(** ToString of a JSON value, as a template literal applies it.  An array
    joins its elements, [null] printing as the empty string; a plain object
    prints [[object Object]] unless an own [toString] member, which cannot
    be called, hides the inherited method. *)
Fixpoint json_ToString (v : json) : result jsstring :=
  match v with
  | JNull => Ok (js "null")
  | JBool true => Ok (js "true")
  | JBool false => Ok (js "false")
  | JNum n => Ok (Number.toString n)
  | JStr s => Ok s
  | JArr items =>
      join_results
        (map (fun x => match x with JNull => Ok [] | _ => json_ToString x end) items)
  | JObj fields =>
      match lookup_field (js "toString") fields with
      | Some _ => Throw TypeError
      | None => Ok (js "[object Object]")
      end
  end.

Definition ToString (v : option json) : result jsstring :=
  match v with
  | None => Ok (js "undefined")
  | Some x => json_ToString x
  end.

(** ** Dates: time values in milliseconds since the epoch, in UTC *)

Module Date.

Local Open Scope Z_scope.

Definition msPerDay : Z := 86400000.

(** Day number of the civil date [y]-[m]-[d] ([m] from 1), days since
    1970-01-01 in the proleptic Gregorian calendar. *)
Definition days_from_civil (y m d : Z) : Z :=
  let y' := if m <=? 2 then y - 1 else y in
  let era := y' / 400 in
  let yoe := y' - era * 400 in
  let doy := (153 * (if 2 <? m then m - 3 else m + 9) + 2) / 5 + d - 1 in
  let doe := yoe * 365 + yoe / 4 - yoe / 100 + doy in
  era * 146097 + doe - 719468.

(** Year, month (from 1) and day of the month of a day number. *)
Definition civil_from_days (z : Z) : Z * Z * Z :=
  let z' := z + 719468 in
  let era := z' / 146097 in
  let doe := z' - era * 146097 in
  let yoe := (doe - doe / 1460 + doe / 36524 - doe / 146096) / 365 in
  let doy := doe - (365 * yoe + yoe / 4 - yoe / 100) in
  let mp := (5 * doy + 2) / 153 in
  let d := doy - (153 * mp + 2) / 5 + 1 in
  let m := if mp <? 10 then mp + 3 else mp - 9 in
  ((if m <=? 2 then yoe + era * 400 + 1 else yoe + era * 400), m, d).

Definition Day (t : Z) : Z := t / msPerDay.
Definition TimeWithinDay (t : Z) : Z := t mod msPerDay.

(** [None] is the invalid date (a NaN time value). *)
Definition TimeClip (t : Z) : option Z :=
  if Z.abs t <=? 8640000000000000 then Some t else None.

Definition getFullYear (t : option Z) : option Z :=
  match t with
  | Some t => let '(y, _, _) := civil_from_days (Day t) in Some y
  | None => None
  end.

(** [setFullYear(year)]: same month, day of the month and time of day in
    the given year; a day the month does not have rolls over. *)
Definition setFullYear (t : option Z) (year : option Z) : option Z :=
  match t, year with
  | Some t, Some year =>
      let '(_, m, d) := civil_from_days (Day t) in
      TimeClip ((days_from_civil year m 1 + d - 1) * msPerDay + TimeWithinDay t)
  | _, _ => None
  end.

Definition day_name (w : Z) : jsstring :=
  nth (Z.to_nat w)
      [js "Sun"; js "Mon"; js "Tue"; js "Wed"; js "Thu"; js "Fri"; js "Sat"] [].

Definition month_name (m : Z) : jsstring :=
  nth (Z.to_nat (m - 1))
      [js "Jan"; js "Feb"; js "Mar"; js "Apr"; js "May"; js "Jun";
       js "Jul"; js "Aug"; js "Sep"; js "Oct"; js "Nov"; js "Dec"] [].

(** A natural number in decimal, padded with zeros to [width] digits. *)
Definition padded (width : nat) (n : Z) : jsstring :=
  let ds := Number.digits (Z.to_N n) in
  repeat 48%N (width - length ds) ++ ds.

(** [Www, DD Mon YYYY HH:mm:ss GMT]. *)
Definition toUTCString (t : option Z) : jsstring :=
  match t with
  | None => js "Invalid Date"
  | Some t =>
      let '(y, m, d) := civil_from_days (Day t) in
      let s := TimeWithinDay t / 1000 in
      day_name ((Day t + 4) mod 7) ++ js ", " ++ padded 2 d ++ js " "
      ++ month_name m ++ js " "
      ++ (if y <? 0 then js "-" else []) ++ padded 4 (Z.abs y) ++ js " "
      ++ padded 2 (s / 3600) ++ js ":" ++ padded 2 ((s / 60) mod 60) ++ js ":"
      ++ padded 2 (s mod 60) ++ js " GMT"
  end.

End Date.

(** ** URLs: the [application/x-www-form-urlencoded] serializer *)

Module URL.

Definition hex_upper (d : N) : N := if d <? 10 then 48 + d else 55 + d.

Definition is_unreserved (b : N) : bool :=
  ((48 <=? b) && (b <=? 57)) || ((65 <=? b) && (b <=? 90))
  || ((97 <=? b) && (b <=? 122))
  || (b =? 42) || (b =? 45) || (b =? 46) || (b =? 95).

Definition encode_byte (b : N) : jsstring :=
  if is_unreserved b then [b]
  else if b =? 32 then [43]
  else [37; hex_upper (b / 16); hex_upper (b mod 16)].

Definition urlencode (s : jsstring) : jsstring :=
  concat (map encode_byte (enc_encode s)).

Fixpoint serialize (params : list (jsstring * jsstring)) : jsstring :=
  match params with
  | [] => []
  | [(k, v)] => urlencode k ++ [61] ++ urlencode v
  | (k, v) :: t => urlencode k ++ [61] ++ urlencode v ++ [38] ++ serialize t
  end.

End URL.
(** ** Requests *)

Inductive FormDataEntryValue : Type :=
| FormString (s : jsstring)
| FormFile.

(** What the routes read from a request: the origin of its URL, its query
    parameters, its [Cookie] header and, for a POST, the outcome of
    [request.formData()]. *)
Record Request : Type := mkRequest
  { req_origin : jsstring;
    req_query : list (jsstring * jsstring);
    req_cookie : option jsstring;
    req_formData : result (list (jsstring * FormDataEntryValue)) }.

(** [c.req.query(name)]: the first value given for [name], if any. *)
Fixpoint lookup_first {A} (name : jsstring) (l : list (jsstring * A)) : option A :=
  match l with
  | [] => None
  | (k, v) :: t => if jsstring_eqb k name then Some v else lookup_first name t
  end.

(** A response: its status, the headers the source sets explicitly, and
    its body ([None] for a [null] body). *)
Record Response : Type := mkResponse
  { status : N;
    headers : list (jsstring * jsstring);
    body : option jsstring }.

(** Header names are compared without regard to case. *)
Definition ascii_lower (c : N) : N :=
  if (65 <=? c) && (c <=? 90) then c + 32 else c.

Definition header_is (name : string) (h : jsstring * jsstring) : bool :=
  jsstring_eqb (map ascii_lower (fst h)) (js name).

(** The values of the [Set-Cookie] headers of a response. *)
Definition set_cookie_values (r : Response) : list jsstring :=
  map snd (List.filter (header_is "set-cookie") (headers r)).

(** The attributes of a [Set-Cookie] directive as a browser reads them:
    what follows the first semicolon, cut at semicolons and trimmed. *)
Definition cookie_av (directive : jsstring) : list jsstring :=
  map String_trim (tl (String_split 59 directive)).

(** *** Header values

    [new Response(body, { headers })] fills a [Headers] object from the
    given record.  Each value is taken as a byte string, which only code
    units up to 0xFF have; HTTP whitespace is removed at both of its ends;
    a value that then contains NUL, a line feed or a carriage return is
    refused.  Both refusals are TypeErrors. *)

Definition is_http_whitespace (c : N) : bool :=
  (c =? 9) || (c =? 10) || (c =? 13) || (c =? 32).

Definition normalize_value (v : jsstring) : jsstring :=
  rev (drop_while is_http_whitespace (rev (drop_while is_http_whitespace v))).

Definition is_header_break (c : N) : bool :=
  (c =? 0) || (c =? 10) || (c =? 13).

Definition header_value (v : jsstring) : result jsstring :=
  if negb (Base64.latin1 v) then Throw TypeError
  else if existsb is_header_break (normalize_value v) then Throw TypeError
  else Ok (normalize_value v).

(** The headers a record of names and values gives, in its order.  The
    names the source writes are valid header names. *)
Fixpoint Headers_fill (init : list (jsstring * jsstring))
  : result (list (jsstring * jsstring)) :=
  match init with
  | [] => Ok []
  | (name, v) :: rest =>
      let! v' := header_value v in
      let! rest' := Headers_fill rest in
      Ok ((name, v') :: rest')
  end.

(** ** oauth-utils: signing *)

Module OAuthUtils.

Record CryptoKey : Type := mkKey { key_raw : list N }.

(** [crypto.subtle.importKey("raw", bytes, HMAC/SHA-256)]: WebCrypto refuses
    key material of length zero with a DataError. *)
Definition subtle_importKey (raw : list N) : result CryptoKey :=
  match raw with
  | [] => Throw DataError
  | _ => Ok (mkKey raw)
  end.

Definition subtle_sign (key : CryptoKey) (data : list N) : list N :=
  SHA256.hmac (key_raw key) data.

(** [crypto.subtle.verify] recomputes the tag and compares it with the
    signature, length included. *)
Definition subtle_verify (key : CryptoKey) (signature data : list N) : bool :=
  bool_decide (signature = SHA256.hmac (key_raw key) data).

Definition getSigningKey (encryptionKey : jsstring) : result CryptoKey :=
  subtle_importKey (enc_encode encryptionKey).

(** [b.toString(16).padStart(2, "0")] for a byte [b]. *)
Definition hex_of_byte (b : N) : jsstring := [hex_digit (b / 16); hex_digit (b mod 16)].

Definition signData (key : CryptoKey) (data : jsstring) : jsstring :=
  concat (map hex_of_byte (subtle_sign key (enc_encode data))).

(** The source applies [.map] to the result of [match] under a non-null
    assertion: when nothing matches, the call raises a TypeError. *)
Definition verifySignature (key : CryptoKey) (signatureHex data : jsstring)
  : result bool :=
  match String_match_1_2 signatureHex with
  | None => Throw TypeError
  | Some chunks =>
      let signatureBytes := map (fun byte => ToUint8 (parseInt16 byte)) chunks in
      Ok (subtle_verify key signatureBytes (enc_encode data))
  end.

(** The contract of the signing utility in terms of the secret: each use
    imports the key, as [clientIdAlreadyApproved] and
    [parseRedirectApproval] do. *)
Definition sign (secret message : jsstring) : result jsstring :=
  let! key := getSigningKey secret in Ok (signData key message).

Definition verify (secret signatureHex message : jsstring) : result bool :=
  let! key := getSigningKey secret in verifySignature key signatureHex message.

(** ** oauth-utils: cookies *)

(** [cookies[name] = v] on a plain object: the key [__proto__] is an accessor
    that ignores strings and creates no property. *)
Definition set_property (name v : jsstring) (cookies : gmap (list N) (list N))
  : gmap (list N) (list N) :=
  if jsstring_eqb name (js "__proto__") then cookies else <[name := v]> cookies.

(** One iteration of the [forEach] of [parseCookieHeader]. *)
Definition parseCookie (cookies : gmap (list N) (list N)) (cookie : jsstring)
  : result (gmap (list N) (list N)) :=
  match String_split 61 (String_trim cookie) with
  | name :: value :: _ =>
      match name, value with
      | _ :: _, _ :: _ =>
          let! v := decodeURIComponent value in
          Ok (set_property name v cookies)
      | _, _ => Ok cookies
      end
  | _ => Ok cookies
  end.

Fixpoint forEach_cookie (cookies : gmap (list N) (list N)) (l : list jsstring)
  : result (gmap (list N) (list N)) :=
  match l with
  | [] => Ok cookies
  | cookie :: rest =>
      let! cookies' := parseCookie cookies cookie in
      forEach_cookie cookies' rest
  end.

Definition parseCookieHeader (cookieHeader : jsstring)
  : result (gmap (list N) (list N)) :=
  forEach_cookie ∅ (String_split 59 cookieHeader).

Definition approved_name (clientId : jsstring) : jsstring :=
  js "client_" ++ clientId ++ js "_approved".
Definition signature_name (clientId : jsstring) : jsstring :=
  js "client_" ++ clientId ++ js "_signature".

(** A string is falsy exactly when it is empty; so is a missing value. *)
Definition truthy_string (v : option jsstring) : bool :=
  match v with
  | Some (_ :: _) => true
  | _ => false
  end.

Definition clientIdAlreadyApproved
    (request : Request) (clientId encryptionKey : jsstring) : result bool :=
  match req_cookie request with
  | None | Some [] => Ok false
  | Some cookieHeader =>
      let! cookies := parseCookieHeader cookieHeader in
      match cookies !! approved_name clientId,
            cookies !! signature_name clientId with
      | Some ((_ :: _) as approvalCookie), Some ((_ :: _) as signatureCookie) =>
          let! key := getSigningKey encryptionKey in
          let! isValid := verifySignature key signatureCookie approvalCookie in
          Ok (isValid && jsstring_eqb approvalCookie (js "true"))
      | _, _ => Ok false
      end
  end.


(** A POST request whose form has the given [state] field. *)
Definition approval_request (stateStr : jsstring) : Request :=
  mkRequest (js "https://mcp.example") [] None
            (Ok [(js "state", FormString stateStr)]).

(** A GET request that carries the given [Cookie] header. *)
Definition request_with_cookie (cookieHeader : jsstring) : Request :=
  mkRequest (js "https://mcp.example") [] (Some cookieHeader) (Throw TypeError).

(** ** oauth-utils: the approval form *)

(** [formData.get(name)]: the first entry of that name, or [null]. *)
Definition FormData_get (name : jsstring)
    (form : list (jsstring * FormDataEntryValue)) : option FormDataEntryValue :=
  lookup_first name form.

(** The [state] field of the submitted form when it is a string. *)
Definition form_state (request : Request) : option jsstring :=
  match req_formData request with
  | Ok formData =>
      match FormData_get (js "state") formData with
      | Some (FormString s) => Some s
      | _ => None
      end
  | Throw _ => None
  end.

(** [expires.setFullYear(expires.getFullYear() + 1)] on [new Date()] *)
Definition expires_after (now : Z) : option Z :=
  Date.setFullYear (Some now) (option_map (Z.add 1) (Date.getFullYear (Some now))).

(** [state.oauthReqInfo?.clientId] *)
Definition oauthReqInfo_clientId (state : json) : result (option json) :=
  let! oauthReqInfo := js_get state (js "oauthReqInfo") in
  match oauthReqInfo with
  | None | Some JNull => Ok None
  | Some info => js_get info (js "clientId")
  end.

Definition cookie_attributes (expires : option Z) : jsstring :=
  js "; Path=/; HttpOnly; Secure; SameSite=Strict; Expires="
  ++ Date.toUTCString expires.

(** The two directives of the approval, in the order of the source. *)
Definition approval_directives (clientId signature : jsstring) (expires : option Z)
  : list jsstring :=
  [ js "client_" ++ clientId ++ js "_approved=true" ++ cookie_attributes expires;
    js "client_" ++ clientId ++ js "_signature=" ++ signature
    ++ cookie_attributes expires ].

(** The attributes every directive of the approval ends with. *)
Definition approval_attributes (expires : option Z) : list jsstring :=
  [ js "Path=/"; js "HttpOnly"; js "Secure"; js "SameSite=Strict";
    js "Expires=" ++ Date.toUTCString expires ].

(** [Array.prototype.join(", ")] *)
Fixpoint join_comma_space (l : list jsstring) : jsstring :=
  match l with
  | [] => []
  | [x] => x
  | x :: t => x ++ js ", " ++ join_comma_space t
  end.

(** [now] is the time value [new Date()] reads. *)
Definition parseRedirectApproval (now : Z) (request : Request)
    (encryptionKey : jsstring)
  : result (json * list (jsstring * jsstring)) :=
  let! formData := req_formData request in
  match FormData_get (js "state") formData with
  | Some (FormString ((_ :: _) as stateStr)) =>
      let! state := JSON.parse stateStr in
      let! clientId := oauthReqInfo_clientId state in
      if negb (truthy clientId) then
        Throw (Error (js "Invalid OAuth request info in state"))
      else
        let! key := getSigningKey encryptionKey in
        let signature := signData key (js "true") in
        let expires := expires_after now in
        let! clientIdText := ToString clientId in
        let headers :=
          [(js "Set-Cookie",
            join_comma_space (approval_directives clientIdText signature expires))] in
        Ok (state, headers)
  | _ => Throw (Error (js "Invalid state in form data"))
  end.

(** What a successful call returns: the parsed state and one [Set-Cookie]
    header with the two directives for its client identifier. *)
Definition approval_granted (now : Z) (request : Request)
    (encryptionKey : jsstring) (state : json)
    (headers : list (jsstring * jsstring)) : Prop :=
  exists stateStr clientId clientIdText key,
    form_state request = Some stateStr
    /\ JSON.parse stateStr = Ok state
    /\ oauthReqInfo_clientId state = Ok clientId
    /\ truthy clientId = true
    /\ getSigningKey encryptionKey = Ok key
    /\ ToString clientId = Ok clientIdText
    /\ headers =
       [(js "Set-Cookie",
         join_comma_space
           (approval_directives clientIdText (signData key (js "true"))
              (expires_after now)))].

(** The state lacks [oauthReqInfo.clientId]: reading it raises, or gives a
    falsy value. *)
Definition lacks_clientId (state : json) : Prop :=
  forall clientId, oauthReqInfo_clientId state = Ok clientId ->
                   truthy clientId = false.

(** Why a call raises: no string-valued [state] field; a field that is no
    JSON text; a state without client identifier; or, with a client
    identifier, an empty key or an identifier that has no string form. *)
Definition approval_refused (request : Request) (encryptionKey : jsstring) : Prop :=
  form_state request = None
  \/ exists stateStr,
       form_state request = Some stateStr
       /\ ((exists e, JSON.parse stateStr = Throw e)
           \/ exists state,
                JSON.parse stateStr = Ok state
                /\ (lacks_clientId state
                    \/ exists clientId,
                         oauthReqInfo_clientId state = Ok clientId
                         /\ truthy clientId = true
                         /\ (encryptionKey = []
                             \/ exists e, ToString clientId = Throw e))).

(** The form state [{"oauthReqInfo":{"clientId":{"toString":1}}}]. *)
Definition object_clientId_state : jsstring :=
  JSON.stringify
    (JObj [(js "oauthReqInfo",
            JObj [(js "clientId",
                   JObj [(js "toString", JNum (Number.mkLiteral false 1 0))])])]).

(** [str.replace(/c/g, by)] for a single character [c]. *)
Definition replace_char (c : N) (by_ : jsstring) (str : jsstring) : jsstring :=
  concat (map (fun x => if x =? c then by_ else [x]) str).

Definition encodeHtml (str : jsstring) : jsstring :=
  replace_char 39 (js "&#x27;")
    (replace_char 34 (js "&quot;")
       (replace_char 62 (js "&gt;")
          (replace_char 60 (js "&lt;")
             (replace_char 38 (js "&amp;") str)))).

Record ServerInfo : Type := mkServerInfo
  { server_name : jsstring;
    server_description : jsstring;
    server_logo : jsstring }.

(** [client] is what [lookupClient] returned; [state] the dialog state. *)
Definition renderApprovalDialog (client : json) (server : ServerInfo) (state : json)
  : result Response :=
  let stateJson := JSON.stringify state in
  let! name := js_get client (js "name") in
  let! client_name := ToString name in
  let html :=
      js "
<!DOCTYPE html>
<html>
<head>
  <meta charset=" ++
      dq ++
      js "UTF-8" ++
      dq ++
      js ">
  <meta name=" ++
      dq ++
      js "viewport" ++
      dq ++
      js " content=" ++
      dq ++
      js "width=device-width, initial-scale=1.0" ++
      dq ++
      js ">
  <title>Approve Access</title>
  <style>
    body {
      font-family: -apple-system, BlinkMacSystemFont, 'Segoe UI', Roboto, sans-serif;
      background: #f5f5f5;
      margin: 0;
      padding: 20px;
      display: flex;
      justify-content: center;
      align-items: center;
      min-height: 100vh;
    }
    .container {
      background: white;
      border-radius: 8px;
      box-shadow: 0 2px 10px rgba(0,0,0,0.1);
      padding: 32px;
      max-width: 400px;
      width: 100%;
    }
    .logo {
      width: 64px;
      height: 64px;
      margin: 0 auto 16px;
      display: block;
    }
    h1 {
      text-align: center;
      font-size: 24px;
      margin: 0 0 24px;
      color: #333;
    }
    .description {
      text-align: center;
      color: #666;
      margin-bottom: 24px;
      line-height: 1.5;
    }
    .client-info {
      background: #f8f9fa;
      padding: 16px;
      border-radius: 6px;
      margin-bottom: 24px;
    }
    .client-info h3 {
      margin: 0 0 8px;
      font-size: 16px;
      color: #333;
    }
    .client-info p {
      margin: 0;
      color: #666;
      font-size: 14px;
    }
    .actions {
      display: flex;
      gap: 12px;
    }
    button {
      flex: 1;
      padding: 12px 24px;
      border-radius: 6px;
      font-size: 16px;
      font-weight: 500;
      cursor: pointer;
      border: none;
      transition: all 0.2s;
    }
    .approve {
      background: #4285f4;
      color: white;
    }
    .approve:hover {
      background: #357ae8;
    }
    .cancel {
      background: #f1f3f4;
      color: #5f6368;
    }
    .cancel:hover {
      background: #e8eaed;
    }
  </style>
</head>
<body>
  <div class=" ++
      dq ++
      js "container" ++
      dq ++
      js ">
    <img src=" ++
      dq ++
      server_logo server ++
      dq ++
      js " alt=" ++
      dq ++
      server_name server ++
      dq ++
      js " class=" ++
      dq ++
      js "logo" ++
      dq ++
      js ">
    <h1>Authorize " ++
      server_name server ++
      js "</h1>

    <p class=" ++
      dq ++
      js "description" ++
      dq ++
      js ">
      " ++
      client_name ++
      js " wants to access your " ++
      server_name server ++
      js " account
    </p>

    <div class=" ++
      dq ++
      js "client-info" ++
      dq ++
      js ">
      <h3>" ++
      client_name ++
      js "</h3>
      <p>" ++
      server_description server ++
      js "</p>
    </div>

    <form method=" ++
      dq ++
      js "POST" ++
      dq ++
      js " action=" ++
      dq ++
      js "/authorize" ++
      dq ++
      js ">
      <input type=" ++
      dq ++
      js "hidden" ++
      dq ++
      js " name=" ++
      dq ++
      js "state" ++
      dq ++
      js " value=" ++
      dq ++
      encodeHtml stateJson ++
      dq ++
      js ">
      <div class=" ++
      dq ++
      js "actions" ++
      dq ++
      js ">
        <button type=" ++
      dq ++
      js "button" ++
      dq ++
      js " class=" ++
      dq ++
      js "cancel" ++
      dq ++
      js " onclick=" ++
      dq ++
      js "window.close()" ++
      dq ++
      js ">Cancel</button>
        <button type=" ++
      dq ++
      js "submit" ++
      dq ++
      js " class=" ++
      dq ++
      js "approve" ++
      dq ++
      js ">Authorize</button>
      </div>
    </form>
  </div>
</body>
</html>" in
  Ok (mkResponse 200 [(js "Content-Type", js "text/html; charset=utf-8")]
                 (Some html)).

Record UpstreamParams : Type := mkUpstreamParams
  { client_id : jsstring;
    redirect_uri : jsstring;
    scope : jsstring;
    state : jsstring;
    upstream_url : jsstring }.

(** [upstream_url] carries no query of its own: the five parameters are
    appended in the order they are set. *)
Definition getUpstreamAuthorizeUrl (params : UpstreamParams) : jsstring :=
  upstream_url params ++ js "?"
  ++ URL.serialize
       [ (js "response_type", js "code");
         (js "client_id", client_id params);
         (js "redirect_uri", redirect_uri params);
         (js "scope", scope params);
         (js "state", state params) ].

End OAuthUtils.

(** ** allowed-users *)

Module AllowedUsers.

Definition ALLOWED_USERNAMES : gset (list N) :=
  {[ js "leonnwankwo"; js "leonchike" ]}.

(** [checkUserIsAllowed] for a given content of the module-level set. *)
Definition checkUserIsAllowed_for (allowed : gset (list N)) (username : jsstring)
  : bool :=
  if (size allowed =? 0)%nat then true
  else bool_decide (username ∈ allowed).

Definition checkUserIsAllowed (username : jsstring) : bool :=
  checkUserIsAllowed_for ALLOWED_USERNAMES username.

Definition denied_html_before : jsstring :=
    js "
<!DOCTYPE html>
<html>
<head>
  <meta charset=" ++
    dq ++
    js "UTF-8" ++
    dq ++
    js ">
  <meta name=" ++
    dq ++
    js "viewport" ++
    dq ++
    js " content=" ++
    dq ++
    js "width=device-width, initial-scale=1.0" ++
    dq ++
    js ">
  <title>Access Denied</title>
  <style>
    body {
      font-family: -apple-system, BlinkMacSystemFont, 'Segoe UI', Roboto, sans-serif;
      background: #f5f5f5;
      margin: 0;
      padding: 20px;
      display: flex;
      justify-content: center;
      align-items: center;
      min-height: 100vh;
    }
    .container {
      background: white;
      border-radius: 8px;
      box-shadow: 0 2px 10px rgba(0,0,0,0.1);
      padding: 32px;
      max-width: 400px;
      width: 100%;
      text-align: center;
    }
    .icon {
      width: 64px;
      height: 64px;
      margin: 0 auto 16px;
      background: #dc3545;
      border-radius: 50%;
      display: flex;
      align-items: center;
      justify-content: center;
      color: white;
      font-size: 32px;
    }
    h1 {
      font-size: 24px;
      margin: 0 0 16px;
      color: #333;
    }
    p {
      color: #666;
      line-height: 1.5;
      margin: 0 0 24px;
    }
    .username {
      font-family: monospace;
      background: #f8f9fa;
      padding: 4px 8px;
      border-radius: 4px;
    }
  </style>
</head>
<body>
  <div class=" ++
    dq ++
    js "container" ++
    dq ++
    js ">
    <div class=" ++
    dq ++
    js "icon" ++
    dq ++
    js ">" ++
    [215] ++
    js "</div>
    <h1>Access Denied</h1>
    <p>
      The user <span class=" ++
    dq ++
    js "username" ++
    dq ++
    js ">".

Definition denied_html_after : jsstring :=
    js "</span> is not authorized to access this MCP server.
    </p>
    <p>
      Please contact the server administrator to request access.
    </p>
  </div>
</body>
</html>".

Definition getAuthDeniedResponse (username : jsstring) : Response :=
  let html := denied_html_before ++ username ++ denied_html_after in
  mkResponse 403 [(js "Content-Type", js "text/html; charset=utf-8")] (Some html).

End AllowedUsers.

(** ** google-handler *)

Module GoogleHandler.
Import OAuthUtils AllowedUsers.

(** The bindings the routes read. *)
Record Env : Type := mkEnv
  { GOOGLE_CLIENT_ID : jsstring;
    GOOGLE_CLIENT_SECRET : jsstring;
    COOKIE_ENCRYPTION_KEY : jsstring }.

(** [AuthRequest] of the OAuth provider library: what [parseAuthRequest]
    returns.  Optional members that are [undefined] are [None]. *)
Record AuthRequest : Type := mkAuthRequest
  { responseType : jsstring;
    clientId : jsstring;
    redirectUri : jsstring;
    scope : list jsstring;
    state : jsstring;
    codeChallenge : option jsstring;
    codeChallengeMethod : option jsstring }.

Definition optional_member (k : string) (v : option jsstring)
  : list (jsstring * json) :=
  match v with
  | Some s => [(js k, JStr s)]
  | None => []
  end.

(** The object an [AuthRequest] is, as a JSON value. *)
Definition AuthRequest_json (r : AuthRequest) : json :=
  JObj ([ (js "responseType", JStr (responseType r));
          (js "clientId", JStr (clientId r));
          (js "redirectUri", JStr (redirectUri r));
          (js "scope", JArr (map JStr (scope r)));
          (js "state", JStr (state r)) ]
        ++ optional_member "codeChallenge" (codeChallenge r)
        ++ optional_member "codeChallengeMethod" (codeChallengeMethod r)).

Definition latin1_optional (v : option jsstring) : bool :=
  match v with
  | Some s => Base64.latin1 s
  | None => true
  end.

(** Every string of the request has only code units up to 0xFF. *)
Definition latin1_request (r : AuthRequest) : bool :=
  Base64.latin1 (responseType r) && Base64.latin1 (clientId r)
  && Base64.latin1 (redirectUri r) && forallb Base64.latin1 (scope r)
  && Base64.latin1 (state r) && latin1_optional (codeChallenge r)
  && latin1_optional (codeChallengeMethod r).

(** The props stored on the token. *)
Record Props : Type := mkProps
  { accessToken : option json;
    email : jsstring;
    login : jsstring;
    name : json }.

Record CompleteAuthorizationOptions : Type := mkCompleteAuthorization
  { metadata_label : json;
    props : Props;
    request : json;
    granted_scope : option json;
    userId : jsstring }.

(** What a [fetch] resolves to. *)
Record FetchResponse : Type := mkFetchResponse
  { fetch_status : N;
    fetch_body : jsstring }.

Definition fetch_ok (r : FetchResponse) : bool :=
  (200 <=? fetch_status r) && (fetch_status r <=? 299).

Definition fetch_json (r : FetchResponse) : result json :=
  JSON.parse (fetch_body r).

(** The collaborators of the routes: the OAuth provider, the two upstream
    endpoints, the clock, and the URL parser of the platform.  [URL_href s]
    is the serialization of [s] parsed as an absolute URL, [None] when [s]
    does not parse. *)
Record World : Type := mkWorld
  { parseAuthRequest : Request -> result AuthRequest;
    lookupClient : jsstring -> result json;
    completeAuthorization : CompleteAuthorizationOptions -> result jsstring;
    fetch_token : list (jsstring * jsstring) -> result FetchResponse;
    fetch_userinfo : jsstring -> result FetchResponse;
    Date_now : Z;
    URL_href : jsstring -> option jsstring }.

(** What a route does besides answering. *)
Inductive Event : Type :=
| TokenExchange (form : list (jsstring * jsstring))
| UserInfoFetch (authorization : jsstring)
| CompleteAuthorization (options : CompleteAuthorizationOptions)
| ConsoleError (message : jsstring).

(** A route computes a trace of events and a response, or a fault. *)
Definition Eff (A : Type) : Type := list Event * result A.

Definition ret {A} (a : A) : Eff A := ([], Ok a).
Definition lift {A} (r : result A) : Eff A := ([], r).
Definition emit (ev : Event) : Eff unit := ([ev], Ok tt).
Definition bindE {A B} (m : Eff A) (k : A -> Eff B) : Eff B :=
  match m with
  | (t, Ok a) => let '(t', r) := k a in (t ++ t', r)
  | (t, Throw e) => (t, Throw e)
  end.

Notation "'let*' x ':=' m 'in' k" := (bindE m (fun x => k))
  (at level 10, x name, m at level 100, k at level 200).

(** [c.text(text, status)] *)
Definition c_text (text : jsstring) (st : N) : Response :=
  mkResponse st [] (Some text).

(** [btoa(JSON.stringify(oauthReqInfo))] *)
Definition encode_state (oauthReqInfo : json) : result jsstring :=
  Base64.btoa (JSON.stringify oauthReqInfo).

(** [JSON.parse(atob(state))] *)
Definition decode_state (state : jsstring) : result json :=
  let! text := Base64.atob state in JSON.parse text.

Definition callback_url (request : Request) : jsstring :=
  req_origin request ++ js "/callback".

(** The [location] is computed first; then [new Response] fills its
    headers, which refuses a value of [headers] that is no header value.
    The location is the serialization of a URL, which is a header value as
    it stands. *)
Definition redirectToGoogle (request : Request) (oauthReqInfo : json) (env : Env)
    (headers : list (jsstring * jsstring)) : result Response :=
  let! state := encode_state oauthReqInfo in
  let! filled := Headers_fill headers in
  Ok (mkResponse 302
        (filled ++
         [(js "location",
           getUpstreamAuthorizeUrl
             (mkUpstreamParams
                (GOOGLE_CLIENT_ID env)
                (callback_url request)
                (js "openid email profile")
                state
                (js "https://accounts.google.com/o/oauth2/v2/auth")))])
        None).

Definition server_info : ServerInfo :=
  mkServerInfo
    (js "SimBrief MCP Server")
    (js "This is a SimBrief Flight Planning MCP Server using Google for authentication.")
    (js "https://www.gstatic.com/images/branding/product/2x/googleg_96dp.png").

(** [app.get("/authorize")] *)
Definition get_authorize (w : World) (env : Env) (req : Request) : Eff Response :=
  let* oauthReqInfo := lift (parseAuthRequest w req) in
  match clientId oauthReqInfo with
  | [] => ret (c_text (js "Invalid request") 400)
  | _ =>
      let* approved :=
        lift (clientIdAlreadyApproved req (clientId oauthReqInfo)
                (COOKIE_ENCRYPTION_KEY env)) in
      if approved : bool then
        lift (redirectToGoogle req (AuthRequest_json oauthReqInfo) env [])
      else
        let* client := lift (lookupClient w (clientId oauthReqInfo)) in
        lift (renderApprovalDialog client server_info
                (JObj [(js "oauthReqInfo", AuthRequest_json oauthReqInfo)]))
  end.

(** [app.post("/authorize")] *)
Definition post_authorize (w : World) (env : Env) (req : Request) : Eff Response :=
  let* parsed := lift (parseRedirectApproval (Date_now w) req
                         (COOKIE_ENCRYPTION_KEY env)) in
  let* oauthReqInfo := lift (js_get (fst parsed) (js "oauthReqInfo")) in
  if negb (truthy oauthReqInfo) then ret (c_text (js "Invalid request") 400)
  else
    match oauthReqInfo with
    | Some info => lift (redirectToGoogle req info env (snd parsed))
    | None => ret (c_text (js "Invalid request") 400)
    end.

Record TokenParams : Type := mkTokenParams
  { token_client_id : jsstring;
    token_client_secret : jsstring;
    token_code : option jsstring;
    token_redirect_uri : jsstring }.

(** The body of the token request. *)
Definition token_form (p : TokenParams) (code : jsstring)
  : list (jsstring * jsstring) :=
  [ (js "code", code);
    (js "client_id", token_client_id p);
    (js "client_secret", token_client_secret p);
    (js "redirect_uri", token_redirect_uri p);
    (js "grant_type", js "authorization_code") ].

(** The access token, or the response that reports the failure. *)
Definition fetchGoogleAccessToken (w : World) (p : TokenParams)
  : Eff (option json + Response) :=
  match token_code p with
  | None | Some [] =>
      ret (inr (mkResponse 400 [] (Some (js "Missing authorization code"))))
  | Some code =>
      let form := token_form p code in
      let* _ := emit (TokenExchange form) in
      let* tokenResponse := lift (fetch_token w form) in
      if negb (fetch_ok tokenResponse) then
        let* _ := emit (ConsoleError (js "Failed to exchange token with Google")) in
        ret (inr (mkResponse 500 []
                    (Some (js "Failed to exchange authorization code"))))
      else
        let* tokenData := lift (fetch_json tokenResponse) in
        let* access_token := lift (js_get tokenData (js "access_token")) in
        ret (inl access_token)
  end.

(** [userData.email.split('@')[0]]: only a string has [split]. *)
Definition login_of_email (email : option json) : result (jsstring * jsstring) :=
  match email with
  | Some (JStr s) => Ok (s, hd [] (String_split 64 s))
  | _ => Throw TypeError
  end.

(** [Response.redirect(url)]: the URL is parsed, a TypeError when it does
    not parse; the [Location] is its serialization, the status 302. *)
Definition Response_redirect (w : World) (url : jsstring) : result Response :=
  match URL_href w url with
  | Some href => Ok (mkResponse 302 [(js "Location", href)] None)
  | None => Throw TypeError
  end.

Definition token_params (env : Env) (req : Request) : TokenParams :=
  mkTokenParams (GOOGLE_CLIENT_ID env) (GOOGLE_CLIENT_SECRET env)
    (lookup_first (js "code") (req_query req)) (callback_url req).

(** The [state] parameter as [atob] receives it. *)
Definition state_param (req : Request) : jsstring :=
  default (js "undefined") (lookup_first (js "state") (req_query req)).

(** [app.get("/callback")].  A missing [state] parameter reaches [atob] as
    [undefined], which it reads as the string "undefined". *)
Definition get_callback (w : World) (env : Env) (req : Request) : Eff Response :=
  let* oauthReqInfo := lift (decode_state (state_param req)) in
  let* clientId := lift (js_get oauthReqInfo (js "clientId")) in
  if negb (truthy clientId) then ret (c_text (js "Invalid state") 400)
  else
    let* exchanged :=
      fetchGoogleAccessToken w (token_params env req) in
    match exchanged with
    | inr errResponse => ret errResponse
    | inl accessToken =>
        let* bearer := lift (ToString accessToken) in
        let authorization := js "Bearer " ++ bearer in
        let* _ := emit (UserInfoFetch authorization) in
        let* userResponse := lift (fetch_userinfo w authorization) in
        if negb (fetch_ok userResponse) then
          let* _ := emit (ConsoleError (js "Failed to fetch user info from Google")) in
          ret (mkResponse 500 [] (Some (js "Failed to fetch user info")))
        else
          let* userData := lift (fetch_json userResponse) in
          let* email := lift (js_get userData (js "email")) in
          let* identity := lift (login_of_email email) in
          let login := snd identity in
          if negb (checkUserIsAllowed login) then ret (getAuthDeniedResponse login)
          else
            let* name := lift (js_get userData (js "name")) in
            let label := if truthy name then default JNull name else JStr login in
            let* scope := lift (js_get oauthReqInfo (js "scope")) in
            let options :=
              mkCompleteAuthorization label
                (mkProps accessToken (fst identity) login label)
                oauthReqInfo scope (fst identity) in
            let* _ := emit (CompleteAuthorization options) in
            let* redirectTo := lift (completeAuthorization w options) in
            lift (Response_redirect w redirectTo)
    end.

(** *** The two stages of the callback *)

(** What the callback knows when it reaches the access policy. *)
Record Identity : Type := mkIdentity
  { id_request : json;
    id_accessToken : option json;
    id_userData : json;
    id_email : jsstring;
    id_login : jsstring }.

(** The callback up to the policy check: the identity, or the response
    that ended the flow before. *)
Definition callback_identity (w : World) (env : Env) (req : Request)
  : Eff (Identity + Response) :=
  let* oauthReqInfo := lift (decode_state (state_param req)) in
  let* clientId := lift (js_get oauthReqInfo (js "clientId")) in
  if negb (truthy clientId) then ret (inr (c_text (js "Invalid state") 400))
  else
    let* exchanged := fetchGoogleAccessToken w (token_params env req) in
    match exchanged with
    | inr errResponse => ret (inr errResponse)
    | inl accessToken =>
        let* bearer := lift (ToString accessToken) in
        let authorization := js "Bearer " ++ bearer in
        let* _ := emit (UserInfoFetch authorization) in
        let* userResponse := lift (fetch_userinfo w authorization) in
        if negb (fetch_ok userResponse) then
          let* _ := emit (ConsoleError (js "Failed to fetch user info from Google")) in
          ret (inr (mkResponse 500 [] (Some (js "Failed to fetch user info"))))
        else
          let* userData := lift (fetch_json userResponse) in
          let* email := lift (js_get userData (js "email")) in
          let* identity := lift (login_of_email email) in
          ret (inl (mkIdentity oauthReqInfo accessToken userData
                      (fst identity) (snd identity)))
    end.

(** The callback from the policy check on. *)
Definition callback_complete (w : World) (i : Identity) : Eff Response :=
  if negb (checkUserIsAllowed (id_login i)) then
    ret (getAuthDeniedResponse (id_login i))
  else
    let* name := lift (js_get (id_userData i) (js "name")) in
    let label := if truthy name then default JNull name else JStr (id_login i) in
    let* scope := lift (js_get (id_request i) (js "scope")) in
    let options :=
      mkCompleteAuthorization label
        (mkProps (id_accessToken i) (id_email i) (id_login i) label)
        (id_request i) scope (id_email i) in
    let* _ := emit (CompleteAuthorization options) in
    let* redirectTo := lift (completeAuthorization w options) in
    lift (Response_redirect w redirectTo).

Definition is_completion (ev : Event) : bool :=
  match ev with
  | CompleteAuthorization _ => true
  | _ => false
  end.

(** What holds of the outcome of a route when it does not raise. *)
Definition answers {A} (P : A -> Prop) (m : Eff A) : Prop :=
  match snd m with
  | Ok a => P a
  | Throw _ => True
  end.

(** The response sets no cookie. *)
Definition no_cookie (r : Response) : Prop := set_cookie_values r = [].

(** A trace in which no authorization is completed. *)
Definition quiet (trace : list Event) : Prop :=
  forallb (fun ev => negb (is_completion ev)) trace = true.

(** *** Sample requests and collaborators *)

Definition sample_env : Env :=
  mkEnv (js "google-client-id") (js "google-client-secret") (js "secret").

(** A callback with the given [state] and [code] parameters. *)
Definition callback_request (state code : option jsstring) : Request :=
  mkRequest (js "https://mcp.example")
    (match state with Some s => [(js "state", s)] | None => [] end
     ++ match code with Some c => [(js "code", c)] | None => [] end)
    None (Throw TypeError).

(** The URL parser on the URLs of the samples: the callback of the sample
    client is its own serialization, a bare origin gains its path; any
    other string is taken as one that does not parse. *)
Definition sample_href (url : jsstring) : option jsstring :=
  if jsstring_eqb url (js "https://client.example/cb?code=minted")
  then Some url
  else if jsstring_eqb url (js "https://client.example")
       then Some (js "https://client.example/")
       else None.

(** Collaborators whose upstream endpoints answer as given. *)
Definition world_with (token userinfo : result FetchResponse) : World :=
  mkWorld (fun _ => Throw TypeError) (fun _ => Ok JNull)
          (fun _ => Ok (js "https://client.example/cb?code=minted"))
          (fun _ => token) (fun _ => userinfo) 1793655000123 sample_href.

(** An authorization request of a client, with a correlation state. *)
Definition sample_request (state : jsstring) : AuthRequest :=
  mkAuthRequest (js "code") (js "abc") (js "https://client.example/cb")
    [js "read"; js "write"] state (Some (js "E9Melhoa2OwvFrEMTJguCH"))
    (Some (js "S256")).

(** A user-info document for the address [eve@example.com]. *)
Definition eve_userinfo : jsstring :=
  js "{ " ++ dq ++ js "email" ++ dq ++ js ": "
  ++ dq ++ js "eve@example.com" ++ dq ++ js " }".

End GoogleHandler.

(** ** Vocabulary for further properties *)

(** A lowercase hexadecimal digit. *)
Definition is_lower_hex (c : N) : bool :=
  ((48 <=? c) && (c <=? 57)) || ((97 <=? c) && (c <=? 102)).

(** The name and value of a [Set-Cookie] directive: what precedes its first
    semicolon. *)
Definition cookie_pair (directive : jsstring) : jsstring :=
  hd [] (String_split 59 directive).

(** The [Cookie] header a browser sends for stored cookies: their pairs,
    separated by a semicolon and a space. *)
Fixpoint cookie_jar (pairs : list jsstring) : jsstring :=
  match pairs with
  | [] => []
  | [p] => p
  | p :: rest => p ++ js "; " ++ cookie_jar rest
  end.

(** What [encodeHtml] puts in place of one code unit. *)
Definition html_entity (c : N) : jsstring :=
  if c =? 38 then js "&amp;"
  else if c =? 60 then js "&lt;"
  else if c =? 62 then js "&gt;"
  else if c =? 34 then js "&quot;"
  else if c =? 39 then js "&#x27;"
  else [c].

(** A code unit that ends a tag or an attribute value. *)
Definition is_markup (c : N) : bool :=
  (c =? 60) || (c =? 62) || (c =? 34) || (c =? 39).

(** Vocabulary for the routes. *)
Module Routes.
Import GoogleHandler.

(** An event that is a call to a collaborator, not a line of the log. *)
Definition is_call (ev : Event) : bool :=
  match ev with
  | ConsoleError _ => false
  | _ => true
  end.

(** The calls of a trace, in the order they are made. *)
Definition calls (trace : list Event) : list Event :=
  List.filter is_call trace.

(** Collaborators for the authorization routes: the provider reads the
    given request from any HTTP request and answers any client lookup
    with [client]. *)
Definition provider_with (r : AuthRequest) (client : json) : World :=
  mkWorld (fun _ => Ok r) (fun _ => Ok client)
          (fun _ => Ok (js "https://client.example/cb?code=minted"))
          (fun _ => Throw TypeError) (fun _ => Throw TypeError) 1793655000123
          sample_href.

(** A token document with the access token [ya29.a0]. *)
Definition token_document : jsstring :=
  js "{" ++ dq ++ js "access_token" ++ dq ++ js ":"
  ++ dq ++ js "ya29.a0" ++ dq ++ js "}".

(** A user-info document for [leonchike@example.org], named Leon. *)
Definition leon_userinfo : jsstring :=
  js "{" ++ dq ++ js "email" ++ dq ++ js ":"
  ++ dq ++ js "leonchike@example.org" ++ dq ++ js ","
  ++ dq ++ js "name" ++ dq ++ js ":" ++ dq ++ js "Leon" ++ dq ++ js "}".

(** The three answers of [GET /authorize]: the refusal, the redirect to
    the upstream provider, and the approval dialog. *)
Definition authorize_answer (r : Response) : Prop :=
  (status r = 400 /\ headers r = [] /\ body r = Some (js "Invalid request"))
  \/ (status r = 302 /\ body r = None
      /\ exists location, headers r = [(js "location", location)])
  \/ (status r = 200
      /\ headers r = [(js "Content-Type", js "text/html; charset=utf-8")]
      /\ exists html, body r = Some html).


End Routes.

(** A code unit a header value may hold anywhere: a byte other than NUL,
    line feed and carriage return. *)
Definition is_header_unit (c : N) : bool :=
  (c <=? 255) && negb (is_header_break c).

(** A printable ASCII character, the space included. *)
Definition is_printable (c : N) : bool := (32 <=? c) && (c <=? 126).

(** A visible ASCII character: printable and not the space. *)
Definition is_visible (c : N) : bool := (33 <=? c) && (c <=? 126).

(** A string of UTF-16 code units, as every JavaScript string is. *)
Definition code_units (s : jsstring) : bool := forallb (fun c => c <? 65536) s.
(** ** Facts about the platform model *)

Lemma bind_Ok {A B} (r : result A) (k : A -> result B) (b : B) :
  bind r k = Ok b <-> exists a, r = Ok a /\ k a = Ok b.
Proof.
  destruct r as [a|e]; simpl; split.
  - intros H. exists a. auto.
  - intros (a' & Ha & Hk). congruence.
  - discriminate.
  - intros (a' & Ha & _). discriminate.
Qed.

Lemma jsstring_eqb_eq (a b : jsstring) : jsstring_eqb a b = true <-> a = b.
Proof. unfold jsstring_eqb. apply bool_decide_eq_true. Qed.

Section Bytes.

Definition is_byte (b : N) : Prop := b < 256.

Lemma be_bytes_are_bytes (n : nat) (x : N) : Forall is_byte (SHA256.be_bytes n x).
Proof.
  unfold SHA256.be_bytes. apply Forall_forall. intros b Hb.
  apply list_elem_of_In, in_map_iff in Hb. destruct Hb as (i & <- & _).
  unfold is_byte. apply N.mod_lt. discriminate.
Qed.

Lemma sha256_length (msg : list N) : length (SHA256.sha256 msg) = 32%nat.
Proof. reflexivity. Qed.

Lemma sha256_bytes (msg : list N) : Forall is_byte (SHA256.sha256 msg).
Proof.
  unfold SHA256.sha256, SHA256.digest_bytes.
  repeat (apply Forall_app; split); apply be_bytes_are_bytes.
Qed.

Lemma hmac_length (key msg : list N) : length (SHA256.hmac key msg) = 32%nat.
Proof. apply sha256_length. Qed.

Lemma hmac_bytes (key msg : list N) : Forall is_byte (SHA256.hmac key msg).
Proof. apply sha256_bytes. Qed.

(** A key and the same key followed by a zero byte fill the same block. *)
Lemma key_block_zero_extend (key : list N) :
  (length key < 64)%nat ->
  SHA256.key_block (key ++ [0]) = SHA256.key_block key.
Proof.
  intros Hlen. unfold SHA256.key_block.
  rewrite length_app. simpl length.
  destruct (Nat.ltb_spec 64 (length key + 1)) as [H|H]; [lia|].
  destruct (Nat.ltb_spec 64 (length key)) as [H'|H']; [lia|].
  rewrite length_app. simpl length. rewrite <- app_assoc. f_equal.
  replace (64 - length key)%nat with (S (64 - (length key + 1))) by lia.
  reflexivity.
Qed.

Lemma hmac_zero_extend (key msg : list N) :
  (length key < 64)%nat ->
  SHA256.hmac (key ++ [0]) msg = SHA256.hmac key msg.
Proof.
  intros Hlen. unfold SHA256.hmac. rewrite key_block_zero_extend by exact Hlen.
  reflexivity.
Qed.

End Bytes.

Lemma utf8_of_code_point_nonempty (cp : N) : utf8_of_code_point cp <> [].
Proof.
  unfold utf8_of_code_point.
  repeat match goal with |- context [if ?c then _ else _] => destruct c end;
    discriminate.
Qed.

Lemma utf8_of_code_point_app_nonempty (cp : N) (r : list N) :
  utf8_of_code_point cp ++ r <> [].
Proof.
  intros H. apply app_eq_nil in H. destruct H as [H _].
  exact (utf8_of_code_point_nonempty _ H).
Qed.

Lemma enc_encode_nonempty (s : jsstring) : s <> [] -> enc_encode s <> [].
Proof.
  destruct s as [|c t]; [congruence|]. intros _.
  cbn [enc_encode].
  destruct (is_high_surrogate c).
  - destruct t as [|d t'].
    + apply utf8_of_code_point_nonempty.
    + destruct (is_low_surrogate d); apply utf8_of_code_point_app_nonempty.
  - destruct (is_low_surrogate c); apply utf8_of_code_point_app_nonempty.
Qed.

(** A property of bytes can be checked on the 256 of them. *)
Lemma byte_cases (P : N -> bool) :
  forallb P (map N.of_nat (seq 0 256)) = true ->
  forall b, b < 256 -> P b = true.
Proof.
  intros H b Hb. rewrite forallb_forall in H. apply H.
  apply in_map_iff. exists (N.to_nat b). split; [apply N2Nat.id|].
  apply in_seq. lia.
Qed.

Module HexFacts.
Import OAuthUtils.

Lemma parse_hex_of_byte (b : N) :
  b < 256 -> ToUint8 (parseInt16 (hex_of_byte b)) = b.
Proof.
  intros Hb.
  apply N.eqb_eq.
  apply (byte_cases (fun b => ToUint8 (parseInt16 (hex_of_byte b)) =? b));
    [vm_compute; reflexivity | exact Hb].
Qed.

Lemma hex_of_byte_no_terminator (b : N) :
  b < 256 ->
  forallb (fun c => negb (is_line_terminator c)) (hex_of_byte b) = true.
Proof.
  intros Hb.
  apply (byte_cases
           (fun b => forallb (fun c => negb (is_line_terminator c)) (hex_of_byte b)));
    [vm_compute; reflexivity | exact Hb].
Qed.

Lemma match_chunks_hex (l : list N) :
  Forall is_byte l ->
  match_chunks (concat (map hex_of_byte l)) = map hex_of_byte l.
Proof.
  induction 1 as [|b l Hb _ IH]; [reflexivity|].
  pose proof (hex_of_byte_no_terminator b Hb) as Hnt.
  cbn [map concat]. unfold hex_of_byte in *.
  cbn [forallb] in Hnt.
  apply andb_prop in Hnt as [H1 Hnt]. apply andb_prop in Hnt as [H2 _].
  apply negb_true_iff in H1, H2.
  cbn [app match_chunks]. rewrite H1, H2. f_equal. exact IH.
Qed.

Lemma parse_chunks_hex (l : list N) :
  Forall is_byte l ->
  map (fun byte => ToUint8 (parseInt16 byte)) (map hex_of_byte l) = l.
Proof.
  induction 1 as [|b l Hb _ IH]; [reflexivity|].
  cbn [map]. rewrite parse_hex_of_byte by exact Hb. f_equal. exact IH.
Qed.

(** Verifying reads back the bytes that a hexadecimal rendering wrote. *)
Lemma verifySignature_hex (k : CryptoKey) (l : list N) (m : jsstring) :
  Forall is_byte l -> l <> [] ->
  verifySignature k (concat (map hex_of_byte l)) m
  = Ok (bool_decide (l = SHA256.hmac (key_raw k) (enc_encode m))).
Proof.
  intros Hl Hne.
  unfold verifySignature, String_match_1_2, subtle_verify.
  rewrite match_chunks_hex by exact Hl.
  destruct (map hex_of_byte l) as [|c cs] eqn:E.
  - destruct l; [congruence | discriminate E].
  - rewrite <- E, parse_chunks_hex by exact Hl. reflexivity.
Qed.

Lemma verifySignature_signData (k1 k2 : CryptoKey) (m : jsstring) :
  verifySignature k2 (signData k1 m) m
  = Ok (bool_decide (SHA256.hmac (key_raw k1) (enc_encode m)
                     = SHA256.hmac (key_raw k2) (enc_encode m))).
Proof.
  unfold signData, subtle_sign.
  apply verifySignature_hex; [apply hmac_bytes|].
  intros H. pose proof (hmac_length (key_raw k1) (enc_encode m)) as Hlen.
  rewrite H in Hlen. discriminate Hlen.
Qed.

End HexFacts.

(** ** Base64: decoding what was encoded *)

Module Base64Facts.
Import Base64.

Lemma list_ind3 {A} (P : list A -> Prop) :
  P [] -> (forall a, P [a]) -> (forall a b, P [a; b]) ->
  (forall a b c t, P t -> P (a :: b :: c :: t)) ->
  forall l, P l.
Proof.
  intros H0 H1 H2 H3.
  fix IH 1.
  intros [|a [|b [|c t]]]; [exact H0 | apply H1 | apply H2 | apply H3, IH].
Qed.

Lemma encode_sextets (bs : list N) :
  encode bs = map char_of_value (sextets bs) ++ padding bs.
Proof.
  induction bs as [| a | a b | a b c t IH] using list_ind3; try reflexivity.
  cbn [encode sextets padding]. rewrite IH, map_app, <- app_assoc. reflexivity.
Qed.

Lemma char_of_value_plain (v : N) :
  is_ascii_whitespace (char_of_value v) = false /\ char_of_value v <> 61.
Proof.
  unfold char_of_value.
  destruct (N.ltb_spec v 26);
    [|destruct (N.ltb_spec v 52);
      [|destruct (N.ltb_spec v 62); [|destruct (N.eqb_spec v 62)]]];
    (split;
     [ unfold is_ascii_whitespace;
       repeat (rewrite (proj2 (N.eqb_neq _ _)) by lia); reflexivity
     | lia ]).
Qed.

Lemma value_of_char_of_value (v : N) :
  v < 64 -> value_of_char (char_of_value v) = Some v.
Proof.
  intros Hv.
  assert (H : forallb (fun v => match value_of_char (char_of_value v) with
                                | Some v' => v' =? v
                                | None => false
                                end) (map N.of_nat (seq 0 64)) = true)
    by (vm_compute; reflexivity).
  rewrite forallb_forall in H.
  specialize (H v). destruct (value_of_char (char_of_value v)) as [v'|].
  - f_equal. apply N.eqb_eq, H. apply in_map_iff. exists (N.to_nat v).
    split; [apply N2Nat.id|]. apply in_seq. lia.
  - discriminate H. apply in_map_iff. exists (N.to_nat v).
    split; [apply N2Nat.id|]. apply in_seq. lia.
Qed.

Lemma latin1_cons (c : N) (s : jsstring) :
  latin1 (c :: s) = true <-> c < 256 /\ latin1 s = true.
Proof.
  unfold latin1. cbn [forallb]. rewrite andb_true_iff, N.leb_le.
  intuition lia.
Qed.

Ltac div_mod_lia := zify; Z.to_euclidean_division_equations; lia.

Lemma sextets_range (bs : list N) :
  latin1 bs = true -> Forall (fun v => v < 64) (sextets bs).
Proof.
  induction bs as [| a | a b | a b c t IH] using list_ind3; intros H.
  - constructor.
  - apply latin1_cons in H as [Ha _]. cbn [sextets].
    repeat constructor; div_mod_lia.
  - apply latin1_cons in H as [Ha H]. apply latin1_cons in H as [Hb _].
    cbn [sextets]. repeat constructor; div_mod_lia.
  - apply latin1_cons in H as [Ha H]. apply latin1_cons in H as [Hb H].
    apply latin1_cons in H as [Hc H].
    cbn [sextets app]. repeat (constructor; [div_mod_lia|]). exact (IH H).
Qed.

Lemma decode_sextets (bs : list N) :
  latin1 bs = true -> decode_values (sextets bs) = bs.
Proof.
  induction bs as [| a | a b | a b c t IH] using list_ind3; intros H.
  - reflexivity.
  - apply latin1_cons in H as [Ha _]. cbn [sextets decode_values].
    f_equal. div_mod_lia.
  - apply latin1_cons in H as [Ha H]. apply latin1_cons in H as [Hb _].
    cbn [sextets decode_values]. f_equal; [|f_equal]; div_mod_lia.
  - apply latin1_cons in H as [Ha H]. apply latin1_cons in H as [Hb H].
    apply latin1_cons in H as [Hc H].
    cbn [sextets decode_values app]. rewrite (IH H).
    f_equal; [|f_equal; [|f_equal]]; div_mod_lia.
Qed.

Lemma values_chars (vs : list N) :
  Forall (fun v => v < 64) vs -> values (map char_of_value vs) = Some vs.
Proof.
  induction 1 as [|v vs Hv _ IH]; [reflexivity|].
  cbn [map values]. rewrite (value_of_char_of_value v Hv), IH. reflexivity.
Qed.

Lemma filter_chars (vs : list N) (k : nat) :
  List.filter (fun c => negb (is_ascii_whitespace c))
              (map char_of_value vs ++ repeat 61 k)
  = map char_of_value vs ++ repeat 61 k.
Proof.
  induction vs as [|v vs IH]; cbn [map app List.filter].
  - induction k as [|k IHk]; [reflexivity|]. cbn [repeat List.filter].
    change (negb (is_ascii_whitespace 61)) with true. cbn iota.
    rewrite IHk. reflexivity.
  - destruct (char_of_value_plain v) as [-> _]. cbn [negb]. rewrite IH.
    reflexivity.
Qed.

Lemma padding_repeat (bs : list N) :
  padding bs = repeat 61 (length (padding bs))
  /\ ((length (sextets bs) + length (padding bs)) mod 4 = 0)%nat
  /\ (length (padding bs) <= 2)%nat
  /\ (length (sextets bs) mod 4 <> 1)%nat.
Proof.
  induction bs as [| a | a b | a b c t IH] using list_ind3;
    try (cbn; repeat split; lia).
  cbn [padding sextets]. destruct IH as (IH1 & IH2 & IH3 & IH4).
  rewrite length_app. cbn [length].
  split; [exact IH1|]. split; [|split; [exact IH3|]].
  - replace (4 + length (sextets t) + length (padding t))%nat
      with (length (sextets t) + length (padding t) + 1 * 4)%nat by lia.
    rewrite Nat.Div0.mod_add. exact IH2.
  - replace (4 + length (sextets t))%nat
      with (length (sextets t) + 1 * 4)%nat by lia.
    rewrite Nat.Div0.mod_add. exact IH4.
Qed.

Lemma rev_chars_head (vs : list N) :
  match rev (map char_of_value vs) with
  | 61 :: _ => False
  | _ => True
  end.
Proof.
  destruct vs as [|v vs _] using rev_ind; [exact I|].
  rewrite map_app, rev_app_distr. cbn [map rev app].
  destruct (char_of_value_plain v) as [_ H].
  destruct (char_of_value v) as [|p]; [exact I|].
  repeat (destruct p as [p|p|]; try exact I). congruence.
Qed.

Lemma strip_padding_chars (vs : list N) (k : nat) :
  ((length vs + k) mod 4 = 0)%nat -> (k <= 2)%nat ->
  strip_padding (map char_of_value vs ++ repeat 61 k) = map char_of_value vs.
Proof.
  intros Hlen Hk. unfold strip_padding.
  rewrite length_app, length_map, repeat_length, Hlen. cbn [Nat.eqb].
  rewrite rev_app_distr, rev_repeat.
  pose proof (rev_chars_head vs) as Hhead.
  destruct k as [|[|[|k]]]; [| | |lia]; cbn [repeat app].
  - rewrite app_nil_r.
    destruct (rev (map char_of_value vs)) as [|c r] eqn:E; [reflexivity|].
    destruct c as [|p]; [reflexivity|].
    repeat (destruct p as [p|p|]; try reflexivity). contradiction.
  - destruct (rev (map char_of_value vs)) as [|c r] eqn:E.
    + apply (f_equal (@rev N)) in E. rewrite rev_involutive in E. exact (eq_sym E).
    + replace (map char_of_value vs) with (rev (c :: r))
        by (rewrite <- E; apply rev_involutive).
      destruct c as [|p]; [reflexivity|].
      repeat (destruct p as [p|p|]; try reflexivity). contradiction.
  - rewrite rev_involutive. reflexivity.
Qed.

(** Decoding inverts encoding on strings of code units up to 0xFF. *)
Lemma atob_encode (bs : list N) :
  latin1 bs = true -> atob (encode bs) = Ok bs.
Proof.
  intros H. unfold atob. rewrite encode_sextets.
  destruct (padding_repeat bs) as (Hpad & Hlen & Hk & Hmod).
  rewrite Hpad, filter_chars, strip_padding_chars by assumption.
  rewrite length_map.
  destruct (Nat.eqb_spec (length (sextets bs) mod 4) 1) as [E|_];
    [contradiction|].
  rewrite values_chars by (apply sextets_range; exact H).
  rewrite decode_sextets by exact H. reflexivity.
Qed.

Lemma atob_btoa (s : jsstring) :
  latin1 s = true -> (let! b := btoa s in atob b) = Ok s.
Proof.
  intros H. unfold btoa. rewrite H. cbn [bind]. apply atob_encode, H.
Qed.

Lemma btoa_not_latin1 (s : jsstring) :
  latin1 s = false -> btoa s = Throw InvalidCharacterError.
Proof. intros H. unfold btoa. rewrite H. reflexivity. Qed.

End Base64Facts.

(** ** JSON: parsing what was written *)

Module JSONFacts.
Import JSON.

Lemma json_ind' (P : json -> Prop) :
  P JNull -> (forall b, P (JBool b)) -> (forall n, P (JNum n)) ->
  (forall s, P (JStr s)) ->
  (forall items, Forall P items -> P (JArr items)) ->
  (forall fields, Forall (fun kv => P (snd kv)) fields -> P (JObj fields)) ->
  forall v, P v.
Proof.
  intros Hnull Hbool Hnum Hstr Harr Hobj.
  fix IH 1. intros [|b|n|s|items|fields].
  - exact Hnull.
  - apply Hbool.
  - apply Hnum.
  - apply Hstr.
  - apply Harr. induction items as [|x t IHt]; constructor; [apply IH | exact IHt].
  - apply Hobj. induction fields as [|[k x] t IHt]; constructor;
      [apply IH | exact IHt].
Qed.

Lemma latin1_not_surrogate (c : N) :
  c < 256 -> is_high_surrogate c = false /\ is_low_surrogate c = false.
Proof.
  intros Hc. unfold is_high_surrogate, is_low_surrogate.
  destruct (N.leb_spec 0xD800 c); [lia|].
  destruct (N.leb_spec 0xDC00 c); [lia|]. split; reflexivity.
Qed.

Lemma escape_latin1_cons (c : N) (t : jsstring) :
  c < 256 -> escape (c :: t) = escape_unit c ++ escape t.
Proof.
  intros Hc. cbn [escape].
  destruct (latin1_not_surrogate c Hc) as [-> ->]. reflexivity.
Qed.

(** One escaped character is read back as itself. *)
Lemma parse_escape_unit (c : N) (t : jsstring) :
  c < 256 ->
  parse_string_body (escape_unit c ++ t) = cons_string c (parse_string_body t).
Proof.
  intros Hc. destruct c as [|p]; [reflexivity|].
  do 8 (try destruct p as [p|p|]); try (exfalso; lia); reflexivity.
Qed.

Lemma escape_unit_latin1 (c : N) :
  c < 256 -> Base64.latin1 (escape_unit c) = true.
Proof.
  intros Hc. destruct c as [|p]; [reflexivity|].
  do 8 (try destruct p as [p|p|]); try (exfalso; lia); reflexivity.
Qed.

Lemma latin1_app (a b : jsstring) :
  Base64.latin1 (a ++ b) = Base64.latin1 a && Base64.latin1 b.
Proof. apply forallb_app. Qed.

Lemma parse_escape (s rest : jsstring) :
  Base64.latin1 s = true ->
  parse_string_body (escape s ++ 34 :: rest) = Some (s, rest).
Proof.
  induction s as [|c t IH]; intros H; [reflexivity|].
  apply Base64Facts.latin1_cons in H as [Hc Ht].
  rewrite escape_latin1_cons by exact Hc.
  rewrite <- app_assoc, parse_escape_unit by exact Hc.
  rewrite (IH Ht). reflexivity.
Qed.

Lemma escape_latin1 (s : jsstring) :
  Base64.latin1 s = true -> Base64.latin1 (escape s) = true.
Proof.
  induction s as [|c t IH]; intros H; [reflexivity|].
  apply Base64Facts.latin1_cons in H as [Hc Ht].
  rewrite escape_latin1_cons by exact Hc.
  rewrite latin1_app, escape_unit_latin1, IH by assumption. reflexivity.
Qed.

Lemma quote_latin1 (s : jsstring) :
  Base64.latin1 s = true -> Base64.latin1 (quote s) = true.
Proof.
  intros H. unfold quote. rewrite !latin1_app, escape_latin1 by exact H.
  reflexivity.
Qed.

(** A quoted string is read back, whatever follows it. *)
Lemma parse_quote (s rest : jsstring) :
  Base64.latin1 s = true ->
  exists body, quote s ++ rest = 34 :: body
               /\ parse_string_body body = Some (s, rest).
Proof.
  intros H. exists (escape s ++ 34 :: rest). split.
  - unfold quote. cbn [app]. rewrite <- app_assoc. reflexivity.
  - apply parse_escape, H.
Qed.

(** The first character of the text of a value. *)
Inductive opener : N -> Prop :=
| open_string : opener 34
| open_array : opener 91
| open_object : opener 123
| open_null : opener 110
| open_true : opener 116
| open_false : opener 102.

Lemma stringify_opener (v : json) :
  textual v = true -> exists c s, stringify v = c :: s /\ opener c.
Proof.
  destruct v as [|[|]|n|s|items|fields]; cbn [textual stringify]; intros H;
    try discriminate;
    eexists; eexists; (split; [reflexivity | constructor]).
Qed.

Lemma opener_not_closer {A} (c : N) (s : jsstring) (a a' : jsstring -> A) (b : A) :
  opener c ->
  match skip_ws (c :: s) with 93 :: r => a r | _ => b end = b
  /\ match skip_ws (c :: s) with 125 :: r => a' r | _ => b end = b.
Proof. destruct 1; split; reflexivity. Qed.

(** The elements of a non-empty array, up to the closing bracket. *)
Lemma parse_elements_stringify (items : list json) :
  items <> [] ->
  Forall (fun v => forall fuel rest, (weight v <= fuel)%nat ->
                   parse_value fuel (stringify v ++ rest) = Some (v, rest)) items ->
  forall fuel rest,
    (fold_right (fun x n => S (weight x + n)) O items <= fuel)%nat ->
    parse_elements fuel (join_comma (map stringify items) ++ 93 :: rest)
    = Some (items, rest).
Proof.
  intros Hne Hall. induction Hall as [|x t Hx Ht IH]; [congruence|].
  intros fuel rest Hfuel. cbn [fold_right] in Hfuel.
  destruct fuel as [|f]; [lia|]. cbn [parse_elements].
  destruct t as [|y t'].
  - cbn [map join_comma]. rewrite Hx by lia. reflexivity.
  - change (join_comma (map stringify (x :: y :: t')))
      with (stringify x ++ [44] ++ join_comma (map stringify (y :: t'))).
    rewrite <- !app_assoc. rewrite Hx by lia. cbn [app].
    change (skip_ws (44 :: ?r)) with (44 :: r). cbn iota.
    rewrite IH by (congruence || lia). reflexivity.
Qed.

(** The members of a non-empty object, up to the closing brace. *)
Lemma parse_members_stringify (fields : list (jsstring * json)) :
  fields <> [] ->
  Forall (fun kv => Base64.latin1 (fst kv) = true /\
                    forall fuel rest, (weight (snd kv) <= fuel)%nat ->
                    parse_value fuel (stringify (snd kv) ++ rest)
                    = Some (snd kv, rest)) fields ->
  forall fuel rest,
    (fold_right (fun kv n => S (weight (snd kv) + n)) O fields <= fuel)%nat ->
    parse_members fuel (join_comma (map member_text fields) ++ 125 :: rest)
    = Some (fields, rest).
Proof.
  intros Hne Hall. induction Hall as [|[k x] t [Hk Hx] Ht IH]; [congruence|].
  intros fuel rest Hfuel. cbn [fold_right snd fst] in *.
  destruct fuel as [|f]; [lia|]. cbn [parse_members].
  assert (Hhead : forall tail,
    match skip_ws (member_text (k, x) ++ tail) with
    | 34 :: r =>
        match parse_string_body r with
        | Some (k0, r1) =>
            match skip_ws r1 with
            | 58 :: r2 =>
                match parse_value f r2 with
                | Some (v, r3) =>
                    match skip_ws r3 with
                    | 44 :: r4 =>
                        match parse_members f r4 with
                        | Some (l, r5) => Some ((k0, v) :: l, r5)
                        | None => None
                        end
                    | 125 :: r4 => Some ([(k0, v)], r4)
                    | _ => None
                    end
                | None => None
                end
            | _ => None
            end
        | None => None
        end
    | _ => None
    end
    = match skip_ws tail with
      | 44 :: r4 =>
          match parse_members f r4 with
          | Some (l, r5) => Some ((k, x) :: l, r5)
          | None => None
          end
      | 125 :: r4 => Some ([(k, x)], r4)
      | _ => None
      end).
  { intros tail. unfold member_text. cbn [fst snd].
    rewrite <- !app_assoc.
    destruct (parse_quote k ([58] ++ stringify x ++ tail) Hk) as (body & E1 & E2).
    rewrite E1. change (skip_ws (34 :: ?r)) with (34 :: r). cbn iota.
    rewrite E2. cbn [app]. change (skip_ws (58 :: ?r)) with (58 :: r). cbn iota.
    rewrite Hx by lia. reflexivity. }
  destruct t as [|y t'].
  - cbn [map join_comma]. rewrite Hhead. reflexivity.
  - change (join_comma (map member_text ((k, x) :: y :: t')))
      with (member_text (k, x) ++ [44] ++ join_comma (map member_text (y :: t'))).
    rewrite <- !app_assoc. rewrite Hhead. cbn [app].
    change (skip_ws (44 :: ?r)) with (44 :: r). cbn iota.
    rewrite IH by (congruence || lia). reflexivity.
Qed.

(** The parser reads back the text of a value and leaves what follows. *)
Lemma parse_value_stringify (v : json) :
  textual v = true ->
  forall fuel rest, (weight v <= fuel)%nat ->
  parse_value fuel (stringify v ++ rest) = Some (v, rest).
Proof.
  induction v as [|b|n|s|items IH|fields IH] using json_ind';
    intros Htext fuel rest Hfuel; cbn [textual weight] in *;
    (destruct fuel as [|f]; [lia|]).
  - reflexivity.
  - destruct b; reflexivity.
  - discriminate.
  - cbn [stringify]. destruct (parse_quote s rest Htext) as (body & E1 & E2).
    rewrite E1. cbn [parse_value]. change (skip_ws (34 :: ?r)) with (34 :: r).
    cbn iota. rewrite E2. reflexivity.
  - cbn [stringify parse_value]. rewrite <- !app_assoc. cbn [app].
    change (skip_ws (91 :: ?r)) with (91 :: r). cbn iota.
    destruct items as [|x t]; [reflexivity|].
    assert (Hall : Forall (fun v => forall fuel rest, (weight v <= fuel)%nat ->
                     parse_value fuel (stringify v ++ rest) = Some (v, rest))
                          (x :: t)).
    { rewrite Forall_forall in IH |- *. intros y Hy. apply IH; [exact Hy|].
      rewrite forallb_forall in Htext. apply Htext, list_elem_of_In, Hy. }
    assert (Hx : textual x = true) by (cbn [forallb] in Htext;
      apply andb_prop in Htext; tauto).
    destruct (stringify_opener x Hx) as (c & sx & Ex & Hc).
    assert (Hstart : exists tail,
      join_comma (map stringify (x :: t)) ++ 93 :: rest = c :: tail).
    { destruct t; cbn [map join_comma]; rewrite Ex; eexists; reflexivity. }
    destruct Hstart as (tail & Etail).
    pose proof (parse_elements_stringify (x :: t) ltac:(discriminate) Hall
                  f rest ltac:(lia)) as Hel.
    rewrite Etail in *.
    rewrite (proj1 (opener_not_closer c tail _ (fun _ => None) _ Hc)).
    rewrite Hel. reflexivity.
  - cbn [stringify parse_value].
    change (map (fun kv => quote (fst kv) ++ [58] ++ stringify (snd kv)))
      with (map member_text).
    rewrite <- !app_assoc. cbn [app].
    change (skip_ws (123 :: ?r)) with (123 :: r). cbn iota.
    destruct fields as [|[k x] t]; [reflexivity|].
    assert (Hall : Forall (fun kv => Base64.latin1 (fst kv) = true /\
                     forall fuel rest, (weight (snd kv) <= fuel)%nat ->
                     parse_value fuel (stringify (snd kv) ++ rest)
                     = Some (snd kv, rest)) ((k, x) :: t)).
    { rewrite Forall_forall in IH |- *. intros kv Hkv.
      rewrite forallb_forall in Htext.
      specialize (Htext kv (proj1 (list_elem_of_In _ _) Hkv)).
      apply andb_prop in Htext as [Hk Hv]. split; [exact Hk|].
      apply IH; assumption. }
    assert (Hstart : exists tail,
      join_comma (map member_text ((k, x) :: t)) ++ 125 :: rest = 34 :: tail).
    { destruct t; cbn [map join_comma member_text quote app]; eexists; reflexivity. }
    destruct Hstart as (tail & Etail).
    pose proof (parse_members_stringify ((k, x) :: t) ltac:(discriminate) Hall
                  f rest ltac:(lia)) as Hmem.
    rewrite Etail in *.
    rewrite (proj2 (opener_not_closer 34 tail (fun _ => None) _ _ open_string)).
    rewrite Hmem. reflexivity.
Qed.

Lemma join_comma_cons (x : jsstring) (y : jsstring) (t : list jsstring) :
  join_comma (x :: y :: t) = x ++ [44] ++ join_comma (y :: t).
Proof. reflexivity. Qed.

(** The fuel [parse] starts with covers the weight of the value. *)
Lemma weight_bound (v : json) :
  textual v = true -> (S (weight v) <= 2 * length (stringify v))%nat.
Proof.
  induction v as [|b|n|s|items IH|fields IH] using json_ind';
    intros Htext; cbn [textual weight stringify] in *.
  - cbn. lia.
  - destruct b; cbn; lia.
  - discriminate.
  - unfold quote. rewrite !length_app. cbn [length]. lia.
  - rewrite !length_app. cbn [length].
    enough (fold_right (fun x n => S (weight x + n)) O items
            <= 2 * length (join_comma (map stringify items)))%nat by lia.
    induction IH as [|x t Hx _ IHt]; [cbn; lia|].
    cbn [forallb] in Htext. apply andb_prop in Htext as [Htx Htt].
    specialize (Hx Htx). specialize (IHt Htt). cbn [fold_right map].
    destruct t as [|y t'].
    + cbn [join_comma fold_right map] in *. lia.
    + cbn [map] in *. rewrite join_comma_cons, !length_app. cbn [length]. lia.
  - rewrite !length_app. cbn [length].
    change (map (fun kv => quote (fst kv) ++ [58] ++ stringify (snd kv)))
      with (map member_text).
    enough (fold_right (fun kv n => S (weight (snd kv) + n)) O fields
            <= 2 * length (join_comma (map member_text fields)))%nat by lia.
    induction IH as [|[k x] t Hx _ IHt]; [cbn; lia|].
    cbn [forallb fst snd] in *. apply andb_prop in Htext as [Htx Htt].
    apply andb_prop in Htx as [_ Htx].
    specialize (Hx Htx). specialize (IHt Htt). cbn [fold_right map snd].
    assert (Hm : (length (stringify x) < length (member_text (k, x)))%nat).
    { unfold member_text, quote. rewrite !length_app. cbn [length snd]. lia. }
    destruct t as [|y t'].
    + cbn [join_comma fold_right map] in *. lia.
    + cbn [map] in *. rewrite join_comma_cons, !length_app. cbn [length]. lia.
Qed.

Lemma join_comma_latin1 {A} (f : A -> jsstring) (l : list A) :
  (forall x, In x l -> Base64.latin1 (f x) = true) ->
  Base64.latin1 (join_comma (map f l)) = true.
Proof.
  induction l as [|x t IH]; [reflexivity|]. intros H.
  assert (Hx : Base64.latin1 (f x) = true) by (apply H; left; reflexivity).
  assert (Ht : Base64.latin1 (join_comma (map f t)) = true)
    by (apply IH; intros y Hy; apply H; right; exact Hy).
  destruct t as [|y t']; [exact Hx|].
  cbn [map] in *. rewrite join_comma_cons, !latin1_app, Hx, Ht. reflexivity.
Qed.

(** The text of a textual value has only code units up to 0xFF. *)
Lemma stringify_latin1 (v : json) :
  textual v = true -> Base64.latin1 (stringify v) = true.
Proof.
  induction v as [|b|n|s|items IH|fields IH] using json_ind';
    intros Htext; cbn [textual stringify] in *.
  - reflexivity.
  - destruct b; reflexivity.
  - discriminate.
  - apply quote_latin1, Htext.
  - rewrite !latin1_app. rewrite join_comma_latin1; [reflexivity|].
    intros x Hx.
    rewrite Forall_forall in IH. rewrite forallb_forall in Htext.
    apply IH; [apply list_elem_of_In, Hx | apply Htext, Hx].
  - rewrite !latin1_app. rewrite join_comma_latin1; [reflexivity|].
    intros [k x] Hx.
    rewrite Forall_forall in IH. rewrite forallb_forall in Htext.
    specialize (Htext _ Hx). cbn [fst snd] in *.
    apply andb_prop in Htext as [Hk Hv].
    rewrite !latin1_app, quote_latin1 by exact Hk.
    pose proof (IH (k, x) (proj2 (list_elem_of_In _ _) Hx) Hv) as Hs.
    cbn [snd] in Hs. rewrite Hs. reflexivity.
Qed.

Lemma distinct_app_cons (a : list jsstring) (k : jsstring) (t : list jsstring) :
  distinct (a ++ k :: t) = true ->
  existsb (fun k' => jsstring_eqb k' k) a = false
  /\ distinct ((a ++ [k]) ++ t) = true.
Proof.
  induction a as [|x a IH]; cbn [app distinct existsb].
  - intros H. split; [reflexivity | exact H].
  - intros H. apply andb_prop in H as [Hx Ha]. apply negb_true_iff in Hx.
    rewrite existsb_app in Hx. apply orb_false_elim in Hx as [Hxa Hxk].
    cbn [existsb] in Hxk. apply orb_false_elim in Hxk as [Hxk Hxt].
    destruct (IH Ha) as [IH1 IH2]. split.
    + rewrite IH1, orb_false_r. exact Hxk.
    + rewrite IH2, andb_true_r. apply negb_true_iff.
      rewrite !existsb_app, Hxa, Hxt. cbn [existsb]. rewrite Hxk. reflexivity.
Qed.

Lemma replace_field_fresh (k : jsstring) (v : json) (acc : list (jsstring * json)) :
  existsb (fun k' => jsstring_eqb k' k) (map fst acc) = false ->
  replace_field k v acc = None.
Proof.
  induction acc as [|[k' v'] acc IH]; [reflexivity|].
  cbn [map existsb fst replace_field]. intros H.
  apply orb_false_elim in H as [-> H]. rewrite (IH H). reflexivity.
Qed.

(** Members with fresh, distinct keys that are no indices are appended in
    the order they come. *)
Lemma fold_define_property (l acc : list (jsstring * json)) :
  distinct (map fst acc ++ map fst l) = true ->
  forallb (fun kv => plain_key (fst kv)) l = true ->
  fold_left define_property l acc = acc ++ l.
Proof.
  revert acc. induction l as [|[k v] t IH]; intros acc Hd Hp.
  - cbn. rewrite app_nil_r. reflexivity.
  - cbn [map fst forallb fold_left] in *.
    apply andb_prop in Hp as [Hk Ht].
    destruct (distinct_app_cons _ _ _ Hd) as [Hfresh Hd'].
    unfold define_property at 2. cbn [fst snd].
    rewrite replace_field_fresh by exact Hfresh.
    unfold plain_key in Hk. destruct (array_index k); [discriminate|].
    rewrite IH.
    + rewrite <- app_assoc. reflexivity.
    + rewrite map_app. exact Hd'.
    + exact Ht.
Qed.

(** A canonical value is the value its own syntax tree denotes. *)
Lemma build_canonical (v : json) : canonical v = true -> build v = v.
Proof.
  induction v as [|b|n|s|items IH|fields IH] using json_ind';
    intros Hc; cbn [canonical build] in *; try reflexivity.
  - f_equal. induction IH as [|x t Hx _ IHt]; [reflexivity|].
    cbn [forallb map] in *. apply andb_prop in Hc as [Hcx Hct].
    rewrite (Hx Hcx), (IHt Hct). reflexivity.
  - apply andb_prop in Hc as [Hd Hf]. f_equal.
    assert (Hmap : map (fun kv => (fst kv, build (snd kv))) fields = fields).
    { clear Hd. induction IH as [|[k x] t Hx _ IHt]; [reflexivity|].
      cbn [forallb map fst snd] in *. apply andb_prop in Hf as [Hkx Hft].
      apply andb_prop in Hkx as [_ Hcx].
      rewrite (Hx Hcx), (IHt Hft). reflexivity. }
    rewrite Hmap. rewrite fold_define_property; [reflexivity|exact Hd|].
    apply forallb_forall. intros kv Hkv. rewrite forallb_forall in Hf.
    specialize (Hf kv Hkv). apply andb_prop in Hf. tauto.
Qed.

(** Parsing the text of a value gives the value back. *)
Lemma parse_stringify (v : json) :
  textual v = true -> canonical v = true -> parse (stringify v) = Ok v.
Proof.
  intros Htext Hcan. unfold parse.
  pose proof (parse_value_stringify v Htext
                (S (2 * length (stringify v))) []) as H.
  rewrite app_nil_r in H. rewrite H.
  - cbn [skip_ws drop_while]. rewrite build_canonical by exact Hcan. reflexivity.
  - pose proof (weight_bound v Htext). lia.
Qed.

End JSONFacts.

(** ** Splitting, trimming, and the text of dates *)

Module StringFacts.

Lemma String_split_nonempty (sep : N) (s : jsstring) : String_split sep s <> [].
Proof.
  induction s as [|c t IH]; [discriminate|]. cbn [String_split].
  destruct (c =? sep); [discriminate|].
  destruct (String_split sep t); discriminate.
Qed.

Lemma String_split_app (sep : N) (a b : jsstring) :
  String_split sep (a ++ sep :: b) = String_split sep a ++ String_split sep b.
Proof.
  induction a as [|c a IH]; cbn [app String_split].
  - rewrite N.eqb_refl. reflexivity.
  - destruct (c =? sep); [rewrite IH; reflexivity|].
    rewrite IH. pose proof (String_split_nonempty sep a) as Hne.
    destruct (String_split sep a); [congruence | reflexivity].
Qed.

Lemma String_split_no_semicolon (s : jsstring) :
  no_semicolon s = true -> String_split 59 s = [s].
Proof.
  induction s as [|c t IH]; [reflexivity|]. cbn [no_semicolon forallb String_split].
  intros H. apply andb_prop in H as [Hc Ht]. apply negb_true_iff in Hc.
  rewrite Hc, (IH Ht). reflexivity.
Qed.

Lemma no_semicolon_app (a b : jsstring) :
  no_semicolon (a ++ b) = no_semicolon a && no_semicolon b.
Proof. apply forallb_app. Qed.

Lemma no_semicolon_repeat (k : nat) : no_semicolon (repeat 48 k) = true.
Proof. induction k as [|k IH]; [reflexivity | exact IH]. Qed.

Lemma no_semicolon_digits_fuel (fuel : nat) (n : N) (acc : jsstring) :
  no_semicolon acc = true ->
  no_semicolon (Number.digits_fuel fuel n acc) = true.
Proof.
  revert n acc. induction fuel as [|f IH]; intros n acc Hacc; [exact Hacc|].
  cbn [Number.digits_fuel]. destruct (N.ltb_spec n 10) as [Hn|Hn].
  - cbn [no_semicolon forallb]. fold (no_semicolon acc). rewrite Hacc, andb_true_r.
    apply negb_true_iff, N.eqb_neq. lia.
  - apply IH. cbn [no_semicolon forallb]. fold (no_semicolon acc).
    rewrite Hacc, andb_true_r. apply negb_true_iff, N.eqb_neq.
    pose proof (N.mod_lt n 10 ltac:(discriminate)). lia.
Qed.

Lemma no_semicolon_padded (width : nat) (n : Z) :
  no_semicolon (Date.padded width n) = true.
Proof.
  unfold Date.padded. rewrite no_semicolon_app, no_semicolon_repeat.
  apply no_semicolon_digits_fuel. reflexivity.
Qed.

Lemma no_semicolon_day_name (w : Z) : no_semicolon (Date.day_name w) = true.
Proof.
  unfold Date.day_name. generalize (Z.to_nat w). intros n.
  do 7 (destruct n as [|n]; [reflexivity|]). destruct n; reflexivity.
Qed.

Lemma no_semicolon_month_name (m : Z) : no_semicolon (Date.month_name m) = true.
Proof.
  unfold Date.month_name. generalize (Z.to_nat (m - 1)). intros n.
  do 12 (destruct n as [|n]; [reflexivity|]). destruct n; reflexivity.
Qed.

(** The text of a date has no semicolon. *)
Lemma no_semicolon_toUTCString (t : option Z) :
  no_semicolon (Date.toUTCString t) = true.
Proof.
  destruct t as [t|]; [|reflexivity]. unfold Date.toUTCString.
  destruct (Date.civil_from_days (Date.Day t)) as [[y m] d].
  rewrite !no_semicolon_app, !no_semicolon_padded, no_semicolon_day_name,
    no_semicolon_month_name.
  destruct (y <? 0)%Z; reflexivity.
Qed.

(** The text of a date ends with a letter. *)
Lemma toUTCString_end (t : option Z) :
  exists body c, Date.toUTCString t = body ++ [c] /\ is_js_whitespace c = false.
Proof.
  destruct t as [t|].
  - unfold Date.toUTCString.
    destruct (Date.civil_from_days (Date.Day t)) as [[y m] d].
    change (js " GMT") with ([32; 71; 77] ++ [84]).
    rewrite !app_assoc. eexists. exists 84. split; reflexivity.
  - exists (js "Invalid Dat"), 101. split; reflexivity.
Qed.

End StringFacts.

(** ** Header values *)

Module HeaderFacts.

Lemma forallb_weaken (p q : N -> bool) (s : jsstring) :
  (forall c, p c = true -> q c = true) ->
  forallb p s = true -> forallb q s = true.
Proof.
  intros Hpq. rewrite !forallb_forall. intros H c Hc. apply Hpq, H, Hc.
Qed.

Lemma printable_header_unit (c : N) :
  is_printable c = true -> is_header_unit c = true.
Proof.
  unfold is_printable, is_header_unit, is_header_break. intros H.
  apply andb_prop in H as [H1 H2]. apply N.leb_le in H1, H2.
  apply andb_true_intro. split; [apply N.leb_le; lia|].
  apply negb_true_iff.
  destruct (N.eqb_spec c 0); [lia|]. destruct (N.eqb_spec c 10); [lia|].
  destruct (N.eqb_spec c 13); [lia|]. reflexivity.
Qed.

Lemma header_units (s : jsstring) :
  forallb is_header_unit s = true ->
  Base64.latin1 s = true /\ existsb is_header_break s = false.
Proof.
  induction s as [|c t IH]; [split; reflexivity|].
  cbn [forallb existsb]. unfold Base64.latin1. cbn [forallb].
  intros H. apply andb_prop in H as [Hc Ht].
  destruct (IH Ht) as [IH1 IH2]. unfold Base64.latin1 in IH1.
  unfold is_header_unit in Hc. apply andb_prop in Hc as [Hc1 Hc2].
  apply negb_true_iff in Hc2. rewrite Hc1, Hc2, IH1, IH2. split; reflexivity.
Qed.

Lemma header_units_of (s : jsstring) :
  Base64.latin1 s = true -> existsb is_header_break s = false ->
  forallb is_header_unit s = true.
Proof.
  induction s as [|c t IH]; [reflexivity|].
  unfold Base64.latin1. cbn [forallb existsb]. intros H1 H2.
  apply andb_prop in H1 as [Hc1 Ht1]. apply orb_false_elim in H2 as [Hc2 Ht2].
  unfold is_header_unit at 1. rewrite Hc1, Hc2. cbn [negb andb].
  exact (IH Ht1 Ht2).
Qed.

Lemma drop_while_head (p : N -> bool) (c : N) (s : jsstring) :
  p c = false -> drop_while p (c :: s) = c :: s.
Proof. intros H. cbn [drop_while]. rewrite H. reflexivity. Qed.

(** A value that neither starts nor ends with HTTP whitespace is kept as
    it is. *)
Lemma normalize_value_text (c z : N) (body : jsstring) :
  is_http_whitespace c = false -> is_http_whitespace z = false ->
  normalize_value (c :: body ++ [z]) = c :: body ++ [z].
Proof.
  intros Hc Hz. unfold normalize_value.
  rewrite (drop_while_head _ c _ Hc).
  change (c :: body ++ [z]) with ((c :: body) ++ [z]).
  rewrite rev_app_distr. cbn [rev app].
  rewrite (drop_while_head _ z _ Hz).
  change (z :: rev body ++ [c]) with ([z] ++ rev (c :: body)).
  rewrite rev_app_distr, rev_involutive. reflexivity.
Qed.

Lemma header_value_text (c z : N) (body : jsstring) :
  is_http_whitespace c = false -> is_http_whitespace z = false ->
  forallb is_header_unit (c :: body ++ [z]) = true ->
  header_value (c :: body ++ [z]) = Ok (c :: body ++ [z]).
Proof.
  intros Hc Hz Hunits. destruct (header_units _ Hunits) as [Hlatin1 Hbreak].
  unfold header_value.
  rewrite Hlatin1, (normalize_value_text c z body Hc Hz), Hbreak. reflexivity.
Qed.

Lemma printable_repeat (k : nat) : forallb is_printable (repeat 48 k) = true.
Proof. induction k as [|k IH]; [reflexivity | exact IH]. Qed.

Lemma printable_digits_fuel (fuel : nat) (n : N) (acc : jsstring) :
  forallb is_printable acc = true ->
  forallb is_printable (Number.digits_fuel fuel n acc) = true.
Proof.
  revert n acc. induction fuel as [|f IH]; intros n acc Hacc; [exact Hacc|].
  cbn [Number.digits_fuel]. destruct (N.ltb_spec n 10) as [Hn|Hn].
  - cbn [forallb]. rewrite Hacc, andb_true_r. unfold is_printable.
    apply andb_true_intro. split; apply N.leb_le; lia.
  - apply IH. cbn [forallb]. rewrite Hacc, andb_true_r. unfold is_printable.
    pose proof (N.mod_lt n 10 ltac:(discriminate)) as Hm.
    set (m := n mod 10) in *. clearbody m.
    apply andb_true_intro. split; apply N.leb_le; lia.
Qed.

Lemma printable_padded (width : nat) (n : Z) :
  forallb is_printable (Date.padded width n) = true.
Proof.
  unfold Date.padded. rewrite forallb_app, printable_repeat.
  apply printable_digits_fuel. reflexivity.
Qed.

Lemma printable_day_name (w : Z) : forallb is_printable (Date.day_name w) = true.
Proof.
  unfold Date.day_name. generalize (Z.to_nat w). intros n.
  do 7 (destruct n as [|n]; [reflexivity|]). destruct n; reflexivity.
Qed.

Lemma printable_month_name (m : Z) :
  forallb is_printable (Date.month_name m) = true.
Proof.
  unfold Date.month_name. generalize (Z.to_nat (m - 1)). intros n.
  do 12 (destruct n as [|n]; [reflexivity|]). destruct n; reflexivity.
Qed.

(** The text of a date is printable ASCII. *)
Lemma printable_toUTCString (t : option Z) :
  forallb is_printable (Date.toUTCString t) = true.
Proof.
  destruct t as [t|]; [|reflexivity]. unfold Date.toUTCString.
  destruct (Date.civil_from_days (Date.Day t)) as [[y m] d].
  rewrite !forallb_app, !printable_padded, printable_day_name,
    printable_month_name.
  destruct (y <? 0)%Z; reflexivity.
Qed.

Lemma lower_hex_printable (c : N) : is_lower_hex c = true -> is_printable c = true.
Proof.
  unfold is_lower_hex, is_printable. intros H.
  assert (Hr : (48 <= c <= 57) \/ (97 <= c <= 102)).
  { apply orb_prop in H as [H|H]; apply andb_prop in H as [H1 H2];
      apply N.leb_le in H1, H2; lia. }
  apply andb_true_intro. split; apply N.leb_le; lia.
Qed.

Lemma http_whitespace_is_js_whitespace (c : N) :
  is_js_whitespace c = false -> is_http_whitespace c = false.
Proof.
  intros H. unfold is_http_whitespace.
  destruct (N.eqb_spec c 9) as [->|_]; [discriminate H|].
  destruct (N.eqb_spec c 10) as [->|_]; [discriminate H|].
  destruct (N.eqb_spec c 13) as [->|_]; [discriminate H|].
  destruct (N.eqb_spec c 32) as [->|_]; [discriminate H|].
  reflexivity.
Qed.

(** The header value of an approval is accepted as it is when the client
    identifier has only code units a header value may hold. *)
Lemma approval_header_value (clientId signature : jsstring) (expires : option Z) :
  forallb is_header_unit clientId = true ->
  forallb is_lower_hex signature = true ->
  header_value
    (OAuthUtils.join_comma_space
       (OAuthUtils.approval_directives clientId signature expires))
  = Ok (OAuthUtils.join_comma_space
          (OAuthUtils.approval_directives clientId signature expires)).
Proof.
  intros Hid Hsig.
  assert (Hsig' : forallb is_header_unit signature = true).
  { apply (forallb_weaken is_lower_hex); [|exact Hsig].
    intros c Hc. apply printable_header_unit, lower_hex_printable, Hc. }
  assert (Hdate : forallb is_header_unit (Date.toUTCString expires) = true).
  { apply (forallb_weaken is_printable); [apply printable_header_unit|].
    apply printable_toUTCString. }
  set (value := OAuthUtils.join_comma_space
                  (OAuthUtils.approval_directives clientId signature expires)).
  assert (Hunits : forallb is_header_unit value = true).
  { unfold value, OAuthUtils.approval_directives, OAuthUtils.join_comma_space,
      OAuthUtils.cookie_attributes.
    rewrite !forallb_app, Hid, Hsig', Hdate. reflexivity. }
  destruct (StringFacts.toUTCString_end expires) as (tb & z & Hend & Hz).
  assert (E : value
              = 99 :: (js "lient_" ++ clientId ++ js "_approved=true"
                       ++ OAuthUtils.cookie_attributes expires ++ js ", "
                       ++ js "client_" ++ clientId ++ js "_signature="
                       ++ signature
                       ++ js "; Path=/; HttpOnly; Secure; SameSite=Strict; Expires="
                       ++ tb) ++ [z]).
  { unfold value, OAuthUtils.approval_directives, OAuthUtils.join_comma_space.
    unfold OAuthUtils.cookie_attributes at 2. rewrite Hend.
    rewrite <- !app_assoc. reflexivity. }
  rewrite E in Hunits |- *.
  apply header_value_text;
    [reflexivity | apply http_whitespace_is_js_whitespace, Hz | exact Hunits].
Qed.

Lemma visible_printable (c : N) : is_visible c = true -> is_printable c = true.
Proof.
  unfold is_visible, is_printable. intros H.
  apply andb_prop in H as [H1 H2]. apply N.leb_le in H1, H2.
  apply andb_true_intro. split; apply N.leb_le; lia.
Qed.

Lemma visible_not_whitespace (c : N) :
  is_visible c = true -> is_http_whitespace c = false.
Proof.
  unfold is_visible, is_http_whitespace. intros H.
  apply andb_prop in H as [H1 _]. apply N.leb_le in H1.
  destruct (N.eqb_spec c 9); [lia|]. destruct (N.eqb_spec c 10); [lia|].
  destruct (N.eqb_spec c 13); [lia|]. destruct (N.eqb_spec c 32); [lia|].
  reflexivity.
Qed.

(** A value of visible characters is a header value as it stands. *)
Lemma header_value_visible (v : jsstring) :
  forallb is_visible v = true -> header_value v = Ok v.
Proof.
  intros Hv.
  assert (Hunits : forallb is_header_unit v = true).
  { apply (forallb_weaken is_visible); [|exact Hv].
    intros c Hc. apply printable_header_unit, visible_printable, Hc. }
  destruct v as [|c t]; [reflexivity|].
  destruct (exists_last (l := c :: t) ltac:(discriminate)) as (body & z & E).
  assert (Hz : is_visible z = true).
  { rewrite E, forallb_app in Hv. apply andb_prop in Hv as [_ Hz].
    cbn [forallb] in Hz. rewrite andb_true_r in Hz. exact Hz. }
  assert (Hc : is_visible c = true)
    by (cbn [forallb] in Hv; apply andb_prop in Hv as [Hc _]; exact Hc).
  destruct body as [|c' body].
  - injection E as -> ->. unfold header_value.
    destruct (header_units _ Hunits) as [Hlatin1 Hbreak].
    unfold normalize_value.
    rewrite Hlatin1, (drop_while_head _ z _ (visible_not_whitespace z Hz)).
    cbn [rev app].
    rewrite (drop_while_head _ z _ (visible_not_whitespace z Hz)).
    cbn [rev app negb]. rewrite Hbreak. reflexivity.
  - injection E as <- ->.
    apply header_value_text;
      [apply visible_not_whitespace, Hc | apply visible_not_whitespace, Hz|].
    exact Hunits.
Qed.

Lemma utf8_of_code_point_bytes (cp : N) :
  cp < 0x110000 -> forallb (fun b => b <? 256) (utf8_of_code_point cp) = true.
Proof.
  intros Hcp. unfold utf8_of_code_point.
  destruct (N.ltb_spec cp 0x80); [|destruct (N.ltb_spec cp 0x800);
    [|destruct (N.ltb_spec cp 0x10000)]];
    cbn [forallb]; rewrite ?andb_true_r, ?andb_true_iff;
    repeat split; apply N.ltb_lt; Base64Facts.div_mod_lia.
Qed.

Lemma enc_encode_bytes_upto (n : nat) (s : jsstring) :
  (length s <= n)%nat -> code_units s = true ->
  forallb (fun b => b <? 256) (enc_encode s) = true.
Proof.
  revert s. induction n as [|n IH]; intros s Hlen Hs.
  - destruct s; [reflexivity | cbn [length] in Hlen; lia].
  - destruct s as [|c t]; [reflexivity|].
    unfold code_units in Hs. cbn [forallb length] in Hs, Hlen.
    apply andb_prop in Hs as [Hc Ht]. apply N.ltb_lt in Hc.
    assert (IHt : forallb (fun b => b <? 256) (enc_encode t) = true)
      by (apply IH; [lia | exact Ht]).
    cbn [enc_encode].
    destruct (is_high_surrogate c) eqn:Hhigh.
    + destruct t as [|d t']; [apply utf8_of_code_point_bytes; lia|].
      cbn [forallb length] in Ht, Hlen. apply andb_prop in Ht as [Hd Ht'].
      apply N.ltb_lt in Hd.
      destruct (is_low_surrogate d) eqn:Hlow.
      * rewrite forallb_app, (IH t' ltac:(lia) Ht'), andb_true_r.
        apply utf8_of_code_point_bytes.
        unfold is_high_surrogate in Hhigh. unfold is_low_surrogate in Hlow.
        apply andb_prop in Hhigh as [H1 H2]. apply andb_prop in Hlow as [H3 H4].
        apply N.leb_le in H1, H2, H3, H4. lia.
      * rewrite forallb_app, IHt, andb_true_r.
        apply utf8_of_code_point_bytes. lia.
    + destruct (is_low_surrogate c); rewrite forallb_app, IHt, andb_true_r;
        apply utf8_of_code_point_bytes; lia.
Qed.

Lemma encode_byte_visible (b : N) :
  b < 256 -> forallb is_visible (URL.encode_byte b) = true.
Proof.
  intros Hb.
  apply (byte_cases (fun b => forallb is_visible (URL.encode_byte b)));
    [vm_compute; reflexivity | exact Hb].
Qed.

(** What the serializer writes for a string of code units is visible
    ASCII. *)
Lemma urlencode_visible (s : jsstring) :
  code_units s = true -> forallb is_visible (URL.urlencode s) = true.
Proof.
  intros Hs. unfold URL.urlencode.
  pose proof (enc_encode_bytes_upto (length s) s (le_n _) Hs) as Hbytes.
  induction (enc_encode s) as [|b t IH]; [reflexivity|].
  cbn [forallb] in Hbytes. apply andb_prop in Hbytes as [Hb Ht].
  cbn [map concat]. rewrite forallb_app, (IH Ht), andb_true_r.
  apply encode_byte_visible, N.ltb_lt, Hb.
Qed.

(** The location of the redirect upstream is a header value as it stands,
    for parameters that are strings of code units. *)
Lemma location_header_value (params : OAuthUtils.UpstreamParams) :
  OAuthUtils.upstream_url params
  = js "https://accounts.google.com/o/oauth2/v2/auth" ->
  code_units (OAuthUtils.client_id params) = true ->
  code_units (OAuthUtils.redirect_uri params) = true ->
  code_units (OAuthUtils.scope params) = true ->
  code_units (OAuthUtils.state params) = true ->
  header_value (OAuthUtils.getUpstreamAuthorizeUrl params)
  = Ok (OAuthUtils.getUpstreamAuthorizeUrl params).
Proof.
  intros Hbase H1 H2 H3 H4. apply header_value_visible.
  unfold OAuthUtils.getUpstreamAuthorizeUrl. rewrite Hbase.
  cbn [URL.serialize].
  rewrite !forallb_app, !urlencode_visible by (assumption || reflexivity).
  reflexivity.
Qed.

End HeaderFacts.

(** ** The signing utility and the approval check *)

Module SigningFacts.
Import OAuthUtils HexFacts.

Lemma getSigningKey_Ok (secret : jsstring) :
  secret <> [] -> getSigningKey secret = Ok (mkKey (enc_encode secret)).
Proof.
  intros H. unfold getSigningKey, subtle_importKey.
  pose proof (enc_encode_nonempty secret H) as Hne.
  destruct (enc_encode secret); [congruence | reflexivity].
Qed.

Lemma getSigningKey_empty : getSigningKey [] = Throw DataError.
Proof. reflexivity. Qed.

Lemma getSigningKey_cases (secret : jsstring) :
  (secret = [] /\ getSigningKey secret = Throw DataError)
  \/ (secret <> [] /\ getSigningKey secret = Ok (mkKey (enc_encode secret))).
Proof.
  destruct secret as [|c t].
  - left. split; reflexivity.
  - right. split; [discriminate | apply getSigningKey_Ok; discriminate].
Qed.

(** What the signature check computes: a fault when the regular expression
    finds nothing to match, the comparison of the leniently parsed bytes
    with the tag otherwise. *)
Lemma verifySignature_spec (key : CryptoKey) (signatureHex data : jsstring) :
  verifySignature key signatureHex data =
  match match_chunks signatureHex with
  | [] => Throw TypeError
  | chunks =>
      Ok (bool_decide (map (fun byte => ToUint8 (parseInt16 byte)) chunks
                       = SHA256.hmac (key_raw key) (enc_encode data)))
  end.
Proof.
  unfold verifySignature, String_match_1_2, subtle_verify.
  destruct (match_chunks signatureHex); reflexivity.
Qed.

Lemma verifySignature_never_other_fault
    (key : CryptoKey) (signatureHex data : jsstring) (e : JsError) :
  verifySignature key signatureHex data = Throw e ->
  e = TypeError /\ match_chunks signatureHex = [].
Proof.
  rewrite verifySignature_spec.
  destruct (match_chunks signatureHex); [|discriminate].
  intros [= <-]. split; reflexivity.
Qed.

(** C2 (as amended).  For non-empty secrets, a signature verifies under the
    secret that produced it, and it verifies under another secret exactly
    when both secrets give the message the same HMAC tag. *)
Theorem sign_then_verify (s1 s2 m : jsstring) (H1 : s1 <> []) (H2 : s2 <> []) :
  (let! sg := sign s1 m in verify s1 sg m) = Ok true
  /\ (let! sg := sign s1 m in verify s2 sg m)
     = Ok (bool_decide (SHA256.hmac (enc_encode s1) (enc_encode m)
                        = SHA256.hmac (enc_encode s2) (enc_encode m))).
Proof.
  unfold sign, verify.
  rewrite (getSigningKey_Ok s1 H1), (getSigningKey_Ok s2 H2).
  cbn [bind]. rewrite !verifySignature_signData. cbn [key_raw].
  split; [|reflexivity].
  f_equal. apply bool_decide_eq_true. reflexivity.
Qed.

Lemma sign_then_verify_witness :
  (let! sg := sign (js "k") (js "true") in verify (js "k") sg (js "true")) = Ok true
  /\ (let! sg := sign (js "k") (js "true") in verify (js "k" ++ [0]) sg (js "true"))
     = Ok (bool_decide (SHA256.hmac (enc_encode (js "k")) (enc_encode (js "true"))
                        = SHA256.hmac (enc_encode (js "k" ++ [0]))
                                      (enc_encode (js "true")))).
Proof.
  apply (sign_then_verify (js "k") (js "k" ++ [0]) (js "true"));
    vm_compute; discriminate.
Defined.

(** Two distinct secrets whose signatures verify under each other, and
    the empty secret, which signs nothing. *)
Lemma distinct_secrets_same_tag :
  ~ (js "k" <> js "k" ++ [0] ->
     (let! sg := sign (js "k") (js "true") in
      verify (js "k" ++ [0]) sg (js "true")) = Ok false).
Proof.
  intros H.
  assert (Hne : js "k" <> js "k" ++ [0]) by (vm_compute; discriminate).
  specialize (H Hne). vm_compute in H. discriminate H.
Qed.

Lemma empty_secret_faults (m : jsstring) :
  (let! sg := sign [] m in verify [] sg m) = Throw DataError.
Proof. reflexivity. Qed.

(** The approval check answers [true] exactly when both cookies are in the
    parsed header, the flag is the string "true", and the signature cookie
    verifies against "true". *)
Lemma clientIdAlreadyApproved_true_iff
    (request : Request) (clientId encryptionKey : jsstring) :
  clientIdAlreadyApproved request clientId encryptionKey = Ok true
  <-> exists cookieHeader cookies signatureCookie,
        req_cookie request = Some cookieHeader
        /\ parseCookieHeader cookieHeader = Ok cookies
        /\ cookies !! approved_name clientId = Some (js "true")
        /\ cookies !! signature_name clientId = Some signatureCookie
        /\ verify encryptionKey signatureCookie (js "true") = Ok true.
Proof.
  unfold clientIdAlreadyApproved, verify. split.
  - destruct (req_cookie request) as [[|c h]|]; try discriminate.
    destruct (parseCookieHeader (c :: h)) as [cookies|] eqn:Hp; [|discriminate].
    cbn [bind].
    destruct (cookies !! approved_name clientId) as [[|a av]|] eqn:Ha;
      try discriminate.
    destruct (cookies !! signature_name clientId) as [[|b bv]|] eqn:Hs;
      try discriminate.
    destruct (getSigningKey encryptionKey) as [key|]; [|discriminate].
    cbn [bind].
    destruct (verifySignature key (b :: bv) (a :: av)) as [isValid|] eqn:Hv;
      [|discriminate].
    cbn [bind]. intros [= Hand]. apply andb_prop in Hand as [-> Heq].
    apply jsstring_eqb_eq in Heq. rewrite Heq in *.
    exists (c :: h), cookies, (b :: bv). auto.
  - intros (h & cookies & sg & Hh & Hp & Ha & Hs & Hv).
    rewrite Hh. destruct h as [|c h].
    + change (parseCookieHeader []) with (@Ok (gmap (list N) (list N)) ∅) in Hp.
      injection Hp as <-. rewrite lookup_empty in Ha. discriminate.
    + rewrite Hp. cbn [bind]. rewrite Ha, Hs.
      change (js "true") with [116; 114; 117; 101] in *.
      destruct (getSigningKey encryptionKey) as [key|]; [|discriminate].
      cbn [bind] in *.
      destruct sg as [|b bv].
      { rewrite verifySignature_spec in Hv. discriminate. }
      rewrite Hv. reflexivity.
Qed.

(** Without a [Cookie] header the answer is [false]. *)
Lemma clientIdAlreadyApproved_no_header
    (request : Request) (clientId encryptionKey : jsstring) :
  req_cookie request = None ->
  clientIdAlreadyApproved request clientId encryptionKey = Ok false.
Proof. unfold clientIdAlreadyApproved. intros ->. reflexivity. Qed.

(** A cookie that is not in the parsed header gives [false]. *)
Lemma clientIdAlreadyApproved_absent
    (request : Request) (clientId encryptionKey cookieHeader : jsstring)
    (cookies : gmap (list N) (list N)) :
  req_cookie request = Some cookieHeader ->
  parseCookieHeader cookieHeader = Ok cookies ->
  cookies !! approved_name clientId = None
  \/ cookies !! signature_name clientId = None ->
  clientIdAlreadyApproved request clientId encryptionKey = Ok false.
Proof.
  unfold clientIdAlreadyApproved. intros -> Hp Habs.
  destruct cookieHeader as [|c h]; [reflexivity|].
  rewrite Hp. cbn [bind].
  destruct Habs as [-> | Hs]; [reflexivity|].
  rewrite Hs. destruct (cookies !! approved_name clientId) as [[|? ?]|]; reflexivity.
Qed.

(** C1.  A signature cookie made of a line feed, or a badly escaped value
    in any cookie of the header, makes the approval check raise instead of
    answering [false]. *)
Theorem clientIdAlreadyApproved_raises :
  clientIdAlreadyApproved
    (request_with_cookie (js "client_c_approved=true; client_c_signature=%0A"))
    (js "c") (js "secret") = Throw TypeError
  /\ clientIdAlreadyApproved (request_with_cookie (js "theme=100%"))
       (js "c") (js "secret") = Throw URIError.
Proof. split; vm_compute; reflexivity. Qed.

(** C3.  The signature check raises on a signature with nothing to match
    (the empty string, a line feed), and it accepts signatures that are no
    hexadecimal strings: with a sign, with a character that is no digit,
    of odd length. *)
Theorem verifySignature_not_closed :
  (forall key data, verifySignature key [] data = Throw TypeError)
  /\ (forall key data, verifySignature key [10] data = Throw TypeError)
  /\ verify (js "secret")
       (js "-fe380f6f390738d3c40662b10c7da1ce1f86594b83cb9e3774e644715335e5g")
       (js "true") = Ok true
  /\ verify (js "secret")
       (js "f1e380f6f390738d3c40662b10c7da1ce1f86594b83cb9e3774e644715335e5")
       (js "true") = Ok true.
Proof.
  split; [reflexivity|]. split; [reflexivity|].
  split; vm_compute; reflexivity.
Qed.

End SigningFacts.

(** ** The access policy *)

Module PolicyFacts.
Import AllowedUsers.

Lemma checkUserIsAllowed_for_iff (allowed : gset (list N)) (username : jsstring) :
  checkUserIsAllowed_for allowed username = true
  <-> allowed = ∅ \/ username ∈ allowed.
Proof.
  unfold checkUserIsAllowed_for.
  destruct (Nat.eqb_spec (size allowed) 0) as [Hz|Hnz].
  - apply size_empty_iff in Hz. apply leibniz_equiv in Hz.
    split; [intros _; left; exact Hz | reflexivity].
  - rewrite bool_decide_eq_true. split; [intros H; right; exact H|].
    intros [-> | H]; [|exact H]. rewrite size_empty in Hnz. congruence.
Qed.

(** C7.  With an empty allow-list every login is allowed; otherwise a login
    is allowed exactly when it is a member of the list, compared code unit
    by code unit.  So it is with the list {alice} and with the configured
    list. *)
Theorem checkUserIsAllowed_membership :
  (forall username, checkUserIsAllowed_for ∅ username = true)
  /\ (forall allowed username,
        checkUserIsAllowed_for allowed username = true
        <-> allowed = ∅ \/ username ∈ allowed)
  /\ checkUserIsAllowed_for {[ js "alice" ]} (js "alice") = true
  /\ checkUserIsAllowed_for {[ js "alice" ]} (js "Alice") = false
  /\ checkUserIsAllowed_for {[ js "alice" ]} (js "alice2") = false
  /\ (forall username,
        checkUserIsAllowed username = true
        <-> username = js "leonnwankwo" \/ username = js "leonchike").
Proof.
  split; [intros username; apply checkUserIsAllowed_for_iff; left; reflexivity|].
  split; [exact checkUserIsAllowed_for_iff|].
  split; [vm_compute; reflexivity|].
  split; [vm_compute; reflexivity|].
  split; [vm_compute; reflexivity|].
  intros username. unfold checkUserIsAllowed.
  rewrite checkUserIsAllowed_for_iff. unfold ALLOWED_USERNAMES. split.
  - intros [Hempty | Hin].
    + exfalso. assert (js "leonchike" ∈ (∅ : gset (list N))) as Habs
        by (rewrite <- Hempty; set_solver).
      set_solver.
    + set_solver.
  - intros [-> | ->]; right; set_solver.
Qed.

End PolicyFacts.

(** ** The callback route *)

Module CallbackFacts.
Import OAuthUtils AllowedUsers GoogleHandler.

Lemma bindE_lift_Ok {A B} (a : A) (k : A -> Eff B) :
  bindE (lift (Ok a)) k = k a.
Proof. unfold bindE, lift. destruct (k a). reflexivity. Qed.

Lemma bindE_lift_Throw {A B} (e : JsError) (k : A -> Eff B) :
  bindE (lift (Throw e)) k = ([], Throw e).
Proof. reflexivity. Qed.

Lemma bindE_ret {A B} (a : A) (k : A -> Eff B) : bindE (ret a) k = k a.
Proof. apply bindE_lift_Ok. Qed.

Lemma bindE_emit {B} (ev : Event) (k : unit -> Eff B) :
  bindE (emit ev) k = (ev :: fst (k tt), snd (k tt)).
Proof. unfold bindE, emit. destruct (k tt). reflexivity. Qed.

Lemma bindE_assoc {A B C} (m : Eff A) (k : A -> Eff B) (h : B -> Eff C) :
  bindE (bindE m k) h = bindE m (fun a => bindE (k a) h).
Proof.
  destruct m as [t [a|e]]; [|reflexivity].
  unfold bindE at 2 3. destruct (k a) as [t1 [b|e]]; cbn [bindE].
  - destruct (h b) as [t2 r]. rewrite app_assoc. reflexivity.
  - reflexivity.
Qed.

Lemma bindE_ext {A B} (m : Eff A) (k k' : A -> Eff B) :
  (forall a, k a = k' a) -> bindE m k = bindE m k'.
Proof.
  intros H. destruct m as [t [a|e]]; [|reflexivity].
  cbn [bindE]. rewrite H. reflexivity.
Qed.

Lemma bindE_pair {A B} (m : Eff A) (k : A -> Eff B) :
  bindE m k =
  match snd m with
  | Ok a => (fst m ++ fst (k a), snd (k a))
  | Throw e => (fst m, Throw e)
  end.
Proof.
  destruct m as [t [a|e]]; [|reflexivity].
  cbn [bindE fst snd]. destruct (k a). reflexivity.
Qed.

(** The route is its two stages in sequence. *)
Lemma get_callback_stages (w : World) (env : Env) (req : Request) :
  get_callback w env req =
  let* s := callback_identity w env req in
  match s with
  | inl i => callback_complete w i
  | inr response => ret response
  end.
Proof.
  unfold get_callback, callback_identity.
  rewrite ?bindE_assoc. apply bindE_ext. intros oauthReqInfo.
  rewrite ?bindE_assoc. apply bindE_ext. intros clientId.
  destruct (negb (truthy clientId)); [rewrite bindE_ret; reflexivity|].
  rewrite ?bindE_assoc. apply bindE_ext. intros [accessToken|errResponse];
    [|rewrite bindE_ret; reflexivity].
  rewrite ?bindE_assoc. apply bindE_ext. intros bearer.
  rewrite ?bindE_assoc. apply bindE_ext. intros _.
  rewrite ?bindE_assoc. apply bindE_ext. intros userResponse.
  destruct (negb (fetch_ok userResponse)).
  { rewrite ?bindE_assoc. apply bindE_ext. intros _. rewrite bindE_ret. reflexivity. }
  rewrite ?bindE_assoc. apply bindE_ext. intros userData.
  rewrite ?bindE_assoc. apply bindE_ext. intros email.
  rewrite ?bindE_assoc. apply bindE_ext. intros identity.
  rewrite bindE_ret. unfold callback_complete. cbn [id_login id_userData id_request
    id_accessToken id_email].
  reflexivity.
Qed.

Lemma quiet_bindE {A B} (m : Eff A) (k : A -> Eff B) :
  quiet (fst m) -> (forall a, quiet (fst (k a))) -> quiet (fst (bindE m k)).
Proof.
  intros Hm Hk. rewrite bindE_pair. destruct (snd m) as [a|e]; cbn [fst].
  - unfold quiet in *. rewrite forallb_app, Hm, Hk. reflexivity.
  - exact Hm.
Qed.

Lemma quiet_lift {A} (r : result A) : quiet (fst (lift r)).
Proof. reflexivity. Qed.

Lemma quiet_ret {A} (a : A) : quiet (fst (ret a)).
Proof. reflexivity. Qed.

Ltac quiet_steps :=
  repeat first
    [ apply quiet_lift
    | apply quiet_ret
    | reflexivity
    | apply quiet_bindE; [|intros ?]
    | match goal with
      | |- quiet (fst (if ?c then _ else _)) => destruct c
      | |- quiet (fst (match ?x with _ => _ end)) => destruct x
      end ].

Lemma fetchGoogleAccessToken_quiet (w : World) (p : TokenParams) :
  quiet (fst (fetchGoogleAccessToken w p)).
Proof. unfold fetchGoogleAccessToken. quiet_steps. Qed.

(** Nothing before the policy check completes an authorization. *)
Lemma callback_identity_quiet (w : World) (env : Env) (req : Request) :
  quiet (fst (callback_identity w env req)).
Proof.
  unfold callback_identity.
  pose proof (fetchGoogleAccessToken_quiet w (token_params env req)).
  quiet_steps; assumption.
Qed.

Lemma quiet_not_In (trace : list Event) (options : CompleteAuthorizationOptions) :
  quiet trace -> ~ In (CompleteAuthorization options) trace.
Proof.
  unfold quiet. rewrite forallb_forall. intros H Hin.
  specialize (H _ Hin). discriminate H.
Qed.

(** An authorization is completed only in the second stage, and only for a
    login the policy allows. *)
Lemma callback_complete_allowed (w : World) (i : Identity)
    (options : CompleteAuthorizationOptions) :
  In (CompleteAuthorization options) (fst (callback_complete w i)) ->
  login (props options) = id_login i
  /\ checkUserIsAllowed (id_login i) = true.
Proof.
  unfold callback_complete.
  destruct (checkUserIsAllowed (id_login i)) eqn:Hallowed; cbn [negb];
    [|intros []].
  destruct (js_get (id_userData i) (js "name")) as [name|];
    [rewrite bindE_lift_Ok | intros []].
  destruct (js_get (id_request i) (js "scope")) as [scope|];
    [rewrite bindE_lift_Ok | intros []].
  rewrite bindE_emit. cbn [fst].
  destruct (completeAuthorization w _) as [redirectTo|];
    [rewrite bindE_lift_Ok | rewrite bindE_lift_Throw];
    cbn [ret fst]; (intros [Hin | []]);
    injection Hin as <-; split; reflexivity.
Qed.

Lemma completion_requires_allowed (w : World) (env : Env) (req : Request)
    (options : CompleteAuthorizationOptions) :
  In (CompleteAuthorization options) (fst (get_callback w env req)) ->
  checkUserIsAllowed (login (props options)) = true.
Proof.
  rewrite get_callback_stages, bindE_pair.
  pose proof (callback_identity_quiet w env req) as Hq.
  destruct (snd (callback_identity w env req)) as [[i|response]|e]; cbn [fst].
  - rewrite in_app_iff. intros [Hin | Hin].
    + exfalso. exact (quiet_not_In _ _ Hq Hin).
    + destruct (callback_complete_allowed w i options Hin) as [-> H]. exact H.
  - cbn [ret fst]. rewrite app_nil_r. intros Hin.
    exfalso. exact (quiet_not_In _ _ Hq Hin).
  - intros Hin. exfalso. exact (quiet_not_In _ _ Hq Hin).
Qed.

(** A state that does not decode makes the route raise. *)
Lemma get_callback_decode_fault (w : World) (env : Env) (req : Request) (e : JsError) :
  decode_state (state_param req) = Throw e ->
  get_callback w env req = ([], Throw e).
Proof. unfold get_callback. intros ->. reflexivity. Qed.

(** A state that decodes to [null] makes the route raise as well. *)
Lemma get_callback_null_state (w : World) (env : Env) (req : Request) :
  decode_state (state_param req) = Ok JNull ->
  get_callback w env req = ([], Throw TypeError).
Proof. unfold get_callback. intros ->. reflexivity. Qed.

(** A state that decodes to a value without client identifier is answered
    with status 400. *)
Lemma get_callback_invalid_state
    (w : World) (env : Env) (req : Request) (oauthReqInfo : json)
    (clientId : option json) :
  decode_state (state_param req) = Ok oauthReqInfo ->
  js_get oauthReqInfo (js "clientId") = Ok clientId ->
  truthy clientId = false ->
  get_callback w env req = ([], Ok (c_text (js "Invalid state") 400)).
Proof.
  unfold get_callback. intros -> Hid Ht.
  rewrite bindE_lift_Ok, Hid, bindE_lift_Ok, Ht. reflexivity.
Qed.

(** C4.  A callback without [state], with a state that is no base64, with a
    state that is no JSON text once decoded, or with the state [null],
    makes the route raise; no response with status 400 is produced. *)
Theorem get_callback_bad_state_raises (w : World) (env : Env) :
  get_callback w env (callback_request None (Some (js "4/0Ab")))
  = ([], Throw InvalidCharacterError)
  /\ get_callback w env (callback_request (Some (js "%%%")) (Some (js "4/0Ab")))
     = ([], Throw InvalidCharacterError)
  /\ get_callback w env (callback_request (Some (js "ew==")) (Some (js "4/0Ab")))
     = ([], Throw SyntaxError)
  /\ get_callback w env (callback_request (Some (js "bnVsbA==")) (Some (js "4/0Ab")))
     = ([], Throw TypeError).
Proof.
  split; [apply get_callback_decode_fault; vm_compute; reflexivity|].
  split; [apply get_callback_decode_fault; vm_compute; reflexivity|].
  split; [apply get_callback_decode_fault; vm_compute; reflexivity|].
  apply get_callback_null_state; vm_compute; reflexivity.
Qed.

(** C5.  With a state that carries a client identifier: a missing (or
    empty) [code] is answered with status 400; when the token endpoint
    answers with a status outside 200-299, the response is the fixed
    status 500 text, whatever the upstream response contains. *)
Theorem callback_code_and_exchange
    (w : World) (env : Env) (req : Request) (oauthReqInfo : json)
    (clientId : option json)
    (Hstate : decode_state (state_param req) = Ok oauthReqInfo)
    (Hid : js_get oauthReqInfo (js "clientId") = Ok clientId)
    (Htruthy : truthy clientId = true) :
  match lookup_first (js "code") (req_query req) with
  | None | Some [] =>
      get_callback w env req
      = ([], Ok (mkResponse 400 [] (Some (js "Missing authorization code"))))
  | Some code =>
      let form := token_form (token_params env req) code in
      match fetch_token w form with
      | Ok tokenResponse =>
          if fetch_ok tokenResponse then True
          else
            get_callback w env req
            = ([TokenExchange form;
                ConsoleError (js "Failed to exchange token with Google")],
               Ok (mkResponse 500 []
                     (Some (js "Failed to exchange authorization code"))))
      | Throw e => get_callback w env req = ([TokenExchange form], Throw e)
      end
  end.
Proof.
  unfold get_callback. rewrite Hstate, bindE_lift_Ok, Hid, bindE_lift_Ok, Htruthy.
  cbn [negb]. unfold fetchGoogleAccessToken.
  change (token_code (token_params env req))
    with (lookup_first (js "code") (req_query req)).
  destruct (lookup_first (js "code") (req_query req)) as [[|c code]|];
    [reflexivity| |reflexivity].
  cbn zeta.
  destruct (fetch_token w (token_form (token_params env req) (c :: code)))
    as [tokenResponse|e]; [|reflexivity].
  destruct (fetch_ok tokenResponse) eqn:Hok; [exact I|].
  rewrite bindE_assoc, bindE_emit, bindE_assoc, bindE_lift_Ok, Hok.
  reflexivity.
Qed.

Lemma callback_code_and_exchange_witness :
  get_callback
    (world_with (Ok (mkFetchResponse 400 (js "{ error: invalid_grant }")))
                (Throw TypeError))
    sample_env
    (callback_request (Some (js "eyJjbGllbnRJZCI6ImFiYyJ9")) (Some (js "4/0Ab")))
  = ([TokenExchange
        [ (js "code", js "4/0Ab"); (js "client_id", js "google-client-id");
          (js "client_secret", js "google-client-secret");
          (js "redirect_uri", js "https://mcp.example/callback");
          (js "grant_type", js "authorization_code") ];
      ConsoleError (js "Failed to exchange token with Google")],
     Ok (mkResponse 500 [] (Some (js "Failed to exchange authorization code")))).
Proof.
  exact (callback_code_and_exchange
           (world_with (Ok (mkFetchResponse 400 (js "{ error: invalid_grant }")))
                       (Throw TypeError))
           sample_env
           (callback_request (Some (js "eyJjbGllbnRJZCI6ImFiYyJ9")) (Some (js "4/0Ab")))
           (JObj [(js "clientId", JStr (js "abc"))]) (Some (JStr (js "abc")))
           ltac:(vm_compute; reflexivity) ltac:(vm_compute; reflexivity)
           ltac:(vm_compute; reflexivity)).
Defined.

(** C6.  When the fetched identity has a login the policy does not allow,
    the route answers with the status 403 page, whose text contains the
    login, and nothing in its trace completes an authorization. *)
Theorem callback_denied
    (w : World) (env : Env) (req : Request) (trace : list Event) (i : Identity)
    (Hidentity : callback_identity w env req = (trace, Ok (inl i)))
    (Hdenied : checkUserIsAllowed (id_login i) = false) :
  get_callback w env req = (trace, Ok (getAuthDeniedResponse (id_login i)))
  /\ status (getAuthDeniedResponse (id_login i)) = 403
  /\ body (getAuthDeniedResponse (id_login i))
     = Some (denied_html_before ++ id_login i ++ denied_html_after)
  /\ quiet trace.
Proof.
  split; [|split; [reflexivity|split; [reflexivity|]]].
  - rewrite get_callback_stages, Hidentity. unfold bindE, callback_complete.
    rewrite Hdenied. cbn [negb ret]. rewrite app_nil_r. reflexivity.
  - pose proof (callback_identity_quiet w env req) as Hq.
    rewrite Hidentity in Hq. exact Hq.
Qed.

Lemma callback_denied_witness :
  get_callback
    (world_with (Ok (mkFetchResponse 200 (js "{ }")))
                (Ok (mkFetchResponse 200 eve_userinfo)))
    sample_env
    (callback_request (Some (js "eyJjbGllbnRJZCI6ImFiYyJ9")) (Some (js "4/0Ab")))
  = ([TokenExchange
        [ (js "code", js "4/0Ab"); (js "client_id", js "google-client-id");
          (js "client_secret", js "google-client-secret");
          (js "redirect_uri", js "https://mcp.example/callback");
          (js "grant_type", js "authorization_code") ];
      UserInfoFetch (js "Bearer undefined")],
     Ok (getAuthDeniedResponse (js "eve"))).
Proof.
  exact (proj1 (callback_denied
           (world_with (Ok (mkFetchResponse 200 (js "{ }")))
                       (Ok (mkFetchResponse 200 eve_userinfo)))
           sample_env
           (callback_request (Some (js "eyJjbGllbnRJZCI6ImFiYyJ9")) (Some (js "4/0Ab")))
           _
           (mkIdentity (JObj [(js "clientId", JStr (js "abc"))]) None
              (JObj [(js "email", JStr (js "eve@example.com"))])
              (js "eve@example.com") (js "eve"))
           ltac:(vm_compute; reflexivity) ltac:(vm_compute; reflexivity))).
Defined.

End CallbackFacts.

(** ** The state carried across the redirect *)

Module StateFacts.
Import GoogleHandler.

(** Encoding then decoding a textual, canonical value gives it back. *)
Lemma state_round_trip_json (v : json) :
  JSON.textual v = true -> JSON.canonical v = true ->
  (let! s := encode_state v in decode_state s) = Ok v.
Proof.
  intros Htext Hcan. unfold encode_state, decode_state.
  pose proof (Base64Facts.atob_btoa (JSON.stringify v)
                (JSONFacts.stringify_latin1 v Htext)) as H.
  destruct (Base64.btoa (JSON.stringify v)) as [s|e]; [|discriminate H].
  cbn [bind] in *. rewrite H. cbn [bind].
  apply JSONFacts.parse_stringify; assumption.
Qed.

(** A value with a code unit above 0xFF has no encoding. *)
Lemma encode_state_not_latin1 (v : json) :
  Base64.latin1 (JSON.stringify v) = false ->
  encode_state v = Throw InvalidCharacterError.
Proof. apply Base64Facts.btoa_not_latin1. Qed.

Lemma textual_strings (l : list jsstring) :
  forallb Base64.latin1 l = true -> forallb JSON.textual (map JStr l) = true.
Proof.
  induction l as [|x t IH]; [reflexivity|]. cbn [forallb map JSON.textual].
  intros H. apply andb_prop in H as [-> Ht]. exact (IH Ht).
Qed.

Lemma canonical_strings (l : list jsstring) :
  forallb JSON.canonical (map JStr l) = true.
Proof. induction l as [|x t IH]; [reflexivity|]. exact IH. Qed.

Lemma AuthRequest_json_textual (r : AuthRequest) :
  latin1_request r = true -> JSON.textual (AuthRequest_json r) = true.
Proof.
  destruct r as [rt cid ru sc st cc ccm]. unfold latin1_request.
  cbn [responseType clientId redirectUri scope state codeChallenge
       codeChallengeMethod].
  intros H. repeat (apply andb_prop in H as [H ?]).
  unfold AuthRequest_json.
  cbn [responseType clientId redirectUri scope state codeChallenge
       codeChallengeMethod].
  destruct cc as [cc|], ccm as [ccm|];
    cbn [optional_member app JSON.textual forallb fst snd latin1_optional] in *;
    rewrite ?textual_strings by assumption;
    repeat match goal with
           | Hs : Base64.latin1 ?s = true |- context [Base64.latin1 ?s] =>
               rewrite Hs
           end;
    vm_compute; reflexivity.
Qed.

Lemma AuthRequest_json_canonical (r : AuthRequest) :
  JSON.canonical (AuthRequest_json r) = true.
Proof.
  destruct r as [rt cid ru sc st cc ccm]. unfold AuthRequest_json.
  cbn [responseType clientId redirectUri scope state codeChallenge
       codeChallengeMethod].
  destruct cc as [cc|], ccm as [ccm|];
    cbn [optional_member app JSON.canonical forallb map fst snd];
    rewrite ?canonical_strings; vm_compute; reflexivity.
Qed.

(** C9 (as amended).  An authorization request whose strings have only
    code units up to 0xFF is the value its encoded state decodes to. *)
Theorem state_round_trip (r : AuthRequest) (Hlatin1 : latin1_request r = true) :
  (let! s := encode_state (AuthRequest_json r) in decode_state s)
  = Ok (AuthRequest_json r).
Proof.
  apply state_round_trip_json.
  - apply AuthRequest_json_textual, Hlatin1.
  - apply AuthRequest_json_canonical.
Qed.

Lemma state_round_trip_witness :
  (let! s := encode_state (AuthRequest_json (sample_request (js "xyz-123")))
   in decode_state s)
  = Ok (AuthRequest_json (sample_request (js "xyz-123"))).
Proof.
  apply (state_round_trip (sample_request (js "xyz-123"))).
  vm_compute. reflexivity.
Defined.

(** A request whose correlation state contains the euro sign (U+20AC)
    cannot be encoded at all: the redirect raises. *)
Lemma state_round_trip_fails :
  (let! s := encode_state (AuthRequest_json (sample_request [0x20AC]))
   in decode_state s)
  <> Ok (AuthRequest_json (sample_request [0x20AC])).
Proof. vm_compute. discriminate. Qed.

End StateFacts.

(** ** The approval form *)

Module ApprovalFacts.
Import OAuthUtils GoogleHandler.

Lemma form_state_None_raises (now : Z) (request : Request) (key : jsstring) :
  form_state request = None ->
  exists e, parseRedirectApproval now request key = Throw e.
Proof.
  unfold form_state, parseRedirectApproval.
  destruct (req_formData request) as [formData|e]; [|intros _; eexists; reflexivity].
  cbn [bind].
  destruct (FormData_get (js "state") formData) as [[s|]|];
    [discriminate | |]; intros _; eexists; reflexivity.
Qed.

(** The outcome of the form handler, case by case. *)
Lemma parseRedirectApproval_cases (now : Z) (request : Request) (key : jsstring) :
  match parseRedirectApproval now request key with
  | Ok (state, headers) => approval_granted now request key state headers
  | Throw _ => approval_refused request key
  end.
Proof.
  unfold parseRedirectApproval, approval_granted, approval_refused, form_state.
  destruct (req_formData request) as [formData|e]; [|left; reflexivity].
  cbn [bind].
  destruct (FormData_get (js "state") formData) as [[stateStr|]|];
    [|left; reflexivity|left; reflexivity].
  destruct stateStr as [|c stateStr].
  { right. exists []. split; [reflexivity|]. left. eexists. reflexivity. }
  destruct (JSON.parse (c :: stateStr)) as [state|e] eqn:Hparse.
  2:{ right. eexists. split; [reflexivity|]. left. eexists. exact Hparse. }
  cbn [bind].
  destruct (oauthReqInfo_clientId state) as [clientId|e] eqn:Hid.
  2:{ right. eexists. split; [reflexivity|]. right. exists state.
      split; [exact Hparse|]. left. intros cid Hcid. unfold lacks_clientId.
      congruence. }
  cbn [bind].
  destruct (truthy clientId) eqn:Htruthy; cbn [negb].
  2:{ right. eexists. split; [reflexivity|]. right. exists state.
      split; [exact Hparse|]. left. intros cid Hcid.
      rewrite Hid in Hcid. injection Hcid as <-. exact Htruthy. }
  destruct (SigningFacts.getSigningKey_cases key) as [[Hk Hkey]|[Hk Hkey]];
    rewrite Hkey; cbn [bind].
  { right. eexists. split; [reflexivity|]. right. exists state.
    split; [exact Hparse|]. right. exists clientId. auto. }
  destruct (ToString clientId) as [text|e] eqn:Htext; cbn [bind].
  - exists (c :: stateStr), clientId, text, (mkKey (enc_encode key)).
    repeat split; auto.
  - right. eexists. split; [reflexivity|]. right. exists state.
    split; [exact Hparse|]. right. exists clientId.
    split; [exact Hid|]. split; [exact Htruthy|]. right. exists e. exact Htext.
Qed.

(** A call cannot both succeed and have a reason to raise. *)
Lemma granted_not_refused (now : Z) (request : Request) (key : jsstring)
    (state : json) (headers : list (jsstring * jsstring)) :
  approval_granted now request key state headers ->
  approval_refused request key -> False.
Proof.
  intros (stateStr & clientId & text & k & Hform & Hparse & Hid & Ht & Hkey & Htext & _).
  intros [Hnone | (s' & Hform' & Hcause)]; [congruence|].
  rewrite Hform in Hform'. injection Hform' as <-.
  destruct Hcause as [(e & He) | (state' & Hparse' & Hcause)]; [congruence|].
  rewrite Hparse in Hparse'. injection Hparse' as <-.
  destruct Hcause as [Hlacks | (cid & Hid' & _ & Hcause)].
  - specialize (Hlacks clientId Hid). congruence.
  - rewrite Hid in Hid'. injection Hid' as <-.
    destruct Hcause as [-> | (e & He)]; [|congruence].
    rewrite SigningFacts.getSigningKey_empty in Hkey. discriminate.
Qed.

Lemma parseRedirectApproval_raises_iff (now : Z) (request : Request) (key : jsstring) :
  (exists e, parseRedirectApproval now request key = Throw e)
  <-> approval_refused request key.
Proof.
  pose proof (parseRedirectApproval_cases now request key) as H.
  destruct (parseRedirectApproval now request key) as [[state headers]|e].
  - split; [intros (e & He); discriminate|].
    intros Href. exfalso. exact (granted_not_refused _ _ _ _ _ H Href).
  - split; [intros _; exact H | intros _; eexists; reflexivity].
Qed.

(** C10 (as amended).  The form handler raises exactly when the form has no
    string-valued state field, the field is no JSON text, the parsed state
    lacks [oauthReqInfo.clientId], the signing key is empty, or the client
    identifier has no string form.  Otherwise it returns the parsed state
    with the [Set-Cookie] header for that client identifier.  The route
    passes what is raised on. *)
Theorem parseRedirectApproval_outcome (w : World) (env : Env) (request : Request) :
  ((exists e, parseRedirectApproval (Date_now w) request
                (COOKIE_ENCRYPTION_KEY env) = Throw e)
   <-> approval_refused request (COOKIE_ENCRYPTION_KEY env))
  /\ match parseRedirectApproval (Date_now w) request (COOKIE_ENCRYPTION_KEY env) with
     | Ok (state, headers) =>
         approval_granted (Date_now w) request (COOKIE_ENCRYPTION_KEY env)
           state headers
     | Throw e => post_authorize w env request = ([], Throw e)
     end.
Proof.
  split; [apply parseRedirectApproval_raises_iff|].
  pose proof (parseRedirectApproval_cases (Date_now w) request
                (COOKIE_ENCRYPTION_KEY env)) as H.
  unfold post_authorize.
  destruct (parseRedirectApproval (Date_now w) request (COOKIE_ENCRYPTION_KEY env))
    as [[state headers]|e]; [exact H | reflexivity].
Qed.

(** A state field that is a string, a JSON text and has a client
    identifier, and still makes the handler raise: the identifier is an
    object with a member [toString]. *)
Lemma parseRedirectApproval_raises_otherwise :
  ~ ((exists e, parseRedirectApproval 1793655000123
                  (approval_request object_clientId_state) (js "secret") = Throw e)
     <-> (form_state (approval_request object_clientId_state) = None
          \/ exists stateStr,
               form_state (approval_request object_clientId_state) = Some stateStr
               /\ ((exists e, JSON.parse stateStr = Throw e)
                   \/ exists state, JSON.parse stateStr = Ok state
                                    /\ lacks_clientId state))).
Proof.
  intros [H _].
  assert (Hraise : exists e, parseRedirectApproval 1793655000123
            (approval_request object_clientId_state) (js "secret") = Throw e)
    by (exists TypeError; vm_compute; reflexivity).
  destruct (H Hraise) as [Hnone | (stateStr & Hform & Hcause)].
  - vm_compute in Hnone. discriminate Hnone.
  - assert (Hs : stateStr = object_clientId_state)
      by (vm_compute in Hform; injection Hform as <-; vm_compute; reflexivity).
    subst stateStr.
    destruct Hcause as [(e & He) | (state & Hparse & Hlacks)].
    + vm_compute in He. discriminate He.
    + assert (Hstate : JSON.parse object_clientId_state
                = Ok (JObj [(js "oauthReqInfo",
                        JObj [(js "clientId",
                          JObj [(js "toString",
                                 JNum (Number.mkLiteral false 1 0))])])]))
        by (vm_compute; reflexivity).
      rewrite Hstate in Hparse. injection Hparse as <-.
      specialize (Hlacks (Some (JObj [(js "toString",
                                 JNum (Number.mkLiteral false 1 0))]))
                    ltac:(vm_compute; reflexivity)).
      discriminate Hlacks.
Qed.

End ApprovalFacts.

(** ** The [Set-Cookie] directives *)

Module CookieFacts.
Import OAuthUtils AllowedUsers GoogleHandler StringFacts.

Lemma String_trim_Expires (body : jsstring) (c : N) :
  is_js_whitespace c = false ->
  String_trim (js " Expires=" ++ body ++ [c]) = js "Expires=" ++ body ++ [c].
Proof.
  intros Hc. unfold String_trim.
  change (drop_while is_js_whitespace (js " Expires=" ++ body ++ [c]))
    with (js "Expires=" ++ body ++ [c]).
  rewrite app_assoc, rev_app_distr. cbn [rev app drop_while]. rewrite Hc.
  change (c :: rev (js "Expires=" ++ body))
    with (rev [c] ++ rev (js "Expires=" ++ body)).
  rewrite <- rev_app_distr, rev_involutive. reflexivity.
Qed.

(** The attributes a browser reads from a directive of the approval: after
    whatever the cookie name contributes come the five of the source. *)
Lemma cookie_av_directive (name_value : jsstring) (expires : option Z) :
  cookie_av (name_value ++ cookie_attributes expires)
  = map String_trim (tl (String_split 59 name_value))
    ++ approval_attributes expires.
Proof.
  unfold cookie_av, approval_attributes.
  assert (E : cookie_attributes expires
              = 59 :: js " Path=/" ++ 59 :: js " HttpOnly" ++ 59 :: js " Secure"
                ++ 59 :: js " SameSite=Strict"
                ++ 59 :: js " Expires=" ++ Date.toUTCString expires)
    by reflexivity.
  rewrite E, !String_split_app.
  rewrite (String_split_no_semicolon (js " Path=/")) by reflexivity.
  rewrite (String_split_no_semicolon (js " HttpOnly")) by reflexivity.
  rewrite (String_split_no_semicolon (js " Secure")) by reflexivity.
  rewrite (String_split_no_semicolon (js " SameSite=Strict")) by reflexivity.
  rewrite (String_split_no_semicolon (js " Expires=" ++ Date.toUTCString expires))
    by (rewrite no_semicolon_app, no_semicolon_toUTCString; reflexivity).
  pose proof (String_split_nonempty 59 name_value) as Hne.
  destruct (String_split 59 name_value) as [|h r]; [congruence|].
  cbn [app tl]. rewrite map_app. f_equal. cbn [map].
  destruct (toUTCString_end expires) as (body & c & -> & Hc).
  rewrite (String_trim_Expires body c Hc). reflexivity.
Qed.

Lemma answers_bindE {A B} (Q : A -> Prop) (P : B -> Prop)
    (m : Eff A) (k : A -> Eff B) :
  answers Q m -> (forall a, Q a -> answers P (k a)) -> answers P (bindE m k).
Proof.
  unfold answers. rewrite CallbackFacts.bindE_pair.
  destruct (snd m) as [a|e]; cbn [snd]; [|intros _ _; exact I].
  intros Ha Hk. exact (Hk a Ha).
Qed.

Lemma answers_any {A} (m : Eff A) : answers (fun _ => True) m.
Proof. unfold answers. destruct (snd m); exact I. Qed.

Lemma answers_ret {A} (P : A -> Prop) (a : A) : P a -> answers P (ret a).
Proof. intros H. exact H. Qed.

Lemma answers_lift {A} (P : A -> Prop) (r : result A) :
  match r with Ok a => P a | Throw _ => True end -> answers P (lift r).
Proof. intros H. exact H. Qed.

Lemma Headers_fill_names (hs filled : list (jsstring * jsstring)) :
  Headers_fill hs = Ok filled -> map fst filled = map fst hs.
Proof.
  revert filled. induction hs as [|[name v] t IH]; intros filled;
    cbn [Headers_fill].
  - intros [= <-]. reflexivity.
  - destruct (header_value v) as [v'|]; cbn [bind]; [|discriminate].
    destruct (Headers_fill t) as [t'|]; cbn [bind]; [|discriminate].
    intros [= <-]. cbn [map fst]. rewrite (IH t' eq_refl). reflexivity.
Qed.

(** A redirect upstream that is given no header sets no cookie. *)
Lemma redirectToGoogle_headers (request : Request) (oauthReqInfo : json)
    (env : Env) :
  match redirectToGoogle request oauthReqInfo env [] with
  | Ok r => set_cookie_values r = []
  | Throw _ => True
  end.
Proof.
  unfold redirectToGoogle. destruct (encode_state oauthReqInfo); [|exact I].
  reflexivity.
Qed.

Lemma renderApprovalDialog_no_cookie (client : json) (server : ServerInfo)
    (state : json) :
  match renderApprovalDialog client server state with
  | Ok r => no_cookie r
  | Throw _ => True
  end.
Proof.
  unfold renderApprovalDialog.
  destruct (js_get client (js "name")) as [name|]; [|exact I]. cbn [bind].
  destruct (ToString name); [|exact I]. reflexivity.
Qed.

Lemma fetchGoogleAccessToken_no_cookie (w : World) (p : TokenParams) :
  answers (fun x => match x with inr r => no_cookie r | inl _ => True end)
          (fetchGoogleAccessToken w p).
Proof.
  unfold fetchGoogleAccessToken.
  destruct (token_code p) as [[|c code]|];
    [apply answers_ret; reflexivity| |apply answers_ret; reflexivity].
  cbn zeta. apply (answers_bindE (fun _ => True)); [apply answers_any|].
  intros _ _. apply (answers_bindE (fun _ => True)); [apply answers_any|].
  intros tokenResponse _. destruct (negb (fetch_ok tokenResponse)).
  - apply (answers_bindE (fun _ => True)); [apply answers_any|].
    intros _ _. apply answers_ret. reflexivity.
  - apply (answers_bindE (fun _ => True)); [apply answers_any|].
    intros tokenData _. apply (answers_bindE (fun _ => True)); [apply answers_any|].
    intros access_token _. apply answers_ret. exact I.
Qed.

Ltac any_step :=
  apply (answers_bindE (fun _ => True)); [apply answers_any | intros ? _].

Lemma get_callback_no_cookie (w : World) (env : Env) (req : Request) :
  answers no_cookie (get_callback w env req).
Proof.
  unfold get_callback. any_step. any_step.
  destruct (negb (truthy _)); [apply answers_ret; reflexivity|].
  eapply answers_bindE; [apply fetchGoogleAccessToken_no_cookie|].
  intros [accessToken|errResponse] Hx; [|apply answers_ret; exact Hx].
  any_step. any_step. any_step.
  destruct (negb (fetch_ok _)).
  { any_step. apply answers_ret. reflexivity. }
  any_step. any_step. any_step.
  destruct (negb (checkUserIsAllowed _)); [apply answers_ret; reflexivity|].
  any_step. any_step. any_step. any_step. apply answers_lift.
  unfold Response_redirect. destruct (URL_href w _); [reflexivity | exact I].
Qed.

Lemma get_authorize_no_cookie (w : World) (env : Env) (req : Request) :
  answers no_cookie (get_authorize w env req).
Proof.
  unfold get_authorize. any_step.
  destruct (clientId _); [apply answers_ret; reflexivity|].
  apply (answers_bindE (fun _ => True)); [apply answers_any | intros approved _].
  destruct approved.
  - apply answers_lift. apply redirectToGoogle_headers.
  - any_step. apply answers_lift. apply renderApprovalDialog_no_cookie.
Qed.

Lemma approval_directives_attributes
    (clientIdText signature : jsstring) (expires : option Z) :
  Forall (fun d => exists before,
            cookie_av d = before ++ approval_attributes expires)
         (approval_directives clientIdText signature expires).
Proof.
  unfold approval_directives. repeat constructor.
  - rewrite !app_assoc, <- !app_assoc.
    replace (js "client_" ++ clientIdText ++ js "_approved=true"
             ++ cookie_attributes expires)
      with ((js "client_" ++ clientIdText ++ js "_approved=true")
            ++ cookie_attributes expires)
      by (rewrite <- !app_assoc; reflexivity).
    rewrite cookie_av_directive. eexists. reflexivity.
  - replace (js "client_" ++ clientIdText ++ js "_signature=" ++ signature
             ++ cookie_attributes expires)
      with ((js "client_" ++ clientIdText ++ js "_signature=" ++ signature)
            ++ cookie_attributes expires)
      by (rewrite <- !app_assoc; reflexivity).
    rewrite cookie_av_directive. eexists. reflexivity.
Qed.

(** A state that has a client identifier has the request information. *)
Lemma clientId_has_oauthReqInfo (state : json) (clientId : option json) :
  oauthReqInfo_clientId state = Ok clientId -> truthy clientId = true ->
  exists info, js_get state (js "oauthReqInfo") = Ok (Some info)
               /\ truthy (Some info) = true.
Proof.
  unfold oauthReqInfo_clientId.
  destruct (js_get state (js "oauthReqInfo")) as [[info|]|]; cbn [bind];
    [| intros [= <-]; discriminate | discriminate].
  destruct info; cbn [js_get];
    try (intros [= <-]; discriminate).
  intros _ _. eexists. split; reflexivity.
Qed.

(** The routes that answer a GET set no cookie. *)
Lemma get_routes_set_no_cookie (w : World) (env : Env) (req : Request) :
  answers no_cookie (get_authorize w env req)
  /\ answers no_cookie (get_callback w env req).
Proof.
  split; [apply get_authorize_no_cookie | apply get_callback_no_cookie].
Qed.

(** C8.  An approval does not issue two directives.  For the form that
    carries the sample request of client [abc], under the secret [secret]
    on 2 November 2026, [POST /authorize] answers with one [Set-Cookie]
    header whose value is both directive texts joined by a comma and a
    space.  Read as a directive, that value sets the one cookie
    [client_abc_approved=true]; the pair [client_abc_signature=...] is part
    of the value of its first [Expires] attribute.  Sent back, the cookie
    that was set does not count as an approval. *)
Theorem approval_sets_one_cookie :
  let request :=
    approval_request
      (JSON.stringify
         (JObj [(js "oauthReqInfo",
                 AuthRequest_json (sample_request (js "xyz-123")))])) in
  exists r,
    post_authorize (Routes.provider_with (sample_request (js "xyz-123")) JNull)
      sample_env request
    = ([], Ok r)
    /\ status r = 302
    /\ map fst (headers r) = [js "Set-Cookie"; js "location"]
    /\ set_cookie_values r
       = [js "client_abc_approved=true; Path=/; HttpOnly; Secure; SameSite=Strict; Expires=Tue, 02 Nov 2027 21:30:00 GMT, client_abc_signature=f1e380f6f390738d3c40662b10c7da1ce1f86594b83cb9e3774e644715335e05; Path=/; HttpOnly; Secure; SameSite=Strict; Expires=Tue, 02 Nov 2027 21:30:00 GMT"]
    /\ map cookie_pair (set_cookie_values r) = [js "client_abc_approved=true"]
    /\ map cookie_av (set_cookie_values r)
       = [[ js "Path=/"; js "HttpOnly"; js "Secure"; js "SameSite=Strict";
            js "Expires=Tue, 02 Nov 2027 21:30:00 GMT, client_abc_signature=f1e380f6f390738d3c40662b10c7da1ce1f86594b83cb9e3774e644715335e05";
            js "Path=/"; js "HttpOnly"; js "Secure"; js "SameSite=Strict";
            js "Expires=Tue, 02 Nov 2027 21:30:00 GMT" ]]
    /\ clientIdAlreadyApproved
         (request_with_cookie (js "client_abc_approved=true"))
         (js "abc") (js "secret")
       = Ok false.
Proof.
  cbn zeta. eexists. split; [vm_compute; reflexivity|].
  split; [reflexivity|]. split; [reflexivity|].
  split; [vm_compute; reflexivity|]. split; [vm_compute; reflexivity|].
  split; vm_compute; reflexivity.
Qed.

(** A client identifier is written into the directives as it is: one that
    contains a semicolon adds attributes of its own to the cookie, here
    [Max-Age=0] and a [Domain]. *)
Lemma client_id_adds_attributes :
  map cookie_av
    (approval_directives (js "x; Max-Age=0; Domain=example.org; y")
       (js "0f") (Some 1793655000123%Z))
  = [ [ js "Max-Age=0"; js "Domain=example.org"; js "y_approved=true";
        js "Path=/"; js "HttpOnly"; js "Secure"; js "SameSite=Strict";
        js "Expires=Mon, 02 Nov 2026 21:30:00 GMT" ];
      [ js "Max-Age=0"; js "Domain=example.org"; js "y_signature=0f";
        js "Path=/"; js "HttpOnly"; js "Secure"; js "SameSite=Strict";
        js "Expires=Mon, 02 Nov 2026 21:30:00 GMT" ] ].
Proof. vm_compute. reflexivity. Qed.

End CookieFacts.

(** ** More on the cookie header *)

Module CookieHeaderFacts.
Import OAuthUtils.

Lemma String_split_no_sep (sep : N) (s : jsstring) :
  ~ In sep s -> String_split sep s = [s].
Proof.
  induction s as [|c t IH]; [reflexivity|]. intros Hnot. cbn [String_split].
  destruct (N.eqb_spec c sep) as [->|_]; [exfalso; apply Hnot; left; reflexivity|].
  rewrite IH; [reflexivity|]. intros Hin. apply Hnot. right. exact Hin.
Qed.

Lemma In_String_split (sep : N) (s seg : jsstring) (x : N) :
  In seg (String_split sep s) -> In x seg -> In x s.
Proof.
  revert seg. induction s as [|c t IH]; intros seg; cbn [String_split].
  - intros [<-|[]] [].
  - destruct (c =? sep).
    + intros [<-|Hin]; [intros []|]. intros Hx. right. exact (IH seg Hin Hx).
    + pose proof (StringFacts.String_split_nonempty sep t) as Hne.
      destruct (String_split sep t) as [|h r]; [congruence|].
      intros [<-|Hin] Hx.
      * destruct Hx as [<-|Hx]; [left; reflexivity|].
        right. apply (IH h); [left; reflexivity | exact Hx].
      * right. apply (IH seg); [right; exact Hin | exact Hx].
Qed.

Lemma In_drop_while (p : N -> bool) (s : jsstring) (x : N) :
  In x (drop_while p s) -> In x s.
Proof.
  induction s as [|c t IH]; [intros []|]. cbn [drop_while].
  destruct (p c); [intros H; right; exact (IH H) | intros H; exact H].
Qed.

Lemma In_String_trim (s : jsstring) (x : N) : In x (String_trim s) -> In x s.
Proof.
  unfold String_trim. intros H.
  apply in_rev, In_drop_while, in_rev, In_drop_while in H. exact H.
Qed.

(** A cookie without [=] leaves the mapping as it is. *)
Lemma parseCookie_no_equals (cookies : gmap (list N) (list N)) (cookie : jsstring) :
  ~ In 61 cookie -> parseCookie cookies cookie = Ok cookies.
Proof.
  intros Hnot. unfold parseCookie.
  rewrite String_split_no_sep; [reflexivity|].
  intros Hin. apply Hnot. exact (In_String_trim _ _ Hin).
Qed.

Lemma forEach_cookie_no_equals (cookies : gmap (list N) (list N))
    (segments : list jsstring) :
  (forall seg, In seg segments -> ~ In 61 seg) ->
  forEach_cookie cookies segments = Ok cookies.
Proof.
  induction segments as [|seg rest IH]; [reflexivity|]. intros H.
  cbn [forEach_cookie]. rewrite parseCookie_no_equals by (apply H; left; reflexivity).
  cbn [bind]. apply IH. intros s Hs. apply H. right. exact Hs.
Qed.

(** X1.  A header in which no [=] occurs (the empty header among them)
    parses to the empty mapping; it does not raise. *)
Theorem parseCookieHeader_no_equals (cookieHeader : jsstring)
    (Hnone : ~ In 61 cookieHeader) :
  parseCookieHeader cookieHeader = Ok ∅.
Proof.
  unfold parseCookieHeader. apply forEach_cookie_no_equals.
  intros seg Hseg Hin. apply Hnone. exact (In_String_split 59 _ seg 61 Hseg Hin).
Qed.

Lemma parseCookieHeader_no_equals_witness :
  parseCookieHeader (js "theme; lang ;; x") = Ok ∅.
Proof.
  apply (parseCookieHeader_no_equals (js "theme; lang ;; x")).
  vm_compute. intuition discriminate.
Defined.

Lemma uri_tokens_cons (c : N) (t : jsstring) :
  c <> 37 -> uri_tokens (c :: t) = UChar c :: uri_tokens t.
Proof.
  intros Hc. destruct c as [|p]; [reflexivity|].
  do 6 (try destruct p as [p|p|]); try reflexivity. congruence.
Qed.

Lemma uri_tokens_plain (s : jsstring) :
  ~ In 37 s -> uri_tokens s = map UChar s.
Proof.
  induction s as [|c t IH]; [reflexivity|]. intros Hnot.
  rewrite uri_tokens_cons by (intros ->; apply Hnot; left; reflexivity).
  cbn [map]. rewrite IH; [reflexivity|]. intros Hin. apply Hnot. right. exact Hin.
Qed.

Lemma uri_decode_chars (s : jsstring) : uri_decode (map UChar s) = Ok s.
Proof.
  induction s as [|c t IH]; [reflexivity|]. cbn [map uri_decode].
  rewrite IH. reflexivity.
Qed.

(** A string without percent sign decodes to itself. *)
Lemma decodeURIComponent_plain (s : jsstring) :
  ~ In 37 s -> decodeURIComponent s = Ok s.
Proof.
  intros H. unfold decodeURIComponent. rewrite uri_tokens_plain by exact H.
  apply uri_decode_chars.
Qed.

Lemma bind_Throw {A B} (r : result A) (k : A -> result B) (e : JsError) :
  bind r k = Throw e ->
  r = Throw e \/ exists a, r = Ok a /\ k a = Throw e.
Proof.
  destruct r as [a|e']; cbn [bind]; intros H.
  - right. exists a. split; [reflexivity | exact H].
  - left. injection H as ->. reflexivity.
Qed.

(** Decoding raises nothing but a URIError. *)
Lemma uri_decode_error (ts : list uri_token) (e : JsError) :
  uri_decode ts = Throw e -> e = URIError.
Proof.
  revert e.
  assert (Hk : forall (r : result jsstring) (f : jsstring -> jsstring) e,
             (forall e', r = Throw e' -> e' = URIError) ->
             (let! x := r in Ok (f x)) = Throw e -> e = URIError).
  { intros r f e Hr H. destruct r as [x|e']; cbn [bind] in H; [discriminate|].
    injection H as <-. apply Hr. reflexivity. }
  induction ts as [ts IH] using (induction_ltof1 _ (@length uri_token)).
  unfold ltof in IH. intros e.
  destruct ts as [|[c|b|] t]; cbn [uri_decode].
  - discriminate.
  - apply Hk. intros e'. apply IH. cbn. lia.
  - repeat match goal with
           | |- context [if ?c then _ else _] => destruct c
           | |- context [match ?l with [] => _ | _ :: _ => _ end] => destruct l
           | |- context [match ?u with UChar _ => _ | UByte _ => _ | UBad => _ end] =>
               destruct u
           end;
      try (intros [= <-]; reflexivity);
      apply Hk; intros e'; apply IH; cbn; lia.
  - intros [= <-]. reflexivity.
Qed.

Lemma parseCookie_outcome (cookies : gmap (list N) (list N)) (cookie : jsstring) :
  (forall e, parseCookie cookies cookie = Throw e -> e = URIError)
  /\ (~ In 37 cookie -> exists cookies', parseCookie cookies cookie = Ok cookies').
Proof.
  unfold parseCookie.
  destruct (String_split 61 (String_trim cookie)) as [|name [|value rest]] eqn:E;
    try (split; [discriminate | eexists; reflexivity]).
  destruct name as [|n name]; [split; [discriminate | eexists; reflexivity]|].
  destruct value as [|v value]; [split; [discriminate | eexists; reflexivity]|].
  split.
  - intros e H. apply bind_Throw in H as [H | (a & _ & H)]; [|discriminate].
    exact (uri_decode_error _ _ H).
  - intros Hnot. rewrite decodeURIComponent_plain; [eexists; reflexivity|].
    intros Hin. apply Hnot. apply In_String_trim.
    apply (In_String_split 61 _ (v :: value)); [|exact Hin].
    rewrite E. right. left. reflexivity.
Qed.

Lemma forEach_cookie_outcome (segments : list jsstring) :
  forall cookies,
    (forall e, forEach_cookie cookies segments = Throw e -> e = URIError)
    /\ ((forall seg, In seg segments -> ~ In 37 seg) ->
        exists cookies', forEach_cookie cookies segments = Ok cookies').
Proof.
  induction segments as [|seg rest IH]; intros cookies; cbn [forEach_cookie].
  - split; [discriminate | eexists; reflexivity].
  - destruct (parseCookie_outcome cookies seg) as [Herr Hok]. split.
    + intros e H. apply bind_Throw in H as [H | (c' & _ & H)].
      * exact (Herr e H).
      * exact (proj1 (IH c') e H).
    + intros Hall. destruct (Hok (Hall seg (or_introl eq_refl))) as (c' & ->).
      cbn [bind]. apply (proj2 (IH c')). intros s Hs. apply Hall. right. exact Hs.
Qed.

(** X2.  Parsing a cookie header raises only a URIError, and only when a
    percent sign occurs in the header. *)
Theorem parseCookieHeader_raises (cookieHeader : jsstring) (e : JsError)
    (Hraises : parseCookieHeader cookieHeader = Throw e) :
  e = URIError /\ In 37 cookieHeader.
Proof.
  unfold parseCookieHeader in Hraises.
  destruct (forEach_cookie_outcome (String_split 59 cookieHeader) ∅) as [Herr Hok].
  split; [exact (Herr e Hraises)|].
  destruct (in_dec N.eq_dec 37 cookieHeader) as [Hin|Hnot]; [exact Hin|].
  exfalso. destruct Hok as (c' & Hc').
  - intros seg Hseg Hin. apply Hnot.
    exact (In_String_split 59 _ seg 37 Hseg Hin).
  - congruence.
Qed.

Lemma parseCookieHeader_raises_witness :
  URIError = URIError /\ In 37 (js "theme=100%").
Proof.
  apply (parseCookieHeader_raises (js "theme=100%") URIError).
  vm_compute. reflexivity.
Defined.

End CookieHeaderFacts.

(** ** More on the approval check *)

Module ApprovalCheckFacts.
Import OAuthUtils HexFacts SigningFacts.

(** X3.  The approval check raises exactly when the cookie header does not
    parse, or when both cookies are present and either the key is empty
    (DataError) or nothing of the signature cookie matches [/.{1,2}/g]
    (TypeError). *)
Theorem clientIdAlreadyApproved_raises_iff
    (request : Request) (clientId encryptionKey : jsstring) (e : JsError) :
  clientIdAlreadyApproved request clientId encryptionKey = Throw e
  <-> exists cookieHeader,
        req_cookie request = Some cookieHeader
        /\ (parseCookieHeader cookieHeader = Throw e
            \/ exists cookies approvalCookie signatureCookie,
                 parseCookieHeader cookieHeader = Ok cookies
                 /\ cookies !! approved_name clientId = Some approvalCookie
                 /\ approvalCookie <> []
                 /\ cookies !! signature_name clientId = Some signatureCookie
                 /\ signatureCookie <> []
                 /\ ((encryptionKey = [] /\ e = DataError)
                     \/ (encryptionKey <> []
                         /\ match_chunks signatureCookie = []
                         /\ e = TypeError))).
Proof.
  unfold clientIdAlreadyApproved. split.
  - destruct (req_cookie request) as [[|c h]|]; try discriminate.
    intros H. exists (c :: h). split; [reflexivity|].
    destruct (parseCookieHeader (c :: h)) as [cookies|e'] eqn:Hp;
      [|left; cbn [bind] in H; injection H as <-; reflexivity].
    right. cbn [bind] in H.
    destruct (cookies !! approved_name clientId) as [[|a av]|] eqn:Ha;
      try discriminate.
    destruct (cookies !! signature_name clientId) as [[|b bv]|] eqn:Hs;
      try discriminate.
    exists cookies, (a :: av), (b :: bv).
    repeat (split; [first [reflexivity | discriminate | assumption]|]).
    destruct (getSigningKey_cases encryptionKey) as [[Hk Hkey]|[Hk Hkey]];
      rewrite Hkey in H; cbn [bind] in H.
    + left. split; [exact Hk | congruence].
    + right. split; [exact Hk|].
      destruct (verifySignature _ (b :: bv) (a :: av)) as [v|e'] eqn:Hv;
        [discriminate|].
      cbn [bind] in H. injection H as <-.
      destruct (verifySignature_never_other_fault _ _ _ _ Hv) as [-> Hm].
      split; [exact Hm | reflexivity].
  - intros (h & -> & [Hp | (cookies & a & s & Hp & Ha & Hane & Hs & Hsne & Hcause)]).
    + destruct h as [|c h]; [discriminate Hp|]. rewrite Hp. reflexivity.
    + destruct h as [|c h].
      { change (parseCookieHeader []) with (@Ok (gmap (list N) (list N)) ∅) in Hp.
        injection Hp as <-. rewrite lookup_empty in Ha. discriminate. }
      rewrite Hp. cbn [bind]. rewrite Ha, Hs.
      destruct a as [|a0 a]; [congruence|]. destruct s as [|s0 s]; [congruence|].
      destruct Hcause as [[-> ->] | (Hk & Hm & ->)]; [reflexivity|].
      rewrite (getSigningKey_Ok _ Hk). cbn [bind].
      rewrite verifySignature_spec, Hm. reflexivity.
Qed.

(** X25.  The approval check answers [true] exactly when the request has
    a [Cookie] header that parses, with the approval cookie of the client
    equal to "true" and a signature cookie that verifies against "true"
    under the server's secret. *)
Theorem approval_check_true_iff
    (request : Request) (clientId encryptionKey : jsstring) :
  clientIdAlreadyApproved request clientId encryptionKey = Ok true
  <-> exists cookieHeader cookies signatureCookie,
        req_cookie request = Some cookieHeader
        /\ parseCookieHeader cookieHeader = Ok cookies
        /\ cookies !! approved_name clientId = Some (js "true")
        /\ cookies !! signature_name clientId = Some signatureCookie
        /\ verify encryptionKey signatureCookie (js "true") = Ok true.
Proof. apply SigningFacts.clientIdAlreadyApproved_true_iff. Qed.

End ApprovalCheckFacts.

(** ** More on signatures *)

Module SignatureFacts.
Import OAuthUtils HexFacts SigningFacts.

Lemma hex_of_byte_lower (b : N) :
  b < 256 -> forallb is_lower_hex (hex_of_byte b) = true.
Proof.
  intros Hb.
  apply (byte_cases (fun b => forallb is_lower_hex (hex_of_byte b)));
    [vm_compute; reflexivity | exact Hb].
Qed.

Lemma hex_string_format (l : list N) :
  Forall is_byte l ->
  length (concat (map hex_of_byte l)) = (2 * length l)%nat
  /\ forallb is_lower_hex (concat (map hex_of_byte l)) = true.
Proof.
  induction 1 as [|b l Hb _ [IHlen IHhex]]; [split; reflexivity|].
  cbn [map concat]. rewrite length_app, forallb_app, IHlen, IHhex.
  rewrite (hex_of_byte_lower b Hb). split; [cbn [hex_of_byte length]; lia | reflexivity].
Qed.

(** A signature is never empty and has only lowercase hexadecimal digits. *)
Lemma signData_hex (key : CryptoKey) (data : jsstring) :
  signData key data <> []
  /\ forallb is_lower_hex (signData key data) = true.
Proof.
  unfold signData, subtle_sign.
  destruct (hex_string_format _ (hmac_bytes (key_raw key) (enc_encode data)))
    as [Hlen Hhex].
  split; [|exact Hhex]. intros E. rewrite E, hmac_length in Hlen.
  discriminate Hlen.
Qed.

(** X4.  A signature is a string of 64 lowercase hexadecimal digits,
    whatever the key and the data. *)
Theorem signData_format (key : CryptoKey) (data : jsstring) :
  length (signData key data) = 64%nat
  /\ forallb is_lower_hex (signData key data) = true.
Proof.
  unfold signData, subtle_sign.
  destruct (hex_string_format _ (hmac_bytes (key_raw key) (enc_encode data)))
    as [Hlen Hhex].
  rewrite Hlen, hmac_length. split; [reflexivity | exact Hhex].
Qed.

Lemma match_chunks_length (s : jsstring) :
  (length (match_chunks s) <= length s)%nat.
Proof.
  induction s as [s IH] using (induction_ltof1 _ (@length N)). unfold ltof in IH.
  destruct s as [|a [|b t]].
  - cbn. lia.
  - cbn [match_chunks]. destruct (is_line_terminator a); cbn [length]; lia.
  - change (match_chunks (a :: b :: t))
      with (if is_line_terminator a then match_chunks (b :: t)
            else if is_line_terminator b then [a] :: match_chunks t
                 else [a; b] :: match_chunks t).
    pose proof (IH (b :: t) ltac:(cbn [length]; lia)) as H1.
    pose proof (IH t ltac:(cbn [length]; lia)) as H2.
    cbn [length] in *.
    destruct (is_line_terminator a); [lia|].
    destruct (is_line_terminator b); cbn [length]; lia.
Qed.

(** X5.  A signature that verifies is cut by [/.{1,2}/g] into exactly 32
    pieces; in particular no string of fewer than 32 characters verifies. *)
Theorem verifySignature_true_length
    (key : CryptoKey) (signatureHex data : jsstring)
    (Hverified : verifySignature key signatureHex data = Ok true) :
  length (match_chunks signatureHex) = 32%nat
  /\ (32 <= length signatureHex)%nat.
Proof.
  rewrite verifySignature_spec in Hverified.
  assert (Hlen : length (match_chunks signatureHex) = 32%nat).
  { destruct (match_chunks signatureHex) as [|c cs]; [discriminate|].
    injection Hverified as Hb. apply bool_decide_eq_true in Hb.
    apply (f_equal (@length N)) in Hb. rewrite hmac_length in Hb.
    cbn [map length] in *. rewrite length_map in Hb. exact Hb. }
  split; [exact Hlen|]. pose proof (match_chunks_length signatureHex). lia.
Qed.

Lemma verifySignature_true_length_witness :
  length (match_chunks
            (js "f1e380f6f390738d3c40662b10c7da1ce1f86594b83cb9e3774e644715335e05"))
  = 32%nat
  /\ (32 <= length
              (js "f1e380f6f390738d3c40662b10c7da1ce1f86594b83cb9e3774e644715335e05"))%nat.
Proof.
  apply (verifySignature_true_length (mkKey (js "secret")) _ (js "true")).
  vm_compute. reflexivity.
Defined.

End SignatureFacts.

(** ** From the directives of an approval to the approval check *)

Module ApprovalRoundTrip.
Import OAuthUtils HexFacts SigningFacts CookieHeaderFacts SignatureFacts.

Lemma drop_while_whitespace (lead s : jsstring) (c : N) :
  forallb is_js_whitespace lead = true -> is_js_whitespace c = false ->
  drop_while is_js_whitespace (lead ++ c :: s) = c :: s.
Proof.
  intros Hlead Hc. induction lead as [|l lead IH]; cbn [app drop_while].
  - rewrite Hc. reflexivity.
  - cbn [forallb] in Hlead. apply andb_prop in Hlead as [-> Hlead].
    exact (IH Hlead).
Qed.

(** Trimming removes leading white space and stops at the text. *)
Lemma String_trim_text (lead body : jsstring) (c z : N) :
  forallb is_js_whitespace lead = true ->
  is_js_whitespace c = false -> is_js_whitespace z = false ->
  String_trim (lead ++ c :: body ++ [z]) = c :: body ++ [z].
Proof.
  intros Hlead Hc Hz. unfold String_trim.
  rewrite (drop_while_whitespace lead (body ++ [z]) c Hlead Hc).
  change (c :: body ++ [z]) with ((c :: body) ++ [z]).
  rewrite rev_app_distr. cbn [rev app drop_while]. rewrite Hz.
  change (z :: rev body ++ [c]) with (rev [z] ++ rev (c :: body)).
  rewrite <- rev_app_distr, rev_involutive. reflexivity.
Qed.

Lemma lower_hex_plain (c : N) :
  is_lower_hex c = true ->
  c <> 59 /\ c <> 61 /\ c <> 37 /\ is_js_whitespace c = false.
Proof.
  unfold is_lower_hex. intros H.
  assert (Hr : (48 <= c <= 57) \/ (97 <= c <= 102)).
  { apply orb_prop in H as [H|H]; apply andb_prop in H as [H1 H2];
      apply N.leb_le in H1, H2; lia. }
  repeat split; try lia.
  unfold is_js_whitespace.
  repeat match goal with
         | |- context [N.eqb c ?k] => rewrite (proj2 (N.eqb_neq c k)) by lia
         end.
  destruct (N.leb_spec 0x2000 c); [lia | reflexivity].
Qed.

Lemma lower_hex_not_In (s : jsstring) (k : N) :
  forallb is_lower_hex s = true -> k = 59 \/ k = 61 \/ k = 37 -> ~ In k s.
Proof.
  intros H Hk Hin. rewrite forallb_forall in H.
  destruct (lower_hex_plain k (H k Hin)) as (H1 & H2 & H3 & _).
  destruct Hk as [-> | [-> | ->]]; congruence.
Qed.

Lemma not_In_app (k : N) (a b : jsstring) :
  ~ In k a -> ~ In k b -> ~ In k (a ++ b).
Proof. intros Ha Hb Hin. apply in_app_or in Hin as [H|H]; auto. Qed.

(** One well-formed cookie is stored under its name. *)
Lemma parseCookie_pair (cookies : gmap (list N) (list N))
    (lead name body : jsstring) (c z : N) :
  forallb is_js_whitespace lead = true ->
  is_js_whitespace c = false -> c <> 95 ->
  is_js_whitespace z = false ->
  ~ In 61 (c :: name) -> ~ In 61 (body ++ [z]) -> ~ In 37 (body ++ [z]) ->
  parseCookie cookies (lead ++ (c :: name) ++ 61 :: body ++ [z])
  = Ok (<[c :: name := body ++ [z]]> cookies).
Proof.
  intros Hlead Hc Hc' Hz Hname Hv1 Hv2. unfold parseCookie.
  replace (lead ++ (c :: name) ++ 61 :: body ++ [z])
    with (lead ++ c :: (name ++ 61 :: body) ++ [z])
    by (cbn [app]; rewrite <- app_assoc; reflexivity).
  rewrite String_trim_text by assumption.
  replace (c :: (name ++ 61 :: body) ++ [z])
    with ((c :: name) ++ 61 :: (body ++ [z]))
    by (cbn [app]; rewrite <- app_assoc; reflexivity).
  rewrite StringFacts.String_split_app.
  rewrite (String_split_no_sep 61 (c :: name)) by exact Hname.
  rewrite (String_split_no_sep 61 (body ++ [z])) by exact Hv1.
  cbn [app].
  assert (Hv : exists v vs, body ++ [z] = v :: vs)
    by (destruct body; eexists; eexists; reflexivity).
  destruct Hv as (v & vs & Ev). rewrite Ev. rewrite <- Ev.
  rewrite decodeURIComponent_plain by exact Hv2. cbn [bind].
  unfold set_property.
  replace (jsstring_eqb (c :: name) (js "__proto__")) with false; [reflexivity|].
  symmetry. apply not_true_is_false. intros H. apply jsstring_eqb_eq in H.
  change (js "__proto__") with (95 :: js "_proto__") in H.
  injection H as H _. congruence.
Qed.

Lemma names_differ (a b : jsstring) :
  approved_name a <> signature_name b.
Proof.
  unfold approved_name, signature_name. intros H.
  change (js "_approved") with (js "_approve" ++ [100]) in H.
  change (js "_signature") with (js "_signatur" ++ [101]) in H.
  rewrite !app_assoc in H. apply app_inj_tail in H as [_ H]. discriminate H.
Qed.

Lemma approved_name_inj (a b : jsstring) :
  approved_name a = approved_name b -> a = b.
Proof.
  unfold approved_name. intros H. apply app_inv_head in H.
  apply app_inv_tail in H. exact H.
Qed.

Lemma name_without (k : N) (clientId : jsstring) (suffix : string) :
  ~ In k clientId -> ~ In k (js "lient_") -> ~ In k (js suffix) -> k <> 99 ->
  ~ In k (99 :: js "lient_" ++ clientId ++ js suffix).
Proof.
  intros Hc H1 H2 Hk [Hin|Hin]; [congruence|].
  apply in_app_or in Hin as [Hin|Hin]; [exact (H1 Hin)|].
  apply in_app_or in Hin as [Hin|Hin]; [exact (Hc Hin) | exact (H2 Hin)].
Qed.

Ltac closed_not_In := vm_compute; intuition discriminate.

(** The name and value of each directive of the approval. *)
Lemma cookie_pair_directive (name_value : jsstring) (expires : option Z) :
  ~ In 59 name_value ->
  cookie_pair (name_value ++ cookie_attributes expires) = name_value.
Proof.
  intros H. unfold cookie_pair.
  change (cookie_attributes expires)
    with (59 :: js " Path=/; HttpOnly; Secure; SameSite=Strict; Expires="
             ++ Date.toUTCString expires).
  rewrite StringFacts.String_split_app, (String_split_no_sep 59 name_value H).
  reflexivity.
Qed.

(** The jar made of the two pairs of an approval. *)
Lemma cookie_jar_approval (clientId signature : jsstring) (expires : option Z) :
  ~ In 59 clientId -> ~ In 59 signature ->
  cookie_jar (map cookie_pair (approval_directives clientId signature expires))
  = (approved_name clientId ++ 61 :: js "true")
    ++ 59 :: 32 :: (signature_name clientId ++ 61 :: signature).
Proof.
  intros Hc Hs. unfold approval_directives. cbn [map cookie_jar].
  replace (js "client_" ++ clientId ++ js "_approved=true"
           ++ cookie_attributes expires)
    with ((approved_name clientId ++ 61 :: js "true") ++ cookie_attributes expires)
    by (unfold approved_name; rewrite <- !app_assoc; reflexivity).
  replace (js "client_" ++ clientId ++ js "_signature=" ++ signature
           ++ cookie_attributes expires)
    with ((signature_name clientId ++ 61 :: signature) ++ cookie_attributes expires)
    by (unfold signature_name; rewrite <- !app_assoc; reflexivity).
  rewrite !cookie_pair_directive; [reflexivity| |].
  - apply not_In_app; [|intros [H|H]; [discriminate H | exact (Hs H)]].
    apply (name_without 59 clientId "_signature");
      [exact Hc | closed_not_In | closed_not_In | discriminate].
  - apply not_In_app; [|closed_not_In].
    apply (name_without 59 clientId "_approved");
      [exact Hc | closed_not_In | closed_not_In | discriminate].
Qed.

(** What the check reads from that jar. *)
Lemma parse_approval_jar (clientId signature : jsstring) :
  ~ In 59 clientId -> ~ In 61 clientId ->
  forallb is_lower_hex signature = true -> signature <> [] ->
  parseCookieHeader
    ((approved_name clientId ++ 61 :: js "true")
     ++ 59 :: 32 :: (signature_name clientId ++ 61 :: signature))
  = Ok (<[signature_name clientId := signature]>
          (<[approved_name clientId := js "true"]> ∅)).
Proof.
  intros Hc1 Hc2 Hhex Hne. unfold parseCookieHeader.
  destruct (exists_last Hne) as (body & z & ->).
  assert (Hz : is_lower_hex z = true).
  { rewrite forallb_app in Hhex. apply andb_prop in Hhex as [_ Hz].
    cbn [forallb] in Hz. rewrite andb_true_r in Hz. exact Hz. }
  destruct (lower_hex_plain z Hz) as (_ & _ & _ & Hzws).
  rewrite StringFacts.String_split_app.
  rewrite (String_split_no_sep 59 (approved_name clientId ++ 61 :: js "true")).
  2:{ apply not_In_app; [|closed_not_In].
      apply (name_without 59 clientId "_approved");
        [exact Hc1 | closed_not_In | closed_not_In | discriminate]. }
  rewrite (String_split_no_sep 59
             (32 :: signature_name clientId ++ 61 :: body ++ [z])).
  2:{ intros [H|H]; [discriminate H|]. revert H. apply not_In_app.
      - apply (name_without 59 clientId "_signature");
          [exact Hc1 | closed_not_In | closed_not_In | discriminate].
      - intros [H|H]; [discriminate H|].
        exact (lower_hex_not_In _ 59 Hhex (or_introl eq_refl) H). }
  assert (P1 : parseCookie ∅ (approved_name clientId ++ 61 :: js "true")
               = Ok (<[approved_name clientId := js "true"]> ∅)).
  { refine (parseCookie_pair ∅ [] (js "lient_" ++ clientId ++ js "_approved")
              (js "tru") 99 101 eq_refl eq_refl _ eq_refl _ _ _).
    - discriminate.
    - apply (name_without 61 clientId "_approved");
        [exact Hc2 | closed_not_In | closed_not_In | discriminate].
    - closed_not_In.
    - closed_not_In. }
  assert (P2 : forall cookies,
             parseCookie cookies
               (32 :: signature_name clientId ++ 61 :: body ++ [z])
             = Ok (<[signature_name clientId := body ++ [z]]> cookies)).
  { intros cookies.
    refine (parseCookie_pair cookies [32]
              (js "lient_" ++ clientId ++ js "_signature")
              body 99 z eq_refl eq_refl _ Hzws _ _ _).
    - discriminate.
    - apply (name_without 61 clientId "_signature");
        [exact Hc2 | closed_not_In | closed_not_In | discriminate].
    - exact (lower_hex_not_In _ 61 Hhex (or_intror (or_introl eq_refl))).
    - exact (lower_hex_not_In _ 37 Hhex (or_intror (or_intror eq_refl))). }
  change (forEach_cookie ∅ ([?a] ++ [?b]))
    with (bind (parseCookie ∅ a)
               (fun c1 => bind (parseCookie c1 b) (fun c2 => Ok c2))).
  rewrite P1. cbn [bind]. rewrite P2. reflexivity.
Qed.

Lemma jar_request (clientId signature : jsstring) (expires : option Z) :
  ~ In 59 clientId -> ~ In 59 signature ->
  exists c h,
    req_cookie (request_with_cookie
      (cookie_jar (map cookie_pair (approval_directives clientId signature expires))))
    = Some (c :: h)
    /\ c :: h = (approved_name clientId ++ 61 :: js "true")
                ++ 59 :: 32 :: (signature_name clientId ++ 61 :: signature).
Proof.
  intros Hc Hs. rewrite cookie_jar_approval by assumption.
  eexists. eexists. split; reflexivity.
Qed.

(** The check on a request that carries the cookies of an approval. *)
Lemma approval_jar_check (request : Request)
    (clientId s1 s : jsstring) (expires : option Z) :
  ~ In 59 clientId -> ~ In 61 clientId -> s <> [] ->
  req_cookie request
  = Some (cookie_jar
            (map cookie_pair
               (approval_directives clientId
                  (signData (mkKey (enc_encode s1)) (js "true")) expires))) ->
  clientIdAlreadyApproved request clientId s
  = Ok (bool_decide (SHA256.hmac (enc_encode s1) (enc_encode (js "true"))
                     = SHA256.hmac (enc_encode s) (enc_encode (js "true")))).
Proof.
  intros Hsemi Heq Hs Hcookie.
  set (key := mkKey (enc_encode s1)) in *.
  destruct (signData_hex key (js "true")) as [Hne Hhex].
  assert (Hs59 : ~ In 59 (signData key (js "true")))
    by exact (lower_hex_not_In _ 59 Hhex (or_introl eq_refl)).
  assert (Hreq : exists c h,
             req_cookie request = Some (c :: h)
             /\ c :: h = (approved_name clientId ++ 61 :: js "true")
                         ++ 59 :: 32 :: (signature_name clientId
                                         ++ 61 :: signData key (js "true"))).
  { rewrite Hcookie, cookie_jar_approval by assumption.
    eexists. eexists. split; reflexivity. }
  destruct Hreq as (c & h & Hreq & Hjar).
  unfold clientIdAlreadyApproved. rewrite Hreq. cbn iota beta.
  rewrite Hjar.
  rewrite (parse_approval_jar clientId _ Hsemi Heq Hhex Hne). cbn [bind].
  rewrite lookup_insert_ne by (intros E; exact (names_differ _ _ (eq_sym E))).
  rewrite lookup_insert_eq, lookup_insert_eq.
  destruct (signData key (js "true")) as [|g sg] eqn:Esig; [congruence|].
  change (js "true") with [116; 114; 117; 101] at 1.
  rewrite (getSigningKey_Ok s Hs). cbn [bind].
  rewrite <- Esig.
  change [116; 114; 117; 101] with (js "true").
  rewrite verifySignature_signData. cbn [bind key_raw key].
  rewrite andb_true_r. reflexivity.
Qed.

(** X6.  The cookies an approval issues for a client are accepted by the
    approval check for that client: with the two pairs in the [Cookie]
    header, the check under the secret [s2] answers whether [s2] gives
    "true" the same HMAC tag as the issuing secret [s1]; under the issuing
    secret it answers [true]. *)
Theorem issued_cookies_are_accepted
    (clientId s1 s2 : jsstring) (expires : option Z)
    (Hsemi : ~ In 59 clientId) (Heq : ~ In 61 clientId)
    (H1 : s1 <> []) (H2 : s2 <> []) :
  let issued :=
    approval_directives clientId
      (signData (mkKey (enc_encode s1)) (js "true")) expires in
  let request := request_with_cookie (cookie_jar (map cookie_pair issued)) in
  clientIdAlreadyApproved request clientId s2
  = Ok (bool_decide (SHA256.hmac (enc_encode s1) (enc_encode (js "true"))
                     = SHA256.hmac (enc_encode s2) (enc_encode (js "true"))))
  /\ clientIdAlreadyApproved request clientId s1 = Ok true.
Proof.
  cbn zeta.
  set (request :=
         request_with_cookie
           (cookie_jar
              (map cookie_pair
                 (approval_directives clientId
                    (signData (mkKey (enc_encode s1)) (js "true")) expires)))).
  split.
  - exact (approval_jar_check request clientId s1 s2 expires Hsemi Heq H2
             eq_refl).
  - rewrite (approval_jar_check request clientId s1 s1 expires Hsemi Heq H1
               eq_refl).
    f_equal. apply bool_decide_eq_true. reflexivity.
Qed.

Lemma issued_cookies_are_accepted_witness :
  clientIdAlreadyApproved
    (request_with_cookie
       (cookie_jar (map cookie_pair
          (approval_directives (js "abc")
             (signData (mkKey (enc_encode (js "secret"))) (js "true"))
             (expires_after 1793655000123)))))
    (js "abc") (js "secret") = Ok true.
Proof.
  exact (proj2 (issued_cookies_are_accepted (js "abc") (js "secret") (js "secret")
                  (expires_after 1793655000123)
                  ltac:(closed_not_In) ltac:(closed_not_In)
                  ltac:(discriminate) ltac:(discriminate))).
Defined.

(** X7.  The cookies issued for one client do not approve another: the
    check for a different client identifier answers [false]. *)
Theorem issued_cookies_are_per_client
    (clientId other secret signature : jsstring) (expires : option Z)
    (Hsemi : ~ In 59 clientId) (Heq : ~ In 61 clientId)
    (Hhex : forallb is_lower_hex signature = true) (Hne : signature <> [])
    (Hother : other <> clientId) :
  clientIdAlreadyApproved
    (request_with_cookie
       (cookie_jar (map cookie_pair (approval_directives clientId signature expires))))
    other secret
  = Ok false.
Proof.
  assert (Hs59 : ~ In 59 signature)
    by exact (lower_hex_not_In _ 59 Hhex (or_introl eq_refl)).
  destruct (jar_request clientId signature expires Hsemi Hs59)
    as (c & h & Hreq & Hjar).
  unfold clientIdAlreadyApproved. rewrite Hreq. cbn iota beta. rewrite Hjar.
  rewrite (parse_approval_jar clientId _ Hsemi Heq Hhex Hne). cbn [bind].
  rewrite lookup_insert_ne
    by (intros E; exact (names_differ _ _ (eq_sym E))).
  rewrite lookup_insert_ne
    by (intros E; apply approved_name_inj in E; congruence).
  rewrite lookup_empty. reflexivity.
Qed.

Lemma issued_cookies_are_per_client_witness :
  clientIdAlreadyApproved
    (request_with_cookie
       (cookie_jar (map cookie_pair
          (approval_directives (js "abc")
             (signData (mkKey (enc_encode (js "secret"))) (js "true"))
             (expires_after 1793655000123)))))
    (js "abd") (js "secret") = Ok false.
Proof.
  apply (issued_cookies_are_per_client (js "abc") (js "abd") (js "secret")).
  - closed_not_In.
  - closed_not_In.
  - vm_compute. reflexivity.
  - vm_compute. discriminate.
  - vm_compute. discriminate.
Defined.

Lemma no_semicolon_not_In (s : jsstring) :
  no_semicolon s = true -> ~ In 59 s.
Proof.
  unfold no_semicolon. rewrite forallb_forall. intros H Hin.
  specialize (H 59 Hin). discriminate H.
Qed.

(** X8.  The two directives travel in one header value, separated by a
    comma and a space.  Cut at semicolons, as one directive is read, that
    value has a single leading pair, [client_<id>_approved=true]; the
    signature pair lies inside the first [Expires] attribute. *)
Theorem set_cookie_value_as_one_directive
    (clientId signature : jsstring) (expires : option Z)
    (Hsemi : ~ In 59 clientId) (Hsig : ~ In 59 signature) :
  String_split 59
    (join_comma_space (approval_directives clientId signature expires))
  = [ approved_name clientId ++ 61 :: js "true";
      js " Path=/"; js " HttpOnly"; js " Secure"; js " SameSite=Strict";
      js " Expires=" ++ Date.toUTCString expires ++ js ", "
      ++ signature_name clientId ++ 61 :: signature;
      js " Path=/"; js " HttpOnly"; js " Secure"; js " SameSite=Strict";
      js " Expires=" ++ Date.toUTCString expires ].
Proof.
  set (D := Date.toUTCString expires).
  assert (E : join_comma_space (approval_directives clientId signature expires)
              = (approved_name clientId ++ 61 :: js "true")
                ++ 59 :: js " Path=/" ++ 59 :: js " HttpOnly"
                ++ 59 :: js " Secure" ++ 59 :: js " SameSite=Strict"
                ++ 59 :: (js " Expires=" ++ D ++ js ", "
                          ++ signature_name clientId ++ 61 :: signature)
                ++ 59 :: js " Path=/" ++ 59 :: js " HttpOnly"
                ++ 59 :: js " Secure" ++ 59 :: js " SameSite=Strict"
                ++ 59 :: (js " Expires=" ++ D)).
  { unfold approval_directives, join_comma_space, cookie_attributes,
      approved_name, signature_name. fold D.
    rewrite <- !app_assoc. reflexivity. }
  rewrite E. clear E.
  assert (HD : ~ In 59 D)
    by (apply no_semicolon_not_In, StringFacts.no_semicolon_toUTCString).
  assert (HP1 : ~ In 59 (approved_name clientId ++ 61 :: js "true")).
  { apply not_In_app; [|closed_not_In].
    apply (name_without 59 clientId "_approved");
      [exact Hsemi | closed_not_In | closed_not_In | discriminate]. }
  assert (HP2 : ~ In 59 (signature_name clientId ++ 61 :: signature)).
  { apply not_In_app; [|intros [H|H]; [discriminate H | exact (Hsig H)]].
    apply (name_without 59 clientId "_signature");
      [exact Hsemi | closed_not_In | closed_not_In | discriminate]. }
  rewrite !StringFacts.String_split_app.
  rewrite (String_split_no_sep 59 _ HP1).
  rewrite (String_split_no_sep 59 (js " Path=/")) by closed_not_In.
  rewrite (String_split_no_sep 59 (js " HttpOnly")) by closed_not_In.
  rewrite (String_split_no_sep 59 (js " Secure")) by closed_not_In.
  rewrite (String_split_no_sep 59 (js " SameSite=Strict")) by closed_not_In.
  rewrite (String_split_no_sep 59 (js " Expires=" ++ D)).
  2:{ apply not_In_app; [closed_not_In | exact HD]. }
  rewrite (String_split_no_sep 59
             (js " Expires=" ++ D ++ js ", "
              ++ signature_name clientId ++ 61 :: signature)).
  2:{ apply not_In_app; [closed_not_In|]. apply not_In_app; [exact HD|].
      apply not_In_app; [closed_not_In | exact HP2]. }
  reflexivity.
Qed.

Lemma set_cookie_value_as_one_directive_witness :
  String_split 59
    (join_comma_space (approval_directives (js "abc") (js "0f") None))
  = [ approved_name (js "abc") ++ 61 :: js "true";
      js " Path=/"; js " HttpOnly"; js " Secure"; js " SameSite=Strict";
      js " Expires=" ++ Date.toUTCString None ++ js ", "
      ++ signature_name (js "abc") ++ 61 :: js "0f";
      js " Path=/"; js " HttpOnly"; js " Secure"; js " SameSite=Strict";
      js " Expires=" ++ Date.toUTCString None ].
Proof.
  apply (set_cookie_value_as_one_directive (js "abc") (js "0f") None);
    closed_not_In.
Defined.

Lemma cookie_pair_prefix (name_value rest : jsstring) :
  ~ In 59 name_value -> cookie_pair (name_value ++ 59 :: rest) = name_value.
Proof.
  intros H. unfold cookie_pair.
  rewrite StringFacts.String_split_app, (String_split_no_sep 59 _ H).
  reflexivity.
Qed.

Lemma parse_approved_alone (clientId : jsstring) :
  ~ In 59 clientId -> ~ In 61 clientId ->
  parseCookieHeader (approved_name clientId ++ 61 :: js "true")
  = Ok (<[approved_name clientId := js "true"]> ∅).
Proof.
  intros Hc1 Hc2. unfold parseCookieHeader.
  rewrite (String_split_no_sep 59 (approved_name clientId ++ 61 :: js "true")).
  2:{ apply not_In_app; [|closed_not_In].
      apply (name_without 59 clientId "_approved");
        [exact Hc1 | closed_not_In | closed_not_In | discriminate]. }
  assert (P1 : parseCookie ∅ (approved_name clientId ++ 61 :: js "true")
               = Ok (<[approved_name clientId := js "true"]> ∅)).
  { refine (parseCookie_pair ∅ [] (js "lient_" ++ clientId ++ js "_approved")
              (js "tru") 99 101 eq_refl eq_refl _ eq_refl _ _ _).
    - discriminate.
    - apply (name_without 61 clientId "_approved");
        [exact Hc2 | closed_not_In | closed_not_In | discriminate].
    - closed_not_In.
    - closed_not_In. }
  cbn [forEach_cookie]. rewrite P1. reflexivity.
Qed.

(** X9.  A client that reads the header value as one [Set-Cookie]
    directive stores the pair [client_<id>_approved=true] alone; sent back,
    it does not count as an approval, since the signature is missing. *)
Theorem one_directive_is_not_an_approval
    (clientId signature secret : jsstring) (expires : option Z)
    (Hsemi : ~ In 59 clientId) (Heq : ~ In 61 clientId) :
  let value :=
    join_comma_space (approval_directives clientId signature expires) in
  cookie_pair value = approved_name clientId ++ 61 :: js "true"
  /\ clientIdAlreadyApproved (request_with_cookie (cookie_pair value))
       clientId secret
     = Ok false.
Proof.
  cbn zeta.
  assert (E : cookie_pair
                (join_comma_space (approval_directives clientId signature expires))
              = approved_name clientId ++ 61 :: js "true").
  { replace (join_comma_space (approval_directives clientId signature expires))
      with ((approved_name clientId ++ 61 :: js "true")
            ++ 59 :: (js " Path=/; HttpOnly; Secure; SameSite=Strict; Expires="
                      ++ Date.toUTCString expires ++ js ", "
                      ++ js "client_" ++ clientId ++ js "_signature="
                      ++ signature ++ cookie_attributes expires)).
    2:{ unfold approval_directives, join_comma_space, cookie_attributes,
          approved_name. rewrite <- !app_assoc. reflexivity. }
    apply cookie_pair_prefix. apply not_In_app; [|closed_not_In].
    apply (name_without 59 clientId "_approved");
      [exact Hsemi | closed_not_In | closed_not_In | discriminate]. }
  split; [exact E|]. rewrite E.
  assert (Hreq : exists c h,
             req_cookie (request_with_cookie
                           (approved_name clientId ++ 61 :: js "true"))
             = Some (c :: h)
             /\ c :: h = approved_name clientId ++ 61 :: js "true")
    by (eexists; eexists; split; reflexivity).
  destruct Hreq as (c & h & Hreq & Hjar).
  unfold clientIdAlreadyApproved. rewrite Hreq. cbn iota beta. rewrite Hjar.
  rewrite (parse_approved_alone clientId Hsemi Heq). cbn [bind].
  rewrite lookup_insert_eq.
  rewrite lookup_insert_ne by (intros E'; exact (names_differ _ _ E')).
  rewrite lookup_empty. reflexivity.
Qed.

Lemma one_directive_is_not_an_approval_witness :
  cookie_pair
    (join_comma_space
       (approval_directives (js "abc")
          (signData (mkKey (enc_encode (js "secret"))) (js "true"))
          (expires_after 1793655000123)))
  = approved_name (js "abc") ++ 61 :: js "true"
  /\ clientIdAlreadyApproved
       (request_with_cookie
          (cookie_pair
             (join_comma_space
                (approval_directives (js "abc")
                   (signData (mkKey (enc_encode (js "secret"))) (js "true"))
                   (expires_after 1793655000123)))))
       (js "abc") (js "secret")
     = Ok false.
Proof.
  apply (one_directive_is_not_an_approval (js "abc")
           (signData (mkKey (enc_encode (js "secret"))) (js "true"))
           (js "secret") (expires_after 1793655000123));
    closed_not_In.
Defined.

End ApprovalRoundTrip.

(** ** Escaping for the approval dialog *)

Module MarkupFacts.
Import OAuthUtils.

Lemma replace_char_app (c : N) (by_ a b : jsstring) :
  replace_char c by_ (a ++ b) = replace_char c by_ a ++ replace_char c by_ b.
Proof. unfold replace_char. rewrite map_app, concat_app. reflexivity. Qed.

Lemma replace_char_unit_ne (k : N) (by_ : jsstring) (c : N) :
  c <> k -> replace_char k by_ [c] = [c].
Proof.
  intros H. unfold replace_char. cbn [map concat].
  apply N.eqb_neq in H. rewrite H. reflexivity.
Qed.

Lemma encodeHtml_app (a b : jsstring) :
  encodeHtml (a ++ b) = encodeHtml a ++ encodeHtml b.
Proof. unfold encodeHtml. rewrite !replace_char_app. reflexivity. Qed.

Lemma encodeHtml_unit (c : N) : encodeHtml [c] = html_entity c.
Proof.
  unfold encodeHtml, html_entity.
  destruct (N.eqb_spec c 38) as [->|H1]; [vm_compute; reflexivity|].
  rewrite (replace_char_unit_ne 38) by exact H1.
  destruct (N.eqb_spec c 60) as [->|H2]; [vm_compute; reflexivity|].
  rewrite (replace_char_unit_ne 60) by exact H2.
  destruct (N.eqb_spec c 62) as [->|H3]; [vm_compute; reflexivity|].
  rewrite (replace_char_unit_ne 62) by exact H3.
  destruct (N.eqb_spec c 34) as [->|H4]; [vm_compute; reflexivity|].
  rewrite (replace_char_unit_ne 34) by exact H4.
  destruct (N.eqb_spec c 39) as [->|H5]; [vm_compute; reflexivity|].
  apply replace_char_unit_ne, H5.
Qed.

(** The five replacements in sequence are one pass over the code units. *)
Lemma encodeHtml_entities (s : jsstring) :
  encodeHtml s = concat (map html_entity s).
Proof.
  induction s as [|c t IH]; [reflexivity|].
  change (c :: t) with ([c] ++ t).
  rewrite encodeHtml_app, encodeHtml_unit, IH. reflexivity.
Qed.

Lemma html_entity_cases (c : N) :
  (c = 38 /\ html_entity c = js "&amp;")
  \/ (c = 60 /\ html_entity c = js "&lt;")
  \/ (c = 62 /\ html_entity c = js "&gt;")
  \/ (c = 34 /\ html_entity c = js "&quot;")
  \/ (c = 39 /\ html_entity c = js "&#x27;")
  \/ (c <> 38 /\ is_markup c = false /\ html_entity c = [c]).
Proof.
  unfold html_entity, is_markup.
  destruct (N.eqb_spec c 38) as [->|H1]; [left; split; reflexivity|].
  destruct (N.eqb_spec c 60) as [->|H2]; [right; left; split; reflexivity|].
  destruct (N.eqb_spec c 62) as [->|H3]; [do 2 right; left; split; reflexivity|].
  destruct (N.eqb_spec c 34) as [->|H4]; [do 3 right; left; split; reflexivity|].
  destruct (N.eqb_spec c 39) as [->|H5]; [do 4 right; left; split; reflexivity|].
  do 5 right. repeat split; assumption.
Qed.

Lemma html_entity_plain (c : N) : forallb (fun x => negb (is_markup x)) (html_entity c) = true.
Proof.
  destruct (html_entity_cases c)
    as [[_ ->] | [[_ ->] | [[_ ->] | [[_ ->] | [[_ ->] | (_ & H & ->)]]]]];
    try reflexivity.
  cbn [forallb]. rewrite H. reflexivity.
Qed.

(** Each entity can be told from what follows it. *)
Lemma html_entity_prefix (a b : N) (r1 r2 : jsstring) :
  html_entity a ++ r1 = html_entity b ++ r2 -> a = b /\ r1 = r2.
Proof.
  destruct (html_entity_cases a)
    as [[-> ->] | [[-> ->] | [[-> ->] | [[-> ->] | [[-> ->] | (Ha & _ & ->)]]]]];
  destruct (html_entity_cases b)
    as [[-> ->] | [[-> ->] | [[-> ->] | [[-> ->] | [[-> ->] | (Hb & _ & ->)]]]]];
  intros H; vm_compute in H; inversion H; subst;
    first [ congruence | split; reflexivity | split; congruence ].
Qed.

Lemma html_entity_nonempty (c : N) (r : jsstring) : html_entity c ++ r <> [].
Proof.
  destruct (html_entity_cases c)
    as [[_ ->] | [[_ ->] | [[_ ->] | [[_ ->] | [[_ ->] | (_ & _ & ->)]]]]];
    discriminate.
Qed.

(** X10.  Whatever the text, its escaped form contains no [<], no [>] and
    no quote of either kind: inside an attribute value or an element it
    cannot end the value or open a tag. *)
Theorem encodeHtml_no_markup (str : jsstring) :
  forallb (fun c => negb (is_markup c)) (encodeHtml str) = true.
Proof.
  rewrite encodeHtml_entities.
  induction str as [|c t IH]; [reflexivity|].
  cbn [map concat]. rewrite forallb_app, html_entity_plain, IH. reflexivity.
Qed.

(** X11.  Escaping loses nothing: two texts with the same escaped form
    are the same text. *)
Theorem encodeHtml_injective (a b : jsstring)
    (Hsame : encodeHtml a = encodeHtml b) : a = b.
Proof.
  rewrite !encodeHtml_entities in Hsame. revert b Hsame.
  induction a as [|x a IH]; intros [|y b] H; cbn [map concat] in H.
  - reflexivity.
  - symmetry in H. destruct (html_entity_nonempty _ _ H).
  - destruct (html_entity_nonempty _ _ H).
  - apply html_entity_prefix in H as [-> H]. rewrite (IH b H). reflexivity.
Qed.

Lemma encodeHtml_injective_witness :
  js "a<b & 'c'" = js "a<b & 'c'".
Proof.
  apply (encodeHtml_injective (js "a<b & 'c'") (js "a<b & 'c'")).
  reflexivity.
Defined.

End MarkupFacts.

(** ** The upstream authorization URL *)

Module AuthorizeUrlFacts.
Import OAuthUtils CookieHeaderFacts.

Lemma hex_upper_plain (d : N) : URL.hex_upper d <> 38 /\ URL.hex_upper d <> 61.
Proof.
  unfold URL.hex_upper. destruct (N.ltb_spec d 10); split; lia.
Qed.

(** No byte is written as [&] or as [=]. *)
Lemma encode_byte_plain (b k : N) :
  k = 38 \/ k = 61 -> ~ In k (URL.encode_byte b).
Proof.
  intros Hk. unfold URL.encode_byte.
  destruct (URL.is_unreserved b) eqn:Hb.
  - intros [<-|[]]. destruct Hk as [-> | ->]; discriminate Hb.
  - destruct (b =? 32).
    + intros [<-|[]]. destruct Hk as [Hk|Hk]; discriminate Hk.
    + pose proof (hex_upper_plain (b / 16)) as [H1 H2].
      pose proof (hex_upper_plain (b mod 16)) as [H3 H4].
      intros [<-|[<-|[<-|[]]]]; destruct Hk as [Hk|Hk];
        first [discriminate Hk | congruence].
Qed.

Lemma urlencode_plain (s : jsstring) (k : N) :
  k = 38 \/ k = 61 -> ~ In k (URL.urlencode s).
Proof.
  intros Hk. unfold URL.urlencode.
  induction (enc_encode s) as [|b t IH]; cbn [map concat]; [intros []|].
  intros Hin. apply in_app_or in Hin as [Hin|Hin].
  - exact (encode_byte_plain b k Hk Hin).
  - exact (IH Hin).
Qed.

(** A name and a value, encoded, read back as the two sides of one [=]. *)
Lemma split_pair (k v : jsstring) :
  String_split 61 (URL.urlencode k ++ [61] ++ URL.urlencode v)
  = [URL.urlencode k; URL.urlencode v].
Proof.
  cbn [app]. rewrite StringFacts.String_split_app.
  rewrite !String_split_no_sep by (apply urlencode_plain; right; reflexivity).
  reflexivity.
Qed.

Lemma pair_plain (k v : jsstring) :
  ~ In 38 (URL.urlencode k ++ [61] ++ URL.urlencode v).
Proof.
  intros Hin. apply in_app_or in Hin as [Hin|Hin].
  - exact (urlencode_plain k 38 (or_introl eq_refl) Hin).
  - apply in_app_or in Hin as [[Hin|[]]|Hin]; [discriminate Hin|].
    exact (urlencode_plain v 38 (or_introl eq_refl) Hin).
Qed.

(** The serialized parameters, cut at [&] and then at [=], are the
    encoded names and values, one pair for each parameter. *)
Lemma serialize_pairs (params : list (jsstring * jsstring)) :
  params <> [] ->
  map (String_split 61) (String_split 38 (URL.serialize params))
  = map (fun kv => [URL.urlencode (fst kv); URL.urlencode (snd kv)]) params.
Proof.
  induction params as [|[k v] t IH]; [congruence|]. intros _.
  destruct t as [|kv t].
  - cbn [URL.serialize map fst snd].
    rewrite (String_split_no_sep 38) by apply pair_plain.
    cbn [map]. rewrite split_pair. reflexivity.
  - change (URL.serialize ((k, v) :: kv :: t))
      with (URL.urlencode k ++ [61] ++ URL.urlencode v ++ [38]
            ++ URL.serialize (kv :: t)).
    replace (URL.urlencode k ++ [61] ++ URL.urlencode v ++ [38]
             ++ URL.serialize (kv :: t))
      with ((URL.urlencode k ++ [61] ++ URL.urlencode v)
            ++ 38 :: URL.serialize (kv :: t))
      by (rewrite <- !app_assoc; reflexivity).
    rewrite StringFacts.String_split_app.
    rewrite (String_split_no_sep 38 (URL.urlencode k ++ [61] ++ URL.urlencode v))
      by apply pair_plain.
    cbn [app map fst snd]. rewrite IH by discriminate.
    change (61 :: URL.urlencode v) with ([61] ++ URL.urlencode v).
    rewrite split_pair. reflexivity.
Qed.

(** X12.  For the upstream URL the route passes, the result is that URL, a
    question mark and a query that a reader cutting at [&] and [=] sees as
    exactly five pairs, in the order the source sets them, whatever
    characters the values contain. *)
Theorem authorize_url_parameters (params : UpstreamParams)
    (Hupstream : upstream_url params
                 = js "https://accounts.google.com/o/oauth2/v2/auth") :
  exists query,
    getUpstreamAuthorizeUrl params
    = js "https://accounts.google.com/o/oauth2/v2/auth?" ++ query
    /\ map (String_split 61) (String_split 38 query)
       = [ [js "response_type"; js "code"];
           [js "client_id"; URL.urlencode (client_id params)];
           [js "redirect_uri"; URL.urlencode (redirect_uri params)];
           [js "scope"; URL.urlencode (scope params)];
           [js "state"; URL.urlencode (state params)] ].
Proof.
  unfold getUpstreamAuthorizeUrl. rewrite Hupstream.
  eexists. split; [reflexivity|].
  rewrite serialize_pairs by discriminate. reflexivity.
Qed.

Lemma authorize_url_parameters_witness :
  exists query,
    getUpstreamAuthorizeUrl
      (mkUpstreamParams (js "id&scope=all") (js "https://mcp.example/callback")
         (js "openid email profile") (js "e30=")
         (js "https://accounts.google.com/o/oauth2/v2/auth"))
    = js "https://accounts.google.com/o/oauth2/v2/auth?" ++ query
    /\ map (String_split 61) (String_split 38 query)
       = [ [js "response_type"; js "code"];
           [js "client_id"; URL.urlencode (js "id&scope=all")];
           [js "redirect_uri";
            URL.urlencode (js "https://mcp.example/callback")];
           [js "scope"; URL.urlencode (js "openid email profile")];
           [js "state"; URL.urlencode (js "e30=")] ].
Proof.
  apply (authorize_url_parameters
           (mkUpstreamParams (js "id&scope=all")
              (js "https://mcp.example/callback")
              (js "openid email profile") (js "e30=")
              (js "https://accounts.google.com/o/oauth2/v2/auth"))).
  reflexivity.
Defined.

End AuthorizeUrlFacts.

(** ** The authorization routes *)

Module RouteFacts.
Import OAuthUtils AllowedUsers GoogleHandler Routes CallbackFacts CookieFacts.
Import CookieHeaderFacts ApprovalRoundTrip.

Lemma silent_bindE {A B} (m : Eff A) (k : A -> Eff B) :
  fst m = [] -> (forall a, fst (k a) = []) -> fst (bindE m k) = [].
Proof.
  intros Hm Hk. rewrite bindE_pair. destruct (snd m) as [a|e]; cbn [fst].
  - rewrite Hm, Hk. reflexivity.
  - exact Hm.
Qed.

Lemma redirectToGoogle_shape (request : Request) (oauthReqInfo : json)
    (env : Env) (hs : list (jsstring * jsstring)) :
  match redirectToGoogle request oauthReqInfo env hs with
  | Ok r => status r = 302 /\ body r = None
            /\ exists filled location,
                 map fst filled = map fst hs
                 /\ headers r = filled ++ [(js "location", location)]
  | Throw _ => True
  end.
Proof.
  unfold redirectToGoogle.
  destruct (encode_state oauthReqInfo) as [state|]; cbn [bind]; [|exact I].
  destruct (Headers_fill hs) as [filled|] eqn:Hfill; cbn [bind]; [|exact I].
  cbn [status body headers]. repeat split.
  exists filled. eexists. split; [|reflexivity].
  exact (Headers_fill_names hs filled Hfill).
Qed.

(** X13.  [POST /authorize] calls no collaborator and logs nothing.  When
    it answers, the answer is a redirect: status 302, no body, and the two
    headers [Set-Cookie] and [location], in that order.  The answer
    "Invalid request" of the route is never given: a form without request
    information makes [parseRedirectApproval] raise before. *)
Theorem post_authorize_always_redirects (w : World) (env : Env) (req : Request) :
  fst (post_authorize w env req) = []
  /\ answers (fun r => status r = 302 /\ body r = None
                       /\ exists cookie location,
                            headers r = [ (js "Set-Cookie", cookie);
                                          (js "location", location) ])
             (post_authorize w env req).
Proof.
  split.
  - unfold post_authorize.
    apply silent_bindE; [reflexivity | intros parsed].
    apply silent_bindE; [reflexivity | intros info].
    destruct (negb (truthy info)); [reflexivity|].
    destruct info; reflexivity.
  - unfold post_authorize.
    apply (answers_bindE
             (fun parsed => approval_granted (Date_now w) req
                              (COOKIE_ENCRYPTION_KEY env)
                              (fst parsed) (snd parsed))).
    { unfold answers, lift. cbn [snd].
      pose proof (ApprovalFacts.parseRedirectApproval_cases (Date_now w) req
                    (COOKIE_ENCRYPTION_KEY env)) as H.
      destruct (parseRedirectApproval (Date_now w) req (COOKIE_ENCRYPTION_KEY env))
        as [[state hs]|]; [exact H | exact I]. }
    intros [state hs] (stateStr & cid & text & key & _ & _ & Hid & Ht & _ & _ & Hhs).
    cbn [fst snd] in *.
    destruct (clientId_has_oauthReqInfo state cid Hid Ht) as (info & Hinfo & Htinfo).
    rewrite Hinfo, bindE_lift_Ok, Htinfo. cbn [negb].
    apply answers_lift.
    pose proof (redirectToGoogle_shape req info env hs) as Hr.
    destruct (redirectToGoogle req info env hs) as [r|]; [|exact I].
    destruct Hr as (Hs & Hb & filled & location & Hnames & Hh).
    split; [exact Hs|]. split; [exact Hb|].
    rewrite Hh. rewrite Hhs in Hnames.
    destruct filled as [|[name cookie] [|other filled]]; try discriminate Hnames.
    injection Hnames as ->. exists cookie, location. reflexivity.
Qed.

(** X14.  [GET /authorize] calls neither upstream endpoint, completes no
    authorization and logs nothing.  When it answers, the answer is the
    refusal with status 400, a redirect with the single header [location],
    or the dialog page with status 200. *)
Theorem get_authorize_answers (w : World) (env : Env) (req : Request) :
  fst (get_authorize w env req) = []
  /\ answers authorize_answer (get_authorize w env req).
Proof.
  split.
  - unfold get_authorize.
    apply silent_bindE; [reflexivity | intros info].
    destruct (clientId info); [reflexivity|].
    apply silent_bindE; [reflexivity | intros approved].
    destruct approved; [reflexivity|].
    apply silent_bindE; [reflexivity | intros client]. reflexivity.
  - unfold get_authorize.
    apply (answers_bindE (fun _ => True)); [apply answers_any | intros info _].
    destruct (clientId info); [apply answers_ret; left; repeat split|].
    apply (answers_bindE (fun _ => True));
      [apply answers_any | intros approved _].
    destruct approved.
    + apply answers_lift.
      pose proof (redirectToGoogle_shape req (AuthRequest_json info) env [])
        as Hr.
      destruct (redirectToGoogle req (AuthRequest_json info) env []) as [r|];
        [|exact I].
      destruct Hr as (Hs & Hb & filled & location & Hnames & Hh).
      right; left. split; [exact Hs|]. split; [exact Hb|].
      destruct filled as [|other filled]; [|discriminate Hnames].
      exists location. exact Hh.
    + apply (answers_bindE (fun _ => True));
        [apply answers_any | intros client _].
      apply answers_lift. unfold renderApprovalDialog.
      destruct (js_get client (js "name")) as [name|]; [|exact I]. cbn [bind].
      destruct (ToString name); [|exact I]. cbn [bind].
      right; right. split; [reflexivity|]. split; [reflexivity|].
      eexists. reflexivity.
Qed.

(** X15.  For a client that has not been approved and that the provider
    does not know ([lookupClient] gives [null]), [GET /authorize] raises a
    TypeError: the dialog reads [client.name]. *)
Theorem get_authorize_unknown_client
    (w : World) (env : Env) (req : Request) (r : AuthRequest)
    (Hparsed : parseAuthRequest w req = Ok r)
    (Hclient : clientId r <> [])
    (Hfresh : clientIdAlreadyApproved req (clientId r)
                (COOKIE_ENCRYPTION_KEY env) = Ok false)
    (Hunknown : lookupClient w (clientId r) = Ok JNull) :
  get_authorize w env req = ([], Throw TypeError).
Proof.
  unfold get_authorize. rewrite Hparsed, bindE_lift_Ok.
  destruct (clientId r) as [|c cid] eqn:E; [congruence|].
  rewrite Hfresh, bindE_lift_Ok, Hunknown, bindE_lift_Ok. reflexivity.
Qed.

Lemma get_authorize_unknown_client_witness :
  get_authorize (provider_with (sample_request (js "xyz-123")) JNull)
    sample_env (callback_request None None)
  = ([], Throw TypeError).
Proof.
  apply (get_authorize_unknown_client
           (provider_with (sample_request (js "xyz-123")) JNull)
           sample_env (callback_request None None)
           (sample_request (js "xyz-123"))).
  - reflexivity.
  - discriminate.
  - reflexivity.
  - reflexivity.
Defined.

(** X16.  A request that carries the two cookies issued for its client
    under the server's secret is redirected upstream without the dialog;
    the [state] parameter of the location decodes to the authorization
    request. *)
Theorem approved_client_skips_dialog
    (w : World) (env : Env) (req : Request) (r : AuthRequest)
    (expires : option Z)
    (Hparsed : parseAuthRequest w req = Ok r)
    (Hclient : clientId r <> [])
    (Hsemi : ~ In 59 (clientId r)) (Heq : ~ In 61 (clientId r))
    (Hsecret : COOKIE_ENCRYPTION_KEY env <> [])
    (Hlatin1 : latin1_request r = true)
    (Hcookie :
       req_cookie req
       = Some (cookie_jar
                 (map cookie_pair
                    (approval_directives (clientId r)
                       (signData
                          (mkKey (enc_encode (COOKIE_ENCRYPTION_KEY env)))
                          (js "true"))
                       expires)))) :
  exists state,
    decode_state state = Ok (AuthRequest_json r)
    /\ get_authorize w env req
       = ([], Ok (mkResponse 302
                    [(js "location",
                      getUpstreamAuthorizeUrl
                        (mkUpstreamParams (GOOGLE_CLIENT_ID env)
                           (callback_url req) (js "openid email profile")
                           state
                           (js "https://accounts.google.com/o/oauth2/v2/auth")))]
                    None)).
Proof.
  pose proof (StateFacts.state_round_trip_json (AuthRequest_json r)
                (StateFacts.AuthRequest_json_textual r Hlatin1)
                (StateFacts.AuthRequest_json_canonical r)) as Hround.
  destruct (encode_state (AuthRequest_json r)) as [state|] eqn:Hstate;
    [|discriminate Hround].
  cbn [bind] in Hround. exists state. split; [exact Hround|].
  pose proof (approval_jar_check req (clientId r) (COOKIE_ENCRYPTION_KEY env)
                (COOKIE_ENCRYPTION_KEY env) expires Hsemi Heq Hsecret Hcookie)
    as Happroved.
  rewrite bool_decide_eq_true_2 in Happroved by reflexivity.
  unfold get_authorize. rewrite Hparsed, bindE_lift_Ok.
  destruct (clientId r) as [|c cid]; [congruence|].
  rewrite Happroved, bindE_lift_Ok.
  unfold redirectToGoogle. rewrite Hstate. reflexivity.
Qed.

Lemma approved_client_skips_dialog_witness :
  exists state,
    decode_state state = Ok (AuthRequest_json (sample_request (js "xyz-123")))
    /\ get_authorize (provider_with (sample_request (js "xyz-123")) JNull)
         sample_env
         (request_with_cookie
            (cookie_jar
               (map cookie_pair
                  (approval_directives (js "abc")
                     (signData (mkKey (enc_encode (js "secret"))) (js "true"))
                     (expires_after 1793655000123)))))
       = ([], Ok (mkResponse 302
                    [(js "location",
                      getUpstreamAuthorizeUrl
                        (mkUpstreamParams (js "google-client-id")
                           (js "https://mcp.example/callback")
                           (js "openid email profile")
                           state
                           (js "https://accounts.google.com/o/oauth2/v2/auth")))]
                    None)).
Proof.
  apply (approved_client_skips_dialog
           (provider_with (sample_request (js "xyz-123")) JNull)
           sample_env
           (request_with_cookie
              (cookie_jar
                 (map cookie_pair
                    (approval_directives (js "abc")
                       (signData (mkKey (enc_encode (js "secret"))) (js "true"))
                       (expires_after 1793655000123)))))
           (sample_request (js "xyz-123")) (expires_after 1793655000123)).
  - reflexivity.
  - discriminate.
  - closed_not_In.
  - closed_not_In.
  - discriminate.
  - vm_compute. reflexivity.
  - reflexivity.
Defined.

End RouteFacts.

(** ** The callback: calls and outcomes *)

Module CallbackOrder.
Import OAuthUtils AllowedUsers GoogleHandler Routes CallbackFacts CookieFacts.
Import CookieHeaderFacts.

Lemma calls_app (a b : list Event) : calls (a ++ b) = calls a ++ calls b.
Proof. apply List.filter_app. Qed.

(** The first stage: either it yields an identity after exactly the token
    exchange and the user-info request, or it ends the flow earlier. *)
Lemma callback_identity_calls (w : World) (env : Env) (req : Request) :
  (exists form authorization i,
      callback_identity w env req
      = ([TokenExchange form; UserInfoFetch authorization], Ok (inl i))
      /\ decode_state (state_param req) = Ok (id_request i)
      /\ js_get (id_userData i) (js "email") = Ok (Some (JStr (id_email i)))
      /\ id_login i = hd [] (String_split 64 (id_email i)))
  \/ ((forall i, snd (callback_identity w env req) <> Ok (inl i))
      /\ exists form authorization,
           calls (fst (callback_identity w env req)) = []
           \/ calls (fst (callback_identity w env req)) = [TokenExchange form]
           \/ calls (fst (callback_identity w env req))
              = [TokenExchange form; UserInfoFetch authorization]).
Proof.
  unfold callback_identity.
  destruct (decode_state (state_param req)) as [info|e] eqn:Hstate;
    [rewrite bindE_lift_Ok
    | right; split; [discriminate | exists [], []; left; reflexivity]].
  destruct (js_get info (js "clientId")) as [cid|e];
    [rewrite bindE_lift_Ok
    | right; split; [discriminate | exists [], []; left; reflexivity]].
  destruct (negb (truthy cid));
    [right; split; [discriminate | exists [], []; left; reflexivity]|].
  unfold fetchGoogleAccessToken.
  destruct (token_code (token_params env req)) as [[|c code]|];
    [rewrite bindE_ret;
     right; split; [discriminate | exists [], []; left; reflexivity]
    |
    |rewrite bindE_ret;
     right; split; [discriminate | exists [], []; left; reflexivity]].
  cbn zeta. set (form := token_form (token_params env req) (c :: code)).
  rewrite !bindE_assoc, bindE_emit.
  destruct (fetch_token w form) as [tokenResponse|e];
    [rewrite bindE_lift_Ok
    | right; split; [discriminate | exists form, []; right; left; reflexivity]].
  destruct (negb (fetch_ok tokenResponse)).
  { rewrite !bindE_assoc, bindE_emit, !bindE_ret. cbn [fst snd ret].
    right; split; [discriminate | exists form, []; right; left; reflexivity]. }
  rewrite !bindE_assoc.
  destruct (fetch_json tokenResponse) as [tokenData|e];
    [rewrite bindE_lift_Ok
    | right; split; [discriminate | exists form, []; right; left; reflexivity]].
  rewrite !bindE_assoc.
  destruct (js_get tokenData (js "access_token")) as [accessToken|e];
    [rewrite bindE_lift_Ok
    | right; split; [discriminate | exists form, []; right; left; reflexivity]].
  rewrite ?bindE_lift_Ok, ?bindE_ret.
  destruct (ToString accessToken) as [bearer|e];
    [rewrite bindE_lift_Ok
    | right; split; [discriminate | exists form, []; right; left; reflexivity]].
  set (authorization := js "Bearer " ++ bearer).
  rewrite bindE_emit.
  destruct (fetch_userinfo w authorization) as [userResponse|e];
    [rewrite bindE_lift_Ok
    | right; split; [discriminate
                    | exists form, authorization; right; right; reflexivity]].
  destruct (negb (fetch_ok userResponse)).
  { rewrite bindE_emit, ?bindE_ret. cbn [fst snd ret].
    right; split; [discriminate
                  | exists form, authorization; right; right; reflexivity]. }
  destruct (fetch_json userResponse) as [userData|e];
    [rewrite bindE_lift_Ok
    | right; split; [discriminate
                    | exists form, authorization; right; right; reflexivity]].
  destruct (js_get userData (js "email")) as [email|e] eqn:Hemail;
    [rewrite bindE_lift_Ok
    | right; split; [discriminate
                    | exists form, authorization; right; right; reflexivity]].
  destruct (login_of_email email) as [identity|e] eqn:Hlogin;
    [rewrite bindE_lift_Ok
    | right; split; [discriminate
                    | exists form, authorization; right; right; reflexivity]].
  left. eexists. eexists. eexists. split; [reflexivity|].
  cbn [id_request id_userData id_email id_login].
  destruct email as [[| | |address| |]|]; try discriminate Hlogin.
  injection Hlogin as <-. cbn [fst snd]. repeat split. exact Hemail.
Qed.

Lemma callback_complete_calls (w : World) (i : Identity) :
  fst (callback_complete w i) = []
  \/ exists options,
       fst (callback_complete w i) = [CompleteAuthorization options]
       /\ checkUserIsAllowed (id_login i) = true
       /\ request options = id_request i
       /\ userId options = id_email i
       /\ email (props options) = id_email i
       /\ login (props options) = id_login i
       /\ metadata_label options = name (props options).
Proof.
  unfold callback_complete.
  destruct (checkUserIsAllowed (id_login i)) eqn:Hallowed; cbn [negb];
    [|left; reflexivity].
  destruct (js_get (id_userData i) (js "name")) as [name|];
    [rewrite bindE_lift_Ok | left; reflexivity].
  destruct (js_get (id_request i) (js "scope")) as [scope|];
    [rewrite bindE_lift_Ok | left; reflexivity].
  rewrite bindE_emit. right. eexists. split.
  - destruct (completeAuthorization w _) as [redirectTo|];
      [rewrite bindE_lift_Ok | rewrite bindE_lift_Throw]; reflexivity.
  - repeat split.
Qed.

Lemma stages_ended (m : Eff (Identity + Response))
    (f : Identity -> Eff Response) :
  (forall i, snd m <> Ok (inl i)) ->
  fst (bindE m (fun s => match s with
                         | inl i => f i
                         | inr response => ret response
                         end))
  = fst m.
Proof.
  destruct m as [t [[i|response]|e]]; cbn [bindE fst snd ret]; intros H.
  - destruct (H i eq_refl).
  - apply app_nil_r.
  - reflexivity.
Qed.

(** X17.  The callback calls its collaborators in a fixed order, each at
    most once: the token exchange, then the user-info request, then
    [completeAuthorization]; no call is made without the ones before it. *)
Theorem callback_call_order (w : World) (env : Env) (req : Request) :
  let made := calls (fst (get_callback w env req)) in
  made = []
  \/ (exists form, made = [TokenExchange form])
  \/ (exists form authorization,
        made = [TokenExchange form; UserInfoFetch authorization])
  \/ (exists form authorization options,
        made = [ TokenExchange form; UserInfoFetch authorization;
                 CompleteAuthorization options ]).
Proof.
  cbn zeta. rewrite get_callback_stages.
  destruct (callback_identity_calls w env req)
    as [(form & authorization & i & E & _) | [Hno (form & authorization & H)]].
  - rewrite E, bindE_pair. cbn [fst snd]. rewrite calls_app.
    destruct (callback_complete_calls w i) as [-> | (options & -> & _)].
    + right; right; left. exists form, authorization. reflexivity.
    + right; right; right. exists form, authorization, options. reflexivity.
  - rewrite stages_ended by exact Hno.
    destruct H as [-> | [-> | ->]].
    + left. reflexivity.
    + right; left. exists form. reflexivity.
    + right; right; left. exists form, authorization. reflexivity.
Qed.

(** X18.  Whenever the callback completes an authorization, the request
    it grants is the one the [state] parameter decodes to, the user
    identifier is the e-mail address stored in the props, the login is the
    part of that address before its first [@], the policy allows that
    login, and the label is the name stored in the props. *)
Theorem completed_authorization (w : World) (env : Env) (req : Request)
    (options : CompleteAuthorizationOptions)
    (Hcompleted : In (CompleteAuthorization options)
                     (fst (get_callback w env req))) :
  decode_state (state_param req) = Ok (request options)
  /\ email (props options) = userId options
  /\ login (props options) = hd [] (String_split 64 (userId options))
  /\ checkUserIsAllowed (login (props options)) = true
  /\ metadata_label options = name (props options).
Proof.
  rewrite get_callback_stages in Hcompleted.
  pose proof (callback_identity_quiet w env req) as Hq.
  destruct (callback_identity_calls w env req)
    as [(form & authorization & i & E & Hstate & _ & Hlogin) | [Hno _]].
  - rewrite E, bindE_pair in Hcompleted. cbn [fst snd] in Hcompleted.
    apply in_app_or in Hcompleted as [Hin | Hin].
    { destruct Hin as [Hin | [Hin | []]]; discriminate Hin. }
    destruct (callback_complete_calls w i)
      as [Hnone | (options' & Hone & Hallowed & Hr & Hu & He & Hl & Hm)].
    { rewrite Hnone in Hin. destruct Hin. }
    rewrite Hone in Hin. destruct Hin as [Hin | []].
    injection Hin as <-.
    rewrite Hr, Hu, He, Hl. repeat split; assumption.
  - exfalso. rewrite stages_ended in Hcompleted by exact Hno.
    exact (quiet_not_In _ _ Hq Hcompleted).
Qed.

Lemma completed_authorization_witness :
  let options :=
    mkCompleteAuthorization (JStr (js "Leon"))
      (mkProps (Some (JStr (js "ya29.a0")))
         (js "leonchike@example.org") (js "leonchike") (JStr (js "Leon")))
      (JObj [(js "clientId", JStr (js "abc"))]) None
      (js "leonchike@example.org") in
  decode_state
    (state_param
       (callback_request (Some (js "eyJjbGllbnRJZCI6ImFiYyJ9"))
          (Some (js "4/0Ab"))))
  = Ok (request options)
  /\ email (props options) = userId options
  /\ login (props options) = hd [] (String_split 64 (userId options))
  /\ checkUserIsAllowed (login (props options)) = true
  /\ metadata_label options = name (props options).
Proof.
  apply (completed_authorization
           (world_with (Ok (mkFetchResponse 200 token_document))
                       (Ok (mkFetchResponse 200 leon_userinfo)))
           sample_env
           (callback_request (Some (js "eyJjbGllbnRJZCI6ImFiYyJ9"))
              (Some (js "4/0Ab")))).
  vm_compute. right. right. left. reflexivity.
Defined.


(** X19.  When the token exchange succeeded and the user-info endpoint
    answers with a status outside 200-299, the callback logs one line and
    answers with the fixed status 500 text; nothing of the upstream
    response is passed on, and no authorization is completed. *)
Theorem callback_userinfo_failure
    (w : World) (env : Env) (req : Request) (oauthReqInfo : json)
    (clientId accessToken : option json) (trace : list Event)
    (bearer : jsstring) (userResponse : FetchResponse)
    (Hstate : decode_state (state_param req) = Ok oauthReqInfo)
    (Hid : js_get oauthReqInfo (js "clientId") = Ok clientId)
    (Htruthy : truthy clientId = true)
    (Hexchange : fetchGoogleAccessToken w (token_params env req)
                 = (trace, Ok (inl accessToken)))
    (Hbearer : ToString accessToken = Ok bearer)
    (Huser : fetch_userinfo w (js "Bearer " ++ bearer) = Ok userResponse)
    (Hfailed : fetch_ok userResponse = false) :
  get_callback w env req
  = (trace ++ [ UserInfoFetch (js "Bearer " ++ bearer);
                ConsoleError (js "Failed to fetch user info from Google") ],
     Ok (mkResponse 500 [] (Some (js "Failed to fetch user info")))).
Proof.
  unfold get_callback.
  rewrite Hstate, bindE_lift_Ok, Hid, bindE_lift_Ok, Htruthy. cbn [negb].
  rewrite Hexchange, bindE_pair. cbn [fst snd].
  rewrite Hbearer, bindE_lift_Ok, bindE_emit, Huser, bindE_lift_Ok, Hfailed.
  cbn [negb]. rewrite bindE_emit. reflexivity.
Qed.

Lemma callback_userinfo_failure_witness :
  get_callback
    (world_with (Ok (mkFetchResponse 200 token_document))
                (Ok (mkFetchResponse 401 (js "{ error: 401 }"))))
    sample_env
    (callback_request (Some (js "eyJjbGllbnRJZCI6ImFiYyJ9")) (Some (js "4/0Ab")))
  = ([TokenExchange
        [ (js "code", js "4/0Ab"); (js "client_id", js "google-client-id");
          (js "client_secret", js "google-client-secret");
          (js "redirect_uri", js "https://mcp.example/callback");
          (js "grant_type", js "authorization_code") ]]
     ++ [ UserInfoFetch (js "Bearer " ++ js "ya29.a0");
          ConsoleError (js "Failed to fetch user info from Google") ],
     Ok (mkResponse 500 [] (Some (js "Failed to fetch user info")))).
Proof.
  exact (callback_userinfo_failure
           (world_with (Ok (mkFetchResponse 200 token_document))
                       (Ok (mkFetchResponse 401 (js "{ error: 401 }"))))
           sample_env
           (callback_request (Some (js "eyJjbGllbnRJZCI6ImFiYyJ9")) (Some (js "4/0Ab")))
           (JObj [(js "clientId", JStr (js "abc"))]) (Some (JStr (js "abc")))
           (Some (JStr (js "ya29.a0"))) _ (js "ya29.a0")
           (mkFetchResponse 401 (js "{ error: 401 }"))
           ltac:(vm_compute; reflexivity) ltac:(vm_compute; reflexivity)
           ltac:(vm_compute; reflexivity) ltac:(vm_compute; reflexivity)
           ltac:(vm_compute; reflexivity) ltac:(vm_compute; reflexivity)
           ltac:(vm_compute; reflexivity)).
Defined.

(** X20.  When the identity is fetched and its login is allowed, the
    callback calls [completeAuthorization] once, with the e-mail address as
    user identifier and the name, or the login when the name is missing or
    empty, as label.  With the location the provider returns it then
    answers as [Response.redirect] does: status 302 and the serialized URL
    as [Location] when the location parses as a URL, a TypeError when it
    does not. *)
Theorem callback_completes
    (w : World) (env : Env) (req : Request) (trace : list Event) (i : Identity)
    (name scope : option json) (redirectTo : jsstring)
    (Hidentity : callback_identity w env req = (trace, Ok (inl i)))
    (Hallowed : checkUserIsAllowed (id_login i) = true)
    (Hname : js_get (id_userData i) (js "name") = Ok name)
    (Hscope : js_get (id_request i) (js "scope") = Ok scope)
    (Hcomplete :
       completeAuthorization w
         (mkCompleteAuthorization
            (if truthy name then default JNull name else JStr (id_login i))
            (mkProps (id_accessToken i) (id_email i) (id_login i)
               (if truthy name then default JNull name else JStr (id_login i)))
            (id_request i) scope (id_email i))
       = Ok redirectTo) :
  get_callback w env req
  = (trace
     ++ [ CompleteAuthorization
            (mkCompleteAuthorization
               (if truthy name then default JNull name else JStr (id_login i))
               (mkProps (id_accessToken i) (id_email i) (id_login i)
                  (if truthy name then default JNull name
                   else JStr (id_login i)))
               (id_request i) scope (id_email i)) ],
     match URL_href w redirectTo with
     | Some href => Ok (mkResponse 302 [(js "Location", href)] None)
     | None => Throw TypeError
     end).
Proof.
  rewrite get_callback_stages, Hidentity, bindE_pair. cbn [fst snd].
  unfold callback_complete. rewrite Hallowed. cbn [negb].
  rewrite Hname, bindE_lift_Ok, Hscope, bindE_lift_Ok, bindE_emit.
  rewrite Hcomplete, bindE_lift_Ok. reflexivity.
Qed.

Lemma callback_completes_witness :
  get_callback
    (world_with (Ok (mkFetchResponse 200 token_document))
                (Ok (mkFetchResponse 200 leon_userinfo)))
    sample_env
    (callback_request (Some (js "eyJjbGllbnRJZCI6ImFiYyJ9")) (Some (js "4/0Ab")))
  = ([TokenExchange
        [ (js "code", js "4/0Ab"); (js "client_id", js "google-client-id");
          (js "client_secret", js "google-client-secret");
          (js "redirect_uri", js "https://mcp.example/callback");
          (js "grant_type", js "authorization_code") ];
      UserInfoFetch (js "Bearer ya29.a0")]
     ++ [ CompleteAuthorization
            (mkCompleteAuthorization (JStr (js "Leon"))
               (mkProps (Some (JStr (js "ya29.a0")))
                  (js "leonchike@example.org") (js "leonchike")
                  (JStr (js "Leon")))
               (JObj [(js "clientId", JStr (js "abc"))]) None
               (js "leonchike@example.org")) ],
     Ok (mkResponse 302
           [(js "Location", js "https://client.example/cb?code=minted")] None)).
Proof.
  exact (callback_completes
           (world_with (Ok (mkFetchResponse 200 token_document))
                       (Ok (mkFetchResponse 200 leon_userinfo)))
           sample_env
           (callback_request (Some (js "eyJjbGllbnRJZCI6ImFiYyJ9")) (Some (js "4/0Ab")))
           _
           (mkIdentity (JObj [(js "clientId", JStr (js "abc"))])
              (Some (JStr (js "ya29.a0")))
              (JObj [(js "email", JStr (js "leonchike@example.org"));
                     (js "name", JStr (js "Leon"))])
              (js "leonchike@example.org") (js "leonchike"))
           (Some (JStr (js "Leon"))) None
           (js "https://client.example/cb?code=minted")
           ltac:(vm_compute; reflexivity) ltac:(vm_compute; reflexivity)
           ltac:(vm_compute; reflexivity) ltac:(vm_compute; reflexivity)
           ltac:(vm_compute; reflexivity)).
Defined.

Lemma hd_String_split (sep : N) (s : jsstring) :
  ~ In sep (hd [] (String_split sep s))
  /\ (s = hd [] (String_split sep s)
      \/ exists rest, s = hd [] (String_split sep s) ++ sep :: rest).
Proof.
  induction s as [|c t IH]; cbn [String_split].
  - split; [intros [] | left; reflexivity].
  - destruct (N.eqb_spec c sep) as [->|Hne].
    + split; [intros [] | right; exists t; reflexivity].
    + destruct (String_split sep t) as [|h r]; cbn [hd] in *.
      * destruct IH as [_ [-> | (rest & ->)]].
        -- split; [intros [E|[]]; congruence | left; reflexivity].
        -- split; [intros [E|[]]; congruence | right; exists rest; reflexivity].
      * destruct IH as [Hh [-> | (rest & ->)]].
        -- split; [intros [E|E]; [congruence | exact (Hh E)] | left; reflexivity].
        -- split; [intros [E|E]; [congruence | exact (Hh E)]|].
           right. exists rest. reflexivity.
Qed.

(** X21.  The login of an e-mail address is what precedes its first [@]:
    it contains no [@], and the address is the login alone or the login,
    an [@] and a rest.  What follows the first [@] has no part in it. *)
Theorem login_is_local_part (address : jsstring) :
  exists login,
    login_of_email (Some (JStr address)) = Ok (address, login)
    /\ ~ In 64 login
    /\ (address = login \/ exists rest, address = login ++ 64 :: rest).
Proof.
  exists (hd [] (String_split 64 address)). split; [reflexivity|].
  apply hd_String_split.
Qed.

End CallbackOrder.

(** ** The approval dialog and its form *)

Module DialogFacts.
Import OAuthUtils AllowedUsers GoogleHandler Routes CallbackFacts CookieFacts.
Import SigningFacts.









(** A form whose [state] field is the JSON text of a dialog state is
    parsed to that state, with the cookies for its client. *)
Lemma parse_dialog_state (now : Z) (r : AuthRequest) (key : jsstring) :
  clientId r <> [] -> key <> [] -> latin1_request r = true ->
  parseRedirectApproval now
    (approval_request
       (JSON.stringify (JObj [(js "oauthReqInfo", AuthRequest_json r)]))) key
  = Ok (JObj [(js "oauthReqInfo", AuthRequest_json r)],
        [(js "Set-Cookie",
          join_comma_space
            (approval_directives (clientId r)
               (signData (mkKey (enc_encode key)) (js "true"))
               (expires_after now)))]).
Proof.
  intros Hclient Hkey Hlatin1.
  set (state := JObj [(js "oauthReqInfo", AuthRequest_json r)]).
  assert (Htext : JSON.textual state = true).
  { unfold state. cbn [JSON.textual forallb fst snd].
    rewrite (StateFacts.AuthRequest_json_textual r Hlatin1). reflexivity. }
  assert (Hcan : JSON.canonical state = true).
  { unfold state. cbn [JSON.canonical forallb map fst snd].
    rewrite (StateFacts.AuthRequest_json_canonical r). reflexivity. }
  pose proof (JSONFacts.parse_stringify state Htext Hcan) as Hparse.
  destruct (JSONFacts.stringify_opener state Htext) as (c & s & Hs & _).
  unfold parseRedirectApproval, approval_request. cbn [req_formData bind].
  change (FormData_get (js "state") [(js "state", FormString ?x)])
    with (Some (FormString x)).
  rewrite Hs, <- Hs, Hparse. cbn [bind].
  assert (Hid : oauthReqInfo_clientId state = Ok (Some (JStr (clientId r)))).
  { unfold state. destruct r. reflexivity. }
  rewrite Hid. cbn [bind].
  destruct (clientId r) as [|c0 cid] eqn:E; [congruence|].
  cbn [truthy negb]. rewrite (getSigningKey_Ok key Hkey). reflexivity.
Qed.

Lemma latin1_clientId (r : AuthRequest) :
  latin1_request r = true -> Base64.latin1 (clientId r) = true.
Proof.
  unfold latin1_request. intros H.
  repeat (apply andb_prop in H as [H ?]). assumption.
Qed.

(** X23.  The state the dialog puts in its form comes back: when the form
    is submitted with the JSON text of that state, for a client identifier
    without NUL, line feed and carriage return, [POST /authorize] answers
    with status 302, the approval cookies for the client of the request
    under the server's secret, and a location whose [state] parameter
    decodes to the authorization request. *)
Theorem dialog_state_is_accepted (w : World) (env : Env) (r : AuthRequest)
    (Hclient : clientId r <> [])
    (Hkey : COOKIE_ENCRYPTION_KEY env <> [])
    (Hlatin1 : latin1_request r = true)
    (Hline : existsb is_header_break (clientId r) = false) :
  let request :=
    approval_request
      (JSON.stringify (JObj [(js "oauthReqInfo", AuthRequest_json r)])) in
  exists state,
    decode_state state = Ok (AuthRequest_json r)
    /\ post_authorize w env request
       = ([], Ok (mkResponse 302
                    [ (js "Set-Cookie",
                       join_comma_space
                         (approval_directives (clientId r)
                            (signData
                               (mkKey (enc_encode (COOKIE_ENCRYPTION_KEY env)))
                               (js "true"))
                            (expires_after (Date_now w))));
                      (js "location",
                       getUpstreamAuthorizeUrl
                         (mkUpstreamParams (GOOGLE_CLIENT_ID env)
                            (callback_url request) (js "openid email profile")
                            state
                            (js "https://accounts.google.com/o/oauth2/v2/auth"))) ]
                    None)).
Proof.
  cbn zeta.
  pose proof (StateFacts.state_round_trip_json (AuthRequest_json r)
                (StateFacts.AuthRequest_json_textual r Hlatin1)
                (StateFacts.AuthRequest_json_canonical r)) as Hround.
  destruct (encode_state (AuthRequest_json r)) as [state|] eqn:Hstate;
    [|discriminate Hround].
  cbn [bind] in Hround. exists state. split; [exact Hround|].
  unfold post_authorize.
  rewrite (parse_dialog_state (Date_now w) r (COOKIE_ENCRYPTION_KEY env)
             Hclient Hkey Hlatin1).
  rewrite bindE_lift_Ok. cbn [fst snd].
  assert (Hinfo : js_get (JObj [(js "oauthReqInfo", AuthRequest_json r)])
                    (js "oauthReqInfo")
                  = Ok (Some (AuthRequest_json r))) by reflexivity.
  rewrite Hinfo, bindE_lift_Ok.
  assert (Htruthy : truthy (Some (AuthRequest_json r)) = true) by reflexivity.
  rewrite Htruthy. cbn [negb].
  unfold redirectToGoogle. rewrite Hstate. cbn [bind Headers_fill].
  rewrite HeaderFacts.approval_header_value.
  - reflexivity.
  - apply HeaderFacts.header_units_of; [apply latin1_clientId, Hlatin1|].
    exact Hline.
  - apply (proj2 (SignatureFacts.signData_hex _ _)).
Qed.

Lemma dialog_state_is_accepted_witness :
  exists state,
    decode_state state = Ok (AuthRequest_json (sample_request (js "xyz-123")))
    /\ post_authorize (provider_with (sample_request (js "xyz-123")) JNull)
         sample_env
         (approval_request
            (JSON.stringify
               (JObj [(js "oauthReqInfo",
                       AuthRequest_json (sample_request (js "xyz-123")))])))
       = ([], Ok (mkResponse 302
                    [ (js "Set-Cookie",
                       join_comma_space
                         (approval_directives (js "abc")
                            (signData (mkKey (enc_encode (js "secret")))
                               (js "true"))
                            (expires_after 1793655000123)));
                      (js "location",
                       getUpstreamAuthorizeUrl
                         (mkUpstreamParams (js "google-client-id")
                            (js "https://mcp.example/callback")
                            (js "openid email profile")
                            state
                            (js "https://accounts.google.com/o/oauth2/v2/auth"))) ]
                    None)).
Proof.
  apply (dialog_state_is_accepted
           (provider_with (sample_request (js "xyz-123")) JNull) sample_env
           (sample_request (js "xyz-123"))).
  - discriminate.
  - discriminate.
  - vm_compute. reflexivity.
  - vm_compute. reflexivity.
Defined.

End DialogFacts.

(** ** What the callback sends upstream *)

Module UpstreamRequests.
Import OAuthUtils AllowedUsers GoogleHandler Routes CallbackFacts CookieFacts.

Lemma trace_bindE {A B} (P : Event -> Prop) (m : Eff A) (k : A -> Eff B) :
  Forall P (fst m) -> (forall a, Forall P (fst (k a))) ->
  Forall P (fst (bindE m k)).
Proof.
  intros Hm Hk. rewrite bindE_pair. destruct (snd m) as [a|e]; cbn [fst].
  - apply Forall_app. split; [exact Hm | apply Hk].
  - exact Hm.
Qed.

Lemma trace_emit (P : Event -> Prop) (ev : Event) :
  P ev -> Forall P (fst (emit ev)).
Proof. intros H. repeat constructor. exact H. Qed.

(** X24.  Every token request of the callback carries the [code]
    parameter of the callback, which is not empty, the client identifier and
    secret of the environment, the callback URL of the request's own origin
    and the grant type [authorization_code], in that order; every user-info
    request is authorized by [Bearer] and a token. *)
Theorem callback_requests (w : World) (env : Env) (req : Request) :
  Forall (fun ev =>
            match ev with
            | TokenExchange form =>
                exists code,
                  lookup_first (js "code") (req_query req) = Some code
                  /\ code <> []
                  /\ form = [ (js "code", code);
                              (js "client_id", GOOGLE_CLIENT_ID env);
                              (js "client_secret", GOOGLE_CLIENT_SECRET env);
                              (js "redirect_uri",
                               req_origin req ++ js "/callback");
                              (js "grant_type", js "authorization_code") ]
            | UserInfoFetch authorization =>
                exists token, authorization = js "Bearer " ++ token
            | _ => True
            end)
         (fst (get_callback w env req)).
Proof.
  unfold get_callback.
  match goal with |- Forall ?P _ => set (expected := P) end.
  apply (trace_bindE expected); [constructor | intros info; cbn beta].
  apply (trace_bindE expected); [constructor | intros cid; cbn beta].
  destruct (negb (truthy cid)); [constructor|].
  apply (trace_bindE expected).
  - unfold fetchGoogleAccessToken.
    change (token_code (token_params env req))
      with (lookup_first (js "code") (req_query req)).
    destruct (lookup_first (js "code") (req_query req)) as [[|c code]|] eqn:Hcode;
      [constructor| |constructor].
    cbn zeta. apply (trace_bindE expected).
    + apply trace_emit. exists (c :: code).
      split; [reflexivity|]. split; [discriminate | reflexivity].
    + intros _. cbn beta. apply (trace_bindE expected); [constructor|].
      intros tokenResponse. cbn beta. destruct (negb (fetch_ok tokenResponse)).
      * apply (trace_bindE expected); [apply trace_emit; exact I|].
        intros _. constructor.
      * apply (trace_bindE expected); [constructor | intros tokenData; cbn beta].
        apply (trace_bindE expected); [constructor | intros token; cbn beta].
        constructor.
  - intros [accessToken|errResponse]; cbn beta iota; [|constructor].
    apply (trace_bindE expected); [constructor | intros bearer; cbn beta].
    apply (trace_bindE expected);
      [apply trace_emit; exists bearer; reflexivity | intros _; cbn beta].
    apply (trace_bindE expected); [constructor | intros userResponse; cbn beta].
    destruct (negb (fetch_ok userResponse)).
    + apply (trace_bindE expected); [apply trace_emit; exact I|].
      intros _. constructor.
    + apply (trace_bindE expected); [constructor | intros userData; cbn beta].
      apply (trace_bindE expected); [constructor | intros address; cbn beta].
      apply (trace_bindE expected); [constructor | intros identity; cbn beta].
      destruct (negb (checkUserIsAllowed (snd identity))); [constructor|].
      apply (trace_bindE expected); [constructor | intros name; cbn beta].
      apply (trace_bindE expected); [constructor | intros scope; cbn beta].
      apply (trace_bindE expected); [apply trace_emit; exact I | intros _; cbn beta].
      apply (trace_bindE expected); [constructor | intros redirectTo; cbn beta].
      constructor.
Qed.

(** X26.  The callback answers "Invalid state" with status 400, without
    any call, exactly when the [state] parameter decodes to a value other
    than [null] whose [clientId] is missing or falsy. *)
Theorem callback_invalid_state_iff (w : World) (env : Env) (req : Request) :
  get_callback w env req = ([], Ok (c_text (js "Invalid state") 400))
  <-> exists oauthReqInfo clientId,
        decode_state (state_param req) = Ok oauthReqInfo
        /\ js_get oauthReqInfo (js "clientId") = Ok clientId
        /\ truthy clientId = false.
Proof.
  split.
  2:{ intros (info & cid & Hstate & Hid & Hfalsy).
      exact (get_callback_invalid_state w env req info cid Hstate Hid Hfalsy). }
  unfold get_callback.
  destruct (decode_state (state_param req)) as [info|e];
    [rewrite bindE_lift_Ok | discriminate].
  destruct (js_get info (js "clientId")) as [cid|e] eqn:Hid;
    [rewrite bindE_lift_Ok | discriminate].
  destruct (truthy cid) eqn:Htruthy; cbn [negb];
    [|intros _; exists info, cid; repeat split; assumption].
  intros H. exfalso. revert H.
  unfold fetchGoogleAccessToken.
  destruct (token_code (token_params env req)) as [[|c code]|];
    [rewrite bindE_ret; discriminate| |rewrite bindE_ret; discriminate].
  cbn zeta. rewrite !bindE_assoc, bindE_emit. discriminate.
Qed.

End UpstreamRequests.
